(** * WhatsApp HTTP bridge: connection supervisor and bulk dispatch

    A shallow embedding of [server.js] and of its later revision (the one
    that adds batching, [/api/send-bulk] and [/api/send-bulk-qr]).

    - A JavaScript string is modelled as the [string] of its UTF-8
      encoding.  The operations used by the code ([startsWith],
      [substring], [includes], [+], a regular expression over ASCII
      digits) only inspect ASCII characters, which are one byte each;
      [trim] also strips white space that is not ASCII.
    - Timestamps ([Date.now()]) are [Z]; counters are [nat].
    - The code is asynchronous.  The dispatch loops are sequential chains
      of awaited calls, so they are modelled in a state-and-exception monad
      whose state records the trace of provider calls and pauses; the
      outcome of each external call is read from an oracle.  The
      supervisor is event driven, so its handlers are modelled as
      resumptions: a handler runs up to its next [await] on an external
      promise and leaves a continuation in the task table. *)

From stdpp Require Import base option list gmap strings sorting.
From Stdlib Require Import Ascii ZArith Lia.

Open Scope string_scope.
Open Scope list_scope.

(** ** JavaScript string helpers *)

(** [s.startsWith(p)] *)
Definition startsWith (p s : string) : bool := String.prefix p s.

(** [s.substring(1)] *)
Definition substring1 (s : string) : string :=
  match s with
  | EmptyString => EmptyString
  | String _ t => t
  end.

(** [s.includes(p)] *)
Fixpoint includes (p s : string) : bool :=
  String.prefix p s ||
  match s with
  | EmptyString => false
  | String _ t => includes p t
  end.

(** The character class [\d]. *)
Definition is_digit (c : ascii) : bool :=
  let n := Ascii.nat_of_ascii c in (48 <=? n)%nat && (n <=? 57)%nat.

(** The tail of [/^\d+@c\.us$/] once one digit has been read:
    [\d*@c\.us$]. *)
Fixpoint digits_then_cus (s : string) : bool :=
  String.eqb s "@c.us" ||
  match s with
  | EmptyString => false
  | String c t => is_digit c && digits_then_cus t
  end.

(** [s.match(/^\d+@c\.us$/)] as a truth value. *)
Definition match_number_pattern (s : string) : bool :=
  match s with
  | EmptyString => false
  | String c t => is_digit c && digits_then_cus t
  end.

(** The white space and line terminators that [trim] strips, by the
    bytes of their encoding: U+0009 to U+000D and U+0020; *)
Definition is_ws1 (a : nat) : bool :=
  ((a =? 32) || ((9 <=? a) && (a <=? 13)))%nat.

(** U+00A0; *)
Definition is_ws2 (a b : nat) : bool :=
  ((a =? 194) && (b =? 160))%nat.

(** U+1680, U+2000 to U+200A, U+2028, U+2029, U+202F, U+205F, U+3000
    and U+FEFF. *)
Definition is_ws3 (a b c : nat) : bool :=
  (((a =? 225) && (b =? 154) && (c =? 128))
   || ((a =? 226) && (b =? 128)
       && (((128 <=? c) && (c <=? 138)) || (c =? 168) || (c =? 169) || (c =? 175)))
   || ((a =? 226) && (b =? 129) && (c =? 159))
   || ((a =? 227) && (b =? 128) && (c =? 128))
   || ((a =? 239) && (b =? 187) && (c =? 191)))%nat.

(** Strip the white space at the front of [s]; [backwards] when [s] is
    a string read from its end. *)
Fixpoint strip (backwards : bool) (s : string) : string :=
  match s with
  | EmptyString => EmptyString
  | String c1 t1 =>
      let a := Ascii.nat_of_ascii c1 in
      if is_ws1 a then strip backwards t1
      else
        match t1 with
        | EmptyString => s
        | String c2 t2 =>
            let b := Ascii.nat_of_ascii c2 in
            if (if backwards then is_ws2 b a else is_ws2 a b)
            then strip backwards t2
            else
              match t2 with
              | EmptyString => s
              | String c3 t3 =>
                  let c := Ascii.nat_of_ascii c3 in
                  if (if backwards then is_ws3 c b a else is_ws3 a b c)
                  then strip backwards t3
                  else s
              end
        end
  end.

(** [s.trim()] *)
Definition trim (s : string) : string :=
  String.rev (strip true (String.rev (strip false s))).

(** ** Bulk dispatch: data *)

(** The [number] field of a submitted message: a JSON string, or any other
    JSON value (on which the string methods are not defined). *)
Inductive jsfield :=
| JStr (s : string)
| JOther.

(** What the destructuring
<<
  const { number, message, qrData } = messages[i];
>>
    reads off an element of [req.body.messages].  [qrData] is [None]
    when the field is absent.

    [req.body.messages] itself is an array of JSON values, a
    [list (option msg)]: an element is [None] when it is [null], which
    cannot be destructured; any other value can (a value that is not an
    object has none of the three properties, so its [number] is not a
    string). *)
Record msg := Msg {
  number : jsfield;
  message : string;
  qrData : option string
}.

(** JavaScript truthiness of [qrData]. *)
Definition truthy (q : option string) : bool :=
  match q with
  | Some s => negb (String.eqb s "")
  | None => false
  end.

(** ** Target normalisation *)

(** [/api/send-messages] (both revisions) and [/api/send-bulk]:
<<
  const formattedNumber = number.startsWith('+') ?
    number.substring(1) + '@c.us' : number + '@c.us';
>> *)
Definition formatNumber (n : string) : string :=
  if startsWith "+" n then substring1 n +:+ "@c.us" else n +:+ "@c.us".

(** [/api/send-bulk-qr]:
<<
  if (number.includes('@c.us')) formattedNumber = number;
  else if (number.startsWith('+')) formattedNumber = number.substring(1) + '@c.us';
  else formattedNumber = number + '@c.us';
>> *)
Definition formatNumberQr (n : string) : string :=
  if includes "@c.us" n then n
  else if startsWith "+" n then substring1 n +:+ "@c.us"
  else n +:+ "@c.us".

(** The whole [try] block of [/api/send-bulk-qr] that formats and
    validates the number; [None] is the [catch] branch.  A [number] that
    is not a string lacks one of [includes], [startsWith] and [match]
    (an array has [includes] but no [match]), so the block throws. *)
Definition validNumberQr (n : jsfield) : option string :=
  match n with
  | JOther => None
  | JStr s =>
      let formattedNumber := formatNumberQr s in
      if match_number_pattern formattedNumber then Some formattedNumber else None
  end.

(** ** Bulk dispatch: the execution monad *)

(** What the dispatch loops do to the outside world, in order.  [i] is
    the index of the message in [messages]. *)
Inductive action :=
| Encode (i : nat)                              (* qrcode.toBuffer(qrData, ..) *)
| SendMedia (i : nat) (to caption : string)     (* client.sendMessage(to, media, {caption}) *)
| SendText (i : nat) (to body : string)         (* client.sendMessage(to, body) *)
| Sleep (ms : Z)                                (* await new Promise(r => setTimeout(r, ms)) *)
| Delivered (i : nat)                           (* successCount++ *)
| Failed (i : nat).                             (* failCount++ *)

(** Outcome of one [client.sendMessage] call. *)
Inductive send_outcome :=
| SendOk            (* resolves with a message object *)
| SendNoResponse    (* resolves with a falsy value *)
| SendThrows.       (* rejects, or [client] is [null] by then *)

(** Outcome of one [qrcode.toBuffer] call: it settles after [ms]
    milliseconds, or never. *)
Inductive encoder_outcome :=
| Encoded (ms : Z) (png : string)
| EncoderError (ms : Z)
| EncoderHangs.

(** The environment of a job: the outcome of the n-th call of each
    external operation. *)
Record oracle := Oracle {
  sendMessage_outcome : nat -> send_outcome;
  toBuffer_outcome : nat -> encoder_outcome;
  random300 : nat -> Z      (* Math.floor(Math.random() * 300) *)
}.

Record dstate := DState {
  successCount : nat;
  failCount : nat;
  trace : list action;
  sends : nat;        (* calls of client.sendMessage so far *)
  encodes : nat;      (* calls of qrcode.toBuffer so far *)
  randoms : nat       (* calls of Math.random so far *)
}.

Definition dstate0 : dstate := DState 0 0 [] 0 0 0.

(** State and exceptions: [None] is a thrown error.  The state reached
    when the error is thrown is kept, as in JavaScript. *)
Definition D (A : Type) : Type := dstate -> option A * dstate.

#[export] Instance D_ret : MRet D := fun A a st => (Some a, st).
#[export] Instance D_bind : MBind D := fun A B f m st =>
  match m st with
  | (Some a, st') => f a st'
  | (None, st') => (None, st')
  end.

Definition throw {A} : D A := fun st => (None, st).

(** [try { body } catch { handler }] *)
Definition try_catch {A} (body handler : D A) : D A := fun st =>
  match body st with
  | (Some a, st') => (Some a, st')
  | (None, st') => handler st'
  end.

Definition emit (a : action) : D unit := fun st =>
  (Some tt, DState (successCount st) (failCount st) (trace st ++ [a])
                   (sends st) (encodes st) (randoms st)).

(** [successCount++] *)
Definition succeed (i : nat) : D unit := fun st =>
  (Some tt, DState (S (successCount st)) (failCount st) (trace st ++ [Delivered i])
                   (sends st) (encodes st) (randoms st)).

(** [failCount++] *)
Definition fail (i : nat) : D unit := fun st =>
  (Some tt, DState (successCount st) (S (failCount st)) (trace st ++ [Failed i])
                   (sends st) (encodes st) (randoms st)).

Definition sleep (ms : Z) : D unit := emit (Sleep ms).

(** [for (let i = start; i < start + n; i++) body(i)] *)
Fixpoint for_range (n start : nat) (body : nat -> D unit) : D unit :=
  match n with
  | O => mret tt
  | S n' => body start ;; for_range n' (S start) body
  end.

(** [for (let b = start; b < stop; b += step) body(b)].  Each iteration
    consumes one unit of [fuel]; [stop - start] units are enough when
    [step] is positive (lemma [for_step_fuel]). *)
Fixpoint for_step (fuel start stop step : nat) (body : nat -> D unit) : D unit :=
  match fuel with
  | O => mret tt
  | S fuel' =>
      if (start <? stop)%nat
      then body start ;; for_step fuel' (start + step) stop step body
      else mret tt
  end.

(** Reading a string method off the [number] field. *)
Definition as_string (n : jsfield) : D string :=
  match n with
  | JStr s => mret s
  | JOther => throw
  end.

Section Primitives.

Variable env : oracle.

(** [await client.sendMessage(..)]; [a] is the call as it appears in the
    trace. *)
Definition sendMessage (a : action) : D send_outcome := fun st =>
  let st' := DState (successCount st) (failCount st) (trace st ++ [a])
                    (S (sends st)) (encodes st) (randoms st) in
  match sendMessage_outcome env (sends st) with
  | SendThrows => (None, st')
  | r => (Some r, st')
  end.

(** [Math.floor(Math.random() * 300)] *)
Definition random : D Z := fun st =>
  (Some (random300 env (randoms st)),
   DState (successCount st) (failCount st) (trace st)
          (sends st) (encodes st) (S (randoms st))).

(** [generateQRCode]: [qrcode.toBuffer] raced against a timer of
    [timeout] milliseconds (5000 in [server.js], 8000 in the later
    revision); every error becomes [null]. *)
Definition generateQRCode (timeout : Z) (i : nat) (qrData : option string)
  : D (option string) :=
  if negb (truthy qrData) then mret None
  else fun st =>
    let st' := DState (successCount st) (failCount st) (trace st ++ [Encode i])
                      (sends st) (S (encodes st)) (randoms st) in
    match toBuffer_outcome env (encodes st) with
    | Encoded ms png => if (ms <? timeout)%Z then (Some (Some png), st') else (Some None, st')
    | EncoderError _ => (Some None, st')
    | EncoderHangs => (Some None, st')
    end.

(** The [try] block of one iteration of [/api/send-messages], the same
    in both revisions. *)
Definition deliver (timeout : Z) (i : nat) (m : msg) (formattedNumber : string) : D unit :=
  try_catch
    (if truthy (qrData m) then
       try_catch
         (qrImageBuffer ← generateQRCode timeout i (qrData m);
          match qrImageBuffer with
          | Some _ =>
              sendMessage (SendMedia i formattedNumber (message m)) ;;
              succeed i
          | None =>
              (* QR generation failed, send text only *)
              sendMessage (SendText i formattedNumber (message m)) ;;
              succeed i
          end)
         ((* If QR generation errors, fall back to text message *)
          sendMessage (SendText i formattedNumber (message m)) ;;
          succeed i)
     else
       sendMessage (SendText i formattedNumber (message m)) ;;
       succeed i)
    (fail i).

End Primitives.

(** [messages[i]], destructured: a [TypeError] when the element is
    [null] (or [undefined], past the end of the array). *)
Definition item (messages : list (option msg)) (i : nat) : D msg :=
  match messages !! i with
  | Some (Some m) => mret m
  | Some None | None => throw
  end.

(** The part of a bulk handler that precedes the background loop: 403
    when not connected, 400 for an empty list, otherwise 202 and the job
    runs; an error that escapes the loop is caught and logged. *)
Definition accept (connected : bool) (messages : list (option msg)) (job : D unit)
  : nat * dstate :=
  if negb connected then (403, dstate0)
  else if (length messages =? 0)%nat then (400, dstate0)
  else (202, snd (try_catch job (mret tt) dstate0)).

(** *** [/api/send-messages] in [server.js] *)
Module SendMessagesV1.
Section WithEnv.
Variable env : oracle.

(** One message after the other, 600-899 ms apart. *)
Definition body (messages : list (option msg)) (i : nat) : D unit :=
  m ← item messages i;
  n ← as_string (number m);
  let formattedNumber := formatNumber n in
  deliver env 5000 i m formattedNumber ;;
  if (i <? length messages - 1)%nat
  then r ← random env; sleep (600 + r)
  else mret tt.

Definition loop (messages : list (option msg)) : D unit :=
  for_range (length messages) 0 (body messages).

Definition handler (connected : bool) (messages : list (option msg))
  : nat * dstate :=
  accept connected messages (loop messages).

End WithEnv.
End SendMessagesV1.

(** *** [/api/send-messages] in the later revision: batches *)
Module SendMessages.

Definition BATCH_SIZE : nat := 20.
Definition BATCH_DELAY : Z := 3000.
Definition MESSAGE_DELAY : Z := 1000.

Section WithEnv.
Variable env : oracle.

Definition body (messages : list (option msg)) (batchEnd i : nat) : D unit :=
  m ← item messages i;
  n ← as_string (number m);
  let formattedNumber := formatNumber n in
  deliver env 8000 i m formattedNumber ;;
  if (i <? batchEnd - 1)%nat then sleep MESSAGE_DELAY else mret tt.

Definition batch (messages : list (option msg)) (batchStart : nat) : D unit :=
  let batchEnd := Nat.min (batchStart + BATCH_SIZE) (length messages) in
  for_range (batchEnd - batchStart) batchStart (body messages batchEnd) ;;
  if (batchEnd <? length messages)%nat then sleep BATCH_DELAY else mret tt.

Definition loop (messages : list (option msg)) : D unit :=
  for_step (length messages) 0 (length messages) BATCH_SIZE (batch messages).

Definition handler (connected : bool) (messages : list (option msg))
  : nat * dstate :=
  accept connected messages (loop messages).

End WithEnv.
End SendMessages.

(** *** [/api/send-bulk-qr] *)
Module SendBulkQr.

Definition BATCH_SIZE : nat := 5.
Definition MESSAGE_DELAY : Z := 3000.
Definition SUB_BATCH_DELAY : Z := 12000.
Definition MAX_ATTEMPTS : nat := 2.

Section WithEnv.
Variable env : oracle.

(** [while (!qrImageBuffer && qrAttempt < 2) { try {..} catch {..} }].
    Two units of fuel are enough: a failed round increments
    [qrAttempt] (lemma [qr_while_fuel]). *)
Fixpoint qr_while (fuel : nat) (i : nat) (qrData : option string)
    (qrImageBuffer : option string) (qrAttempt : nat) : D (option string) :=
  match fuel with
  | O => mret qrImageBuffer
  | S fuel' =>
      if negb (bool_decide (is_Some qrImageBuffer)) && (qrAttempt <? 2)%nat then
        r ← try_catch
              (b ← generateQRCode env 8000 i qrData;
               match b with
               | Some png => mret (Some png, qrAttempt)
               | None => throw      (* 'QR generation returned null' *)
               end)
              (let qrAttempt := S qrAttempt in
               if (qrAttempt <? 2)%nat
               then sleep 2000 ;; mret (None, qrAttempt)
               else throw);         (* propagate error after max attempts *)
        qr_while fuel' i qrData r.1 r.2
      else mret qrImageBuffer
  end.

(** One round of [while (!success && attempts < MAX_ATTEMPTS)], after
    [attempts++]; the result is the new value of [success]. *)
Definition attempt (i : nat) (m : msg) (formattedNumber : string) (attempts : nat)
  : D bool :=
  try_catch
    (if truthy (qrData m) then
       try_catch
         (qrImageBuffer ← qr_while 2 i (qrData m) None 0;
          match qrImageBuffer with
          | Some _ =>
              sendMessage env (SendMedia i formattedNumber (message m)) ;;
              succeed i ;; mret true
          | None =>
              sendMessage env (SendText i formattedNumber (message m)) ;;
              succeed i ;; mret true
          end)
         (if (MAX_ATTEMPTS <=? attempts)%nat then
            (* fall back to text message *)
            try_catch
              (sendMessage env (SendText i formattedNumber (message m)) ;;
               succeed i ;; mret true)
              (fail i ;; mret false)
          else
            sleep 3000 ;; mret false)
     else
       sendMessage env (SendText i formattedNumber (message m)) ;;
       succeed i ;; mret true)
    (if (MAX_ATTEMPTS <=? attempts)%nat
     then fail i ;; mret false
     else sleep 3000 ;; mret false).

(** [MAX_ATTEMPTS] units of fuel are enough: every round increments
    [attempts]. *)
Fixpoint attempts_while (fuel : nat) (i : nat) (m : msg) (formattedNumber : string)
    (success : bool) (attempts : nat) : D unit :=
  match fuel with
  | O => mret tt
  | S fuel' =>
      if negb success && (attempts <? MAX_ATTEMPTS)%nat then
        let attempts := S attempts in
        success ← attempt i m formattedNumber attempts;
        attempts_while fuel' i m formattedNumber success attempts
      else mret tt
  end.

Definition body (messages : list (option msg)) (subBatchEnd i : nat) : D unit :=
  m ← item messages i;
  match validNumberQr (number m) with
  | None => fail i          (* continue: skip this message *)
  | Some formattedNumber =>
      attempts_while MAX_ATTEMPTS i m formattedNumber false 0 ;;
      if (i <? subBatchEnd - 1)%nat then sleep MESSAGE_DELAY else mret tt
  end.

Definition subBatch (messages : list (option msg)) (subBatchStart : nat) : D unit :=
  let subBatchEnd := Nat.min (subBatchStart + BATCH_SIZE) (length messages) in
  for_range (subBatchEnd - subBatchStart) subBatchStart (body messages subBatchEnd) ;;
  if (subBatchEnd <? length messages)%nat then sleep SUB_BATCH_DELAY else mret tt.

Definition loop (messages : list (option msg)) : D unit :=
  for_step (length messages) 0 (length messages) BATCH_SIZE (subBatch messages).

Definition handler (connected : bool) (messages : list (option msg))
  : nat * dstate :=
  accept connected messages (loop messages).

End WithEnv.
End SendBulkQr.

(** *** [/api/send-bulk]: the messages of a batch run concurrently *)

(** All the ways of merging the action sequences of concurrent tasks;
    every schedule of the event loop is one of them. *)
Inductive interleave {A : Type} : list (list A) -> list A -> Prop :=
| interleave_done (ls : list (list A)) :
    Forall (fun l => l = []) ls -> interleave ls []
| interleave_step (ls1 ls2 : list (list A)) (a : A) (l t : list A) :
    interleave (ls1 ++ l :: ls2) t ->
    interleave (ls1 ++ (a :: l) :: ls2) (a :: t).

Module SendBulk.

Definition MESSAGE_BATCH_SIZE : nat := 8.
Definition BATCH_DELAY : Z := 1500.
Definition MESSAGE_DELAY : Z := 800.
Definition MAX_RETRIES : nat := 1.

(** [sendMessageWithRetry(number, message, retryCount)].  The recursion
    stops when [retryCount] reaches [MAX_RETRIES], so [MAX_RETRIES + 1]
    units of fuel are enough. *)
Fixpoint sendMessageWithRetry (fuel : nat) (env : oracle) (i : nat)
    (number : jsfield) (message : string) (retryCount : nat) : D bool :=
  match fuel with
  | O => mret false
  | S fuel' =>
      try_catch
        (n ← as_string number;
         let formattedNumber := formatNumber n in
         response ← sendMessage env (SendText i formattedNumber message);
         match response with
         | SendOk => mret true
         | _ => throw             (* 'No response from WhatsApp client' *)
         end)
        (if (retryCount <? MAX_RETRIES)%nat then
           sleep 700 ;;
           sendMessageWithRetry fuel' env i number message (S retryCount)
         else mret false)
  end.

Section WithOutcomes.

(** [outcome i k]: what the k-th [client.sendMessage] call made for
    message [i] does. *)
Variable outcome : nat -> nat -> send_outcome.

Definition item_env (i : nat) : oracle :=
  Oracle (outcome i) (fun _ => EncoderHangs) (fun _ => 0%Z).

(** The promise pushed on [batchPromises] for message [i]. *)
Definition task (batchStart i : nat) (m : msg) : D unit :=
  let staggerDelay := (Z.of_nat (i - batchStart) * MESSAGE_DELAY)%Z in
  sleep staggerDelay ;;
  (sendMessageWithRetry (S MAX_RETRIES) (item_env i) i (number m) (message m) 0
     ≫= fun success : bool => if success then succeed i else fail i).

(** The actions of that promise, in its own order. *)
Definition task_trace (messages : list (option msg)) (batchStart i : nat)
  : list action :=
  match messages !! i with
  | Some (Some m) => trace (task batchStart i m dstate0).2
  | Some None | None => []
  end.

(** [messages[i]] is [null]. *)
Definition is_null (messages : list (option msg)) (i : nat) : bool :=
  match messages !! i with
  | Some None => true
  | _ => false
  end.

(** The loop that creates the promises of a batch destructures
    [messages[i]] before it pushes the promise for it: the index at
    which it throws, the first [null] element of the batch. *)
Definition thrown_at (messages : list (option msg)) (batchStart batchEnd : nat)
  : option nat :=
  List.find (is_null messages) (seq batchStart (batchEnd - batchStart)).

(** The traces of the loop from [batchStart] on: [Promise.all] lets the
    tasks of one batch interleave and is awaited before the pause and the
    next batch.  When the creation of the promises throws, the error
    leaves both loops for the [catch] of the handler; the promises that
    were already created run on, interleaved, and nothing follows. *)
Inductive job (messages : list (option msg)) : nat -> list action -> Prop :=
| job_end (batchStart : nat) :
    ¬ (batchStart < length messages)%nat ->
    job messages batchStart []
| job_batch (batchStart : nat) (t rest : list action) :
    (batchStart < length messages)%nat ->
    let batchEnd := Nat.min (batchStart + MESSAGE_BATCH_SIZE) (length messages) in
    thrown_at messages batchStart batchEnd = None ->
    interleave (map (task_trace messages batchStart)
                    (seq batchStart (batchEnd - batchStart))) t ->
    job messages (batchStart + MESSAGE_BATCH_SIZE) rest ->
    job messages batchStart
        (t ++ (if (batchEnd <? length messages)%nat then [Sleep BATCH_DELAY] else [])
           ++ rest)
| job_thrown (batchStart k : nat) (t : list action) :
    (batchStart < length messages)%nat ->
    let batchEnd := Nat.min (batchStart + MESSAGE_BATCH_SIZE) (length messages) in
    thrown_at messages batchStart batchEnd = Some k ->
    interleave (map (task_trace messages batchStart)
                    (seq batchStart (k - batchStart))) t ->
    job messages batchStart t.

End WithOutcomes.
End SendBulk.

(** ** Observations on traces *)

(** The message an action is about. *)
Definition item_of (a : action) : option nat :=
  match a with
  | Encode i | SendMedia i _ _ | SendText i _ _ | Delivered i | Failed i => Some i
  | Sleep _ => None
  end.

(** A delivery attempt through the session provider. *)
Definition is_send (i : nat) (a : action) : bool :=
  match a with
  | SendMedia j _ _ | SendText j _ _ => (i =? j)%nat
  | _ => false
  end.

Definition is_encode (i : nat) (a : action) : bool :=
  match a with
  | Encode j => (i =? j)%nat
  | _ => false
  end.

(** The messages that reached a terminal outcome, in order. *)
Definition terminal (a : action) : option nat :=
  match a with
  | Delivered i | Failed i => Some i
  | _ => None
  end.

Definition terminals (t : list action) : list nat := omap terminal t.

Definition encode_calls (i : nat) (t : list action) : nat :=
  length (filter (fun a => is_encode i a = true) t).

Definition send_calls (i : nat) (t : list action) : nat :=
  length (filter (fun a => is_send i a = true) t).

(** Batches of size [B] run in sequence: an action that comes later in
    the trace is never about a message of an earlier batch. *)
Definition batches_in_order (B : nat) (t : list action) : Prop :=
  forall l1 a l2 b l3 i j,
    t = l1 ++ a :: l2 ++ b :: l3 ->
    item_of a = Some i -> item_of b = Some j ->
    (i / B <= j / B)%nat.

(** The skeleton of a trace: terminal outcomes and pauses of [delay]
    milliseconds. *)
Inductive milestone :=
| Done (i : nat)
| Pause.

Definition milestone_of (delay : Z) (a : action) : option milestone :=
  match a with
  | Delivered i | Failed i => Some (Done i)
  | Sleep ms => if (ms =? delay)%Z then Some Pause else None
  | _ => None
  end.

Definition milestones (delay : Z) (t : list action) : list milestone :=
  omap (milestone_of delay) t.

(** The elements of a well-formed request are objects whose numbers are
    JSON strings. *)
Definition is_string (n : jsfield) : Prop :=
  match n with
  | JStr _ => True
  | JOther => False
  end.

Definition well_formed (messages : list (option msg)) : Prop :=
  Forall (fun e => match e with
                   | Some m => is_string (number m)
                   | None => False
                   end) messages.

(** The number of elements before the first one that is [null] or that
    [ok] refuses. *)
Fixpoint prefix_length (ok : msg -> bool) (messages : list (option msg)) : nat :=
  match messages with
  | Some m :: rest => if ok m then S (prefix_length ok rest) else 0
  | _ => 0
  end.

(** The number of elements before the first [null] one. *)
Definition objects_before (messages : list (option msg)) : nat :=
  prefix_length (fun _ => true) messages.

(** The number of elements before the first one that is [null] or whose
    [number] is not a string. *)
Definition strings_before (messages : list (option msg)) : nat :=
  prefix_length (fun m => match number m with JStr _ => true | JOther => false end)
                messages.

(** ** Connection supervisor: data *)

Definition MAX_RECONNECTION_ATTEMPTS : nat := 3.
Definition MIN_RECONNECT_INTERVAL : Z := 30000.
Definition CONNECTION_CHECK_INTERVAL : Z := 15000.
Definition QR_MAX_AGE : Z := 300000.

(** The callbacks handed to [setTimeout] and [setInterval]. *)
Inductive timer :=
| ReconnectCallback         (* handleDisconnection: reconnectionTimer = setTimeout(.., 5000) *)
| InitRetryCallback         (* catch of initialize(): reconnectionTimer = setTimeout(.., 5000) *)
| Reinitialize (delay : Z)  (* setTimeout(() => initializeWhatsAppClient(), delay) *)
| MonitorTick               (* startMonitoring: setInterval(.., 60000) *)
| ConnectionCheck.          (* setInterval(checkActiveConnection, CONNECTION_CHECK_INTERVAL) *)

Definition is_interval (t : timer) : bool :=
  match t with
  | MonitorTick | ConnectionCheck => true
  | _ => false
  end.

(** What the caller of [await destroyClient()] does once it returns. *)
Inductive after_destroy :=
| QrBurst           (* the 'qr' handler, more than five codes *)
| QrExpired         (* the monitor, stale code with auto-refresh *)
| GenerateQr        (* POST /generate-qr *)
| Reset             (* POST /reset *)
| Logout            (* POST /logout, the handler registered first *)
| LoggedOut.        (* POST /logout, the handler registered second *)

(** A handler suspended at an [await] on an external promise. *)
Inductive task :=
| AwaitDestroy (k : after_destroy)   (* destroyClient: await client.destroy() *)
| AwaitInitialize                    (* initializeWhatsAppClient: await client.initialize() *)
| AwaitDataURL                       (* 'qr' handler: await qrcode.toDataURL(qr) *)
| AwaitCheckState                    (* checkActiveConnection: await client.getState() *)
| AwaitMonitorState                  (* monitor: await client.getState() *)
| AwaitContact                       (* fetchProfileInfo: await client.getContactById(..) *)
| AwaitProfilePic                    (* fetchProfileInfo: await client.getProfilePicUrl(..) *)
| AwaitPingState                     (* GET /ping: await client.getState() *)
| AwaitStatusState (state : string)  (* GET /status: await client.getState() *)
| AwaitLogout (k : after_destroy).   (* POST /logout: await client.logout() *)

(** How an awaited promise settles. *)
Inductive reply :=
| Fulfilled                                  (* destroy, initialize, logout *)
| FulfilledWith (s : string)                 (* getState, toDataURL, getProfilePicUrl *)
| FulfilledContact (name pushname : string)  (* getContactById; "" for a missing field *)
| Rejected (error_message : string).

(** What a route handler sends back.  [res_status] is the [status] field
    of the JSON body where there is one. *)
Record response := Response {
  res_path : string;
  res_code : nat;
  res_success : bool;
  res_status : string;
  res_message : string
}.

(** The module-level variables of [server.js], and the state of the
    JavaScript runtime that the handlers act on. *)
Record world := World {
  qrCodeData : string;
  isLoggedIn : bool;
  loggedInNumber : string;
  loggedInName : string;
  profilePictureUrl : string;
  connectionState : string;
  client : option nat;   (* the Client instance, numbered in order of creation, or null *)
  isClientDestroying : bool;
  reconnectionTimer : option nat;
  monitoringTimer : option nat;
  connectionCheckTimer : option nat;
  lastConnectionAttempt : Z;
  reconnectionAttempts : nat;
  lastKnownState : option string;   (* null, or the last state reported *)
  lastActiveTimestamp : Z;
  qrGenerationTime : Z;
  qrAttempts : nat;
  qrAutoRefresh : bool;
  now : Z;   (* Date.now() *)
  timers : gmap nat timer;   (* pending setTimeout / setInterval callbacks *)
  tasks : gmap nat task;   (* handlers suspended at an await *)
  nextId : nat;   (* next timer or task handle *)
  clientsCreated : nat;   (* how many times new Client() ran *)
  responses : list response   (* HTTP responses sent so far *)
}.

Definition set_qrCodeData (v : string) (w : world) : world :=
  World v (isLoggedIn w) (loggedInNumber w) (loggedInName w)
    (profilePictureUrl w) (connectionState w) (client w)
    (isClientDestroying w) (reconnectionTimer w) (monitoringTimer w)
    (connectionCheckTimer w) (lastConnectionAttempt w)
    (reconnectionAttempts w) (lastKnownState w) (lastActiveTimestamp w)
    (qrGenerationTime w) (qrAttempts w) (qrAutoRefresh w) (now w) (timers w)
    (tasks w) (nextId w) (clientsCreated w) (responses w).
Definition set_isLoggedIn (v : bool) (w : world) : world :=
  World (qrCodeData w) v (loggedInNumber w) (loggedInName w)
    (profilePictureUrl w) (connectionState w) (client w)
    (isClientDestroying w) (reconnectionTimer w) (monitoringTimer w)
    (connectionCheckTimer w) (lastConnectionAttempt w)
    (reconnectionAttempts w) (lastKnownState w) (lastActiveTimestamp w)
    (qrGenerationTime w) (qrAttempts w) (qrAutoRefresh w) (now w) (timers w)
    (tasks w) (nextId w) (clientsCreated w) (responses w).
Definition set_loggedInNumber (v : string) (w : world) : world :=
  World (qrCodeData w) (isLoggedIn w) v (loggedInName w)
    (profilePictureUrl w) (connectionState w) (client w)
    (isClientDestroying w) (reconnectionTimer w) (monitoringTimer w)
    (connectionCheckTimer w) (lastConnectionAttempt w)
    (reconnectionAttempts w) (lastKnownState w) (lastActiveTimestamp w)
    (qrGenerationTime w) (qrAttempts w) (qrAutoRefresh w) (now w) (timers w)
    (tasks w) (nextId w) (clientsCreated w) (responses w).
Definition set_loggedInName (v : string) (w : world) : world :=
  World (qrCodeData w) (isLoggedIn w) (loggedInNumber w) v
    (profilePictureUrl w) (connectionState w) (client w)
    (isClientDestroying w) (reconnectionTimer w) (monitoringTimer w)
    (connectionCheckTimer w) (lastConnectionAttempt w)
    (reconnectionAttempts w) (lastKnownState w) (lastActiveTimestamp w)
    (qrGenerationTime w) (qrAttempts w) (qrAutoRefresh w) (now w) (timers w)
    (tasks w) (nextId w) (clientsCreated w) (responses w).
Definition set_profilePictureUrl (v : string) (w : world) : world :=
  World (qrCodeData w) (isLoggedIn w) (loggedInNumber w) (loggedInName w) v
    (connectionState w) (client w) (isClientDestroying w)
    (reconnectionTimer w) (monitoringTimer w) (connectionCheckTimer w)
    (lastConnectionAttempt w) (reconnectionAttempts w) (lastKnownState w)
    (lastActiveTimestamp w) (qrGenerationTime w) (qrAttempts w)
    (qrAutoRefresh w) (now w) (timers w) (tasks w) (nextId w)
    (clientsCreated w) (responses w).
Definition set_connectionState (v : string) (w : world) : world :=
  World (qrCodeData w) (isLoggedIn w) (loggedInNumber w) (loggedInName w)
    (profilePictureUrl w) v (client w) (isClientDestroying w)
    (reconnectionTimer w) (monitoringTimer w) (connectionCheckTimer w)
    (lastConnectionAttempt w) (reconnectionAttempts w) (lastKnownState w)
    (lastActiveTimestamp w) (qrGenerationTime w) (qrAttempts w)
    (qrAutoRefresh w) (now w) (timers w) (tasks w) (nextId w)
    (clientsCreated w) (responses w).
Definition set_client (v : option nat) (w : world) : world :=
  World (qrCodeData w) (isLoggedIn w) (loggedInNumber w) (loggedInName w)
    (profilePictureUrl w) (connectionState w) v (isClientDestroying w)
    (reconnectionTimer w) (monitoringTimer w) (connectionCheckTimer w)
    (lastConnectionAttempt w) (reconnectionAttempts w) (lastKnownState w)
    (lastActiveTimestamp w) (qrGenerationTime w) (qrAttempts w)
    (qrAutoRefresh w) (now w) (timers w) (tasks w) (nextId w)
    (clientsCreated w) (responses w).
Definition set_isClientDestroying (v : bool) (w : world) : world :=
  World (qrCodeData w) (isLoggedIn w) (loggedInNumber w) (loggedInName w)
    (profilePictureUrl w) (connectionState w) (client w) v
    (reconnectionTimer w) (monitoringTimer w) (connectionCheckTimer w)
    (lastConnectionAttempt w) (reconnectionAttempts w) (lastKnownState w)
    (lastActiveTimestamp w) (qrGenerationTime w) (qrAttempts w)
    (qrAutoRefresh w) (now w) (timers w) (tasks w) (nextId w)
    (clientsCreated w) (responses w).
Definition set_reconnectionTimer (v : option nat) (w : world) : world :=
  World (qrCodeData w) (isLoggedIn w) (loggedInNumber w) (loggedInName w)
    (profilePictureUrl w) (connectionState w) (client w)
    (isClientDestroying w) v (monitoringTimer w) (connectionCheckTimer w)
    (lastConnectionAttempt w) (reconnectionAttempts w) (lastKnownState w)
    (lastActiveTimestamp w) (qrGenerationTime w) (qrAttempts w)
    (qrAutoRefresh w) (now w) (timers w) (tasks w) (nextId w)
    (clientsCreated w) (responses w).
Definition set_monitoringTimer (v : option nat) (w : world) : world :=
  World (qrCodeData w) (isLoggedIn w) (loggedInNumber w) (loggedInName w)
    (profilePictureUrl w) (connectionState w) (client w)
    (isClientDestroying w) (reconnectionTimer w) v (connectionCheckTimer w)
    (lastConnectionAttempt w) (reconnectionAttempts w) (lastKnownState w)
    (lastActiveTimestamp w) (qrGenerationTime w) (qrAttempts w)
    (qrAutoRefresh w) (now w) (timers w) (tasks w) (nextId w)
    (clientsCreated w) (responses w).
Definition set_connectionCheckTimer (v : option nat) (w : world) : world :=
  World (qrCodeData w) (isLoggedIn w) (loggedInNumber w) (loggedInName w)
    (profilePictureUrl w) (connectionState w) (client w)
    (isClientDestroying w) (reconnectionTimer w) (monitoringTimer w) v
    (lastConnectionAttempt w) (reconnectionAttempts w) (lastKnownState w)
    (lastActiveTimestamp w) (qrGenerationTime w) (qrAttempts w)
    (qrAutoRefresh w) (now w) (timers w) (tasks w) (nextId w)
    (clientsCreated w) (responses w).
Definition set_lastConnectionAttempt (v : Z) (w : world) : world :=
  World (qrCodeData w) (isLoggedIn w) (loggedInNumber w) (loggedInName w)
    (profilePictureUrl w) (connectionState w) (client w)
    (isClientDestroying w) (reconnectionTimer w) (monitoringTimer w)
    (connectionCheckTimer w) v (reconnectionAttempts w) (lastKnownState w)
    (lastActiveTimestamp w) (qrGenerationTime w) (qrAttempts w)
    (qrAutoRefresh w) (now w) (timers w) (tasks w) (nextId w)
    (clientsCreated w) (responses w).
Definition set_reconnectionAttempts (v : nat) (w : world) : world :=
  World (qrCodeData w) (isLoggedIn w) (loggedInNumber w) (loggedInName w)
    (profilePictureUrl w) (connectionState w) (client w)
    (isClientDestroying w) (reconnectionTimer w) (monitoringTimer w)
    (connectionCheckTimer w) (lastConnectionAttempt w) v (lastKnownState w)
    (lastActiveTimestamp w) (qrGenerationTime w) (qrAttempts w)
    (qrAutoRefresh w) (now w) (timers w) (tasks w) (nextId w)
    (clientsCreated w) (responses w).
Definition set_lastKnownState (v : option string) (w : world) : world :=
  World (qrCodeData w) (isLoggedIn w) (loggedInNumber w) (loggedInName w)
    (profilePictureUrl w) (connectionState w) (client w)
    (isClientDestroying w) (reconnectionTimer w) (monitoringTimer w)
    (connectionCheckTimer w) (lastConnectionAttempt w)
    (reconnectionAttempts w) v (lastActiveTimestamp w) (qrGenerationTime w)
    (qrAttempts w) (qrAutoRefresh w) (now w) (timers w) (tasks w) (nextId w)
    (clientsCreated w) (responses w).
Definition set_lastActiveTimestamp (v : Z) (w : world) : world :=
  World (qrCodeData w) (isLoggedIn w) (loggedInNumber w) (loggedInName w)
    (profilePictureUrl w) (connectionState w) (client w)
    (isClientDestroying w) (reconnectionTimer w) (monitoringTimer w)
    (connectionCheckTimer w) (lastConnectionAttempt w)
    (reconnectionAttempts w) (lastKnownState w) v (qrGenerationTime w)
    (qrAttempts w) (qrAutoRefresh w) (now w) (timers w) (tasks w) (nextId w)
    (clientsCreated w) (responses w).
Definition set_qrGenerationTime (v : Z) (w : world) : world :=
  World (qrCodeData w) (isLoggedIn w) (loggedInNumber w) (loggedInName w)
    (profilePictureUrl w) (connectionState w) (client w)
    (isClientDestroying w) (reconnectionTimer w) (monitoringTimer w)
    (connectionCheckTimer w) (lastConnectionAttempt w)
    (reconnectionAttempts w) (lastKnownState w) (lastActiveTimestamp w) v
    (qrAttempts w) (qrAutoRefresh w) (now w) (timers w) (tasks w) (nextId w)
    (clientsCreated w) (responses w).
Definition set_qrAttempts (v : nat) (w : world) : world :=
  World (qrCodeData w) (isLoggedIn w) (loggedInNumber w) (loggedInName w)
    (profilePictureUrl w) (connectionState w) (client w)
    (isClientDestroying w) (reconnectionTimer w) (monitoringTimer w)
    (connectionCheckTimer w) (lastConnectionAttempt w)
    (reconnectionAttempts w) (lastKnownState w) (lastActiveTimestamp w)
    (qrGenerationTime w) v (qrAutoRefresh w) (now w) (timers w) (tasks w)
    (nextId w) (clientsCreated w) (responses w).
Definition set_qrAutoRefresh (v : bool) (w : world) : world :=
  World (qrCodeData w) (isLoggedIn w) (loggedInNumber w) (loggedInName w)
    (profilePictureUrl w) (connectionState w) (client w)
    (isClientDestroying w) (reconnectionTimer w) (monitoringTimer w)
    (connectionCheckTimer w) (lastConnectionAttempt w)
    (reconnectionAttempts w) (lastKnownState w) (lastActiveTimestamp w)
    (qrGenerationTime w) (qrAttempts w) v (now w) (timers w) (tasks w)
    (nextId w) (clientsCreated w) (responses w).
Definition set_now (v : Z) (w : world) : world :=
  World (qrCodeData w) (isLoggedIn w) (loggedInNumber w) (loggedInName w)
    (profilePictureUrl w) (connectionState w) (client w)
    (isClientDestroying w) (reconnectionTimer w) (monitoringTimer w)
    (connectionCheckTimer w) (lastConnectionAttempt w)
    (reconnectionAttempts w) (lastKnownState w) (lastActiveTimestamp w)
    (qrGenerationTime w) (qrAttempts w) (qrAutoRefresh w) v (timers w)
    (tasks w) (nextId w) (clientsCreated w) (responses w).
Definition set_timers (v : gmap nat timer) (w : world) : world :=
  World (qrCodeData w) (isLoggedIn w) (loggedInNumber w) (loggedInName w)
    (profilePictureUrl w) (connectionState w) (client w)
    (isClientDestroying w) (reconnectionTimer w) (monitoringTimer w)
    (connectionCheckTimer w) (lastConnectionAttempt w)
    (reconnectionAttempts w) (lastKnownState w) (lastActiveTimestamp w)
    (qrGenerationTime w) (qrAttempts w) (qrAutoRefresh w) (now w) v
    (tasks w) (nextId w) (clientsCreated w) (responses w).
Definition set_tasks (v : gmap nat task) (w : world) : world :=
  World (qrCodeData w) (isLoggedIn w) (loggedInNumber w) (loggedInName w)
    (profilePictureUrl w) (connectionState w) (client w)
    (isClientDestroying w) (reconnectionTimer w) (monitoringTimer w)
    (connectionCheckTimer w) (lastConnectionAttempt w)
    (reconnectionAttempts w) (lastKnownState w) (lastActiveTimestamp w)
    (qrGenerationTime w) (qrAttempts w) (qrAutoRefresh w) (now w) (timers w)
    v (nextId w) (clientsCreated w) (responses w).
Definition set_nextId (v : nat) (w : world) : world :=
  World (qrCodeData w) (isLoggedIn w) (loggedInNumber w) (loggedInName w)
    (profilePictureUrl w) (connectionState w) (client w)
    (isClientDestroying w) (reconnectionTimer w) (monitoringTimer w)
    (connectionCheckTimer w) (lastConnectionAttempt w)
    (reconnectionAttempts w) (lastKnownState w) (lastActiveTimestamp w)
    (qrGenerationTime w) (qrAttempts w) (qrAutoRefresh w) (now w) (timers w)
    (tasks w) v (clientsCreated w) (responses w).
Definition set_clientsCreated (v : nat) (w : world) : world :=
  World (qrCodeData w) (isLoggedIn w) (loggedInNumber w) (loggedInName w)
    (profilePictureUrl w) (connectionState w) (client w)
    (isClientDestroying w) (reconnectionTimer w) (monitoringTimer w)
    (connectionCheckTimer w) (lastConnectionAttempt w)
    (reconnectionAttempts w) (lastKnownState w) (lastActiveTimestamp w)
    (qrGenerationTime w) (qrAttempts w) (qrAutoRefresh w) (now w) (timers w)
    (tasks w) (nextId w) v (responses w).
Definition set_responses (v : list response) (w : world) : world :=
  World (qrCodeData w) (isLoggedIn w) (loggedInNumber w) (loggedInName w)
    (profilePictureUrl w) (connectionState w) (client w)
    (isClientDestroying w) (reconnectionTimer w) (monitoringTimer w)
    (connectionCheckTimer w) (lastConnectionAttempt w)
    (reconnectionAttempts w) (lastKnownState w) (lastActiveTimestamp w)
    (qrGenerationTime w) (qrAttempts w) (qrAutoRefresh w) (now w) (timers w)
    (tasks w) (nextId w) (clientsCreated w) v.

Definition initial_world : world :=
  World "" false "" "" "" "INITIALIZING" None false None None None
        0 0 None 0 0 0 false
        0 ∅ ∅ 0 0 [].

(** ** Connection supervisor: the JavaScript runtime *)

Notation "w |> f" := (f w) (at level 45, left associativity, only parsing).

Definition is_some {A} (o : option A) : bool :=
  match o with
  | Some _ => true
  | None => false
  end.

(** [a || b] on strings. *)
Definition or_else (a b : string) : string :=
  if String.eqb a "" then b else a.

(** [setTimeout(t, ..)] / [setInterval(t, ..)].  The handle that the
    call returns is [nextId w], the next free one. *)
Definition setTimer (t : timer) (w : world) : world :=
  w |> set_timers (<[nextId w := t]> (timers w)) |> set_nextId (S (nextId w)).

(** [clearTimeout(id)] / [clearInterval(id)] *)
Definition clearTimer (id : nat) (w : world) : world :=
  set_timers (delete id (timers w)) w.

(** The running handler reaches an [await] on an external promise. *)
Definition suspend (k : task) (w : world) : world :=
  w |> set_tasks (<[nextId w := k]> (tasks w)) |> set_nextId (S (nextId w)).

Definition respond (r : response) (w : world) : world :=
  set_responses (responses w ++ [r]) w.

(** ** Connection supervisor: the functions of [server.js] *)

(** The guard of [destroyClient]: [client && !isClientDestroying]. *)
Definition destroyClient_guard (w : world) : bool :=
  is_some (client w) && negb (isClientDestroying w).

(** [destroyClient] past its guard, up to [await client.destroy()]. *)
Definition destroyClient_begin (w : world) : world :=
  set_isClientDestroying true w.

(** The [finally] block of [destroyClient]; it runs whether
    [client.destroy()] resolved or threw. *)
Definition destroyClient_finally (w : world) : world :=
  w |> set_client None
    |> set_isClientDestroying false
    |> set_isLoggedIn false
    |> set_connectionState "DISCONNECTED"
    |> set_profilePictureUrl ""
    |> set_loggedInName "".

(** One whole call of [destroyClient], nothing else running in between. *)
Definition destroyClient (w : world) : world :=
  if destroyClient_guard w
  then w |> destroyClient_begin |> destroyClient_finally
  else w.

Definition handleDisconnection (w : world) : world :=
  let w := w |> set_connectionState "DISCONNECTED"
             |> set_isLoggedIn false
             |> set_loggedInNumber ""
             |> set_loggedInName ""
             |> set_profilePictureUrl "" in
  (* Stop active connection checking *)
  let w := match connectionCheckTimer w with
           | Some id => w |> clearTimer id |> set_connectionCheckTimer None
           | None => w
           end in
  (* Schedule reconnection attempt if not already scheduled *)
  match reconnectionTimer w with
  | None =>
      w |> setTimer ReconnectCallback
        |> set_reconnectionTimer (Some (nextId w))
  | Some _ => w
  end.

(** [initializeWhatsAppClient], up to [await client.initialize()]. *)
Definition initializeWhatsAppClient (w : world) : world :=
  (* Prevent multiple initialization attempts *)
  if is_some (client w) || isClientDestroying w then w
  (* Minimum time between attempts *)
  else if (now w - lastConnectionAttempt w <? MIN_RECONNECT_INTERVAL)%Z then w
  else
    w |> set_lastConnectionAttempt (now w)
      |> set_connectionState "INITIALIZING"
      |> set_isLoggedIn false
      |> set_qrCodeData ""
      |> set_qrAttempts 0
      |> set_client (Some (clientsCreated w))
      |> set_clientsCreated (S (clientsCreated w))
      |> suspend AwaitInitialize.

(** The [catch] around [client.initialize()]. *)
Definition initialize_failed (w : world) : world :=
  let w := handleDisconnection w in
  match reconnectionTimer w with
  | None =>
      w |> setTimer InitRetryCallback
        |> set_reconnectionTimer (Some (nextId w))
  | Some _ => w
  end.

Definition startMonitoring (w : world) : world :=
  let w := match monitoringTimer w with
           | Some id => clearTimer id w
           | None => w
           end in
  w |> setTimer MonitorTick |> set_monitoringTimer (Some (nextId w)).

(** What follows [await destroyClient()] in each caller. *)
Definition after (k : after_destroy) (w : world) : world :=
  let reset path state text :=
    w |> set_isLoggedIn false
      |> set_qrCodeData ""
      |> set_connectionState state
      |> set_reconnectionAttempts 0
      |> set_lastActiveTimestamp 0
      |> set_profilePictureUrl ""
      |> set_loggedInName ""
      |> startMonitoring
      |> setTimer (Reinitialize 3000)
      |> respond (Response path 200 true "" text) in
  match k with
  | QrBurst => setTimer (Reinitialize 3000) w
  | QrExpired => setTimer (Reinitialize 2000) w
  | GenerateQr =>
      w |> set_qrCodeData ""
        |> set_connectionState "GENERATING_QR"
        |> setTimer (Reinitialize 2000)
        |> respond (Response "/generate-qr" 200 true "" "Generating new QR code")
  | Reset =>
      reset "/reset" "RESETTING"
            "✅ WhatsApp session reset. QR code will be generated shortly."
  | Logout =>
      reset "/logout" "RESETTING"
            "✅ WhatsApp session reset. QR code will be generated shortly."
  | LoggedOut =>
      reset "/logout" "LOGGED_OUT"
            "✅ Successfully logged out from WhatsApp. QR code will be generated shortly."
  end.

(** [await destroyClient(); ..]: when the guard refuses, the caller goes
    on in the same turn. *)
Definition await_destroyClient (k : after_destroy) (w : world) : world :=
  if destroyClient_guard w
  then w |> destroyClient_begin |> suspend (AwaitDestroy k)
  else after k w.

(** The end of the ['qr'] handler. *)
Definition qr_tail (w : world) : world :=
  if (5 <? qrAttempts w)%nat then await_destroyClient QrBurst w else w.

Definition on_qr (qr : string) (w : world) : world :=
  let w := set_qrAttempts (S (qrAttempts w)) w in
  if negb (String.eqb qr "") && negb (String.eqb (trim qr) "undefined")
  then suspend AwaitDataURL w
  else qr_tail w.

Definition on_authenticated (w : world) : world :=
  w |> set_connectionState "AUTHENTICATED"
    |> set_qrCodeData ""
    |> set_qrAttempts 0.

Definition on_auth_failure (w : world) : world :=
  w |> handleDisconnection |> setTimer (Reinitialize 5000).

(** The end of the ['ready'] handler, after [await fetchProfileInfo()]. *)
Definition start_connection_check (w : world) : world :=
  let w := match connectionCheckTimer w with
           | Some id => clearTimer id w
           | None => w
           end in
  w |> setTimer ConnectionCheck |> set_connectionCheckTimer (Some (nextId w)).

(** [user] is [client.info.wid.user], or [None] when reading it throws. *)
Definition on_ready (user : option string) (w : world) : world :=
  let w := w |> set_isLoggedIn true
             |> set_connectionState "CONNECTED"
             |> set_reconnectionAttempts 0
             |> set_lastActiveTimestamp (now w)
             |> set_qrAttempts 0 in
  match client w, user with
  | Some _, Some u =>
      let w := set_loggedInNumber u w in
      (* fetchProfileInfo *)
      if negb (is_some (client w)) || negb (isLoggedIn w)
      then start_connection_check w
      else suspend AwaitContact w
  | _, _ => w        (* 'Could not get connected number' *)
  end.

Definition on_change_state (state : string) (w : world) : world :=
  let w := set_lastKnownState (Some state) w in
  if String.eqb state "DISCONNECTED" then handleDisconnection w else w.

Definition on_change_battery (w : world) : world :=
  set_lastActiveTimestamp (now w) w.

Definition checkActiveConnection (w : world) : world :=
  if negb (is_some (client w)) || negb (isLoggedIn w) then w
  else suspend AwaitCheckState w.

(** The body of the [setInterval] callback of [startMonitoring]. *)
Definition monitor (w : world) : world :=
  if negb (String.eqb (qrCodeData w) "") && negb (isLoggedIn w) && qrAutoRefresh w
     && (QR_MAX_AGE <? now w - qrGenerationTime w)%Z
  then
    w |> set_qrCodeData ""
      |> set_connectionState "QR_EXPIRED"
      |> await_destroyClient QrExpired
  else if isLoggedIn w then
    if is_some (client w) then suspend AwaitMonitorState w
    else w |> set_isLoggedIn false |> set_connectionState "DISCONNECTED"
  else if negb (is_some (client w)) && negb (isClientDestroying w)
          && negb (is_some (reconnectionTimer w))
  then
    let w := set_reconnectionAttempts (S (reconnectionAttempts w)) w in
    let w := if (MAX_RECONNECTION_ATTEMPTS <? reconnectionAttempts w)%nat
             then set_reconnectionAttempts 0 w else w in
    initializeWhatsAppClient w
  else w.

(** A timer fires. *)
Definition fire (t : timer) (w : world) : world :=
  match t with
  | ReconnectCallback =>
      let w := w |> set_reconnectionTimer None
                 |> set_reconnectionAttempts (S (reconnectionAttempts w)) in
      let w := if (MAX_RECONNECTION_ATTEMPTS <? reconnectionAttempts w)%nat
               then set_reconnectionAttempts 0 w else w in
      initializeWhatsAppClient w
  | InitRetryCallback =>
      w |> set_reconnectionTimer None |> initializeWhatsAppClient
  | Reinitialize _ => initializeWhatsAppClient w
  | MonitorTick => monitor w
  | ConnectionCheck => checkActiveConnection w
  end.

(** ** Connection supervisor: the HTTP routes *)

Definition get_ping (w : world) : world :=
  if negb (isLoggedIn w) || negb (is_some (client w)) then
    respond (Response "/ping" 200 false (connectionState w) "WhatsApp not connected") w
  else suspend AwaitPingState w.

Definition post_generate_qr (w : world) : world :=
  if isLoggedIn w then
    respond (Response "/generate-qr" 200 false ""
                      "Cannot generate QR code while logged in") w
  else await_destroyClient GenerateQr w.

Definition post_toggle_qr_auto_refresh (w : world) : world :=
  let w := set_qrAutoRefresh (negb (qrAutoRefresh w)) w in
  respond (Response "/toggle-qr-auto-refresh" 200 true ""
            (if qrAutoRefresh w then "QR auto-refresh enabled"
             else "QR auto-refresh disabled")) w.

(** [res.json({server, whatsapp: {connected, state, ..}})]: the response
    keeps [connected] and [state]. *)
Definition status_response (state : string) (w : world) : world :=
  respond (Response "/status" 200 (isLoggedIn w) state "") w.

Definition get_status (w : world) : world :=
  let state := connectionState w in
  if isLoggedIn w && is_some (client w) then suspend (AwaitStatusState state) w
  else status_response state w.

(** The three [if (timer) { clear..; timer = null }] blocks of
    [/reset] and [/logout]. *)
Definition clear_timers (w : world) : world :=
  let w := match monitoringTimer w with
           | Some id => w |> clearTimer id |> set_monitoringTimer None
           | None => w
           end in
  let w := match connectionCheckTimer w with
           | Some id => w |> clearTimer id |> set_connectionCheckTimer None
           | None => w
           end in
  match reconnectionTimer w with
  | Some id => w |> clearTimer id |> set_reconnectionTimer None
  | None => w
  end.

Definition post_reset (w : world) : world :=
  w |> clear_timers |> await_destroyClient Reset.

(** [/logout] after the best-effort [client.logout()]. *)
Definition logout_rest (k : after_destroy) (w : world) : world :=
  w |> clear_timers |> await_destroyClient k.

Definition post_logout (k : after_destroy) (w : world) : world :=
  if isLoggedIn w && is_some (client w) then suspend (AwaitLogout k) w
  else logout_rest k w.

Inductive route :=
| GET_ping
| POST_generate_qr
| POST_toggle_qr_auto_refresh
| GET_status
| POST_reset
| POST_logout.

Definition route_eqb (a b : route) : bool :=
  match a, b with
  | GET_ping, GET_ping
  | POST_generate_qr, POST_generate_qr
  | POST_toggle_qr_auto_refresh, POST_toggle_qr_auto_refresh
  | GET_status, GET_status
  | POST_reset, POST_reset
  | POST_logout, POST_logout => true
  | _, _ => false
  end.

(** The supervisor's routes in the order of their registration;
    [/logout] is registered twice. *)
Definition routes : list (route * (world -> world)) :=
  [ (GET_ping, get_ping);
    (POST_generate_qr, post_generate_qr);
    (POST_toggle_qr_auto_refresh, post_toggle_qr_auto_refresh);
    (GET_status, get_status);
    (POST_reset, post_reset);
    (POST_logout, post_logout Logout);
    (POST_logout, post_logout LoggedOut) ].

(** Express runs the first handler that matches; none of the handlers
    calls [next()]. *)
Definition dispatch (r : route) (w : world) : world :=
  match List.find (fun h => route_eqb h.1 r) routes with
  | Some h => h.2 w
  | None => w
  end.

(** The precondition of the bulk routes. *)
Definition connected (w : world) : bool :=
  isLoggedIn w && is_some (client w).

(** ** Connection supervisor: the event loop *)

(** The events of the session provider. *)
Inductive provider_event :=
| Qr (qr : string)
| Authenticated
| AuthFailure
| Ready (user : option string)
| Disconnected
| ChangeState (state : string)
| ChangeBattery.

Definition on_event (e : provider_event) (w : world) : world :=
  match e with
  | Qr qr => on_qr qr w
  | Authenticated => on_authenticated w
  | AuthFailure => on_auth_failure w
  | Ready user => on_ready user w
  | Disconnected => handleDisconnection w
  | ChangeState state => on_change_state state w
  | ChangeBattery => on_change_battery w
  end.

(** A suspended handler goes on when its promise settles; [None] when
    the reply is not one the awaited call can give. *)
Definition resume (k : task) (r : reply) (w : world) : option world :=
  match k, r with
  | AwaitDestroy k, (Fulfilled | Rejected _) =>
      Some (w |> destroyClient_finally |> after k)
  | AwaitInitialize, Fulfilled => Some w
  | AwaitInitialize, Rejected _ => Some (initialize_failed w)
  | AwaitDataURL, FulfilledWith url =>
      Some (w |> set_qrCodeData url
              |> set_qrGenerationTime (now w)
              |> set_connectionState "QR_READY"
              |> qr_tail)
  | AwaitDataURL, Rejected _ =>
      Some (w |> set_qrCodeData ""
              |> set_connectionState "QR_ERROR"
              |> qr_tail)
  | AwaitCheckState, FulfilledWith state =>
      let w := w |> set_lastKnownState (Some state)
                 |> set_lastActiveTimestamp (now w) in
      Some (if String.eqb state "CONNECTED" then set_connectionState "CONNECTED" w
            else if String.eqb state "DISCONNECTED" then handleDisconnection w
            else set_connectionState state w)
  | AwaitCheckState, Rejected _ =>
      (* If no successful check in last 30 seconds *)
      Some (if (30000 <? now w - lastActiveTimestamp w)%Z
            then handleDisconnection w else w)
  | AwaitMonitorState, FulfilledWith state =>
      Some (w |> set_lastKnownState (Some state)
              |> set_lastActiveTimestamp (now w))
  | AwaitMonitorState, Rejected _ =>
      Some (if (30000 <? now w - lastActiveTimestamp w)%Z
            then handleDisconnection w else w)
  | AwaitContact, FulfilledContact name pushname =>
      let w := set_loggedInName (or_else name (or_else pushname "WhatsApp User")) w in
      Some (match client w with
            | Some _ => suspend AwaitProfilePic w
            | None => w |> set_profilePictureUrl "" |> start_connection_check
            end)
  | AwaitContact, Rejected _ =>
      Some (w |> set_loggedInName "WhatsApp User"
              |> set_profilePictureUrl ""
              |> start_connection_check)
  | AwaitProfilePic, FulfilledWith url =>
      Some (w |> set_profilePictureUrl url |> start_connection_check)
  | AwaitProfilePic, Rejected _ =>
      Some (w |> set_profilePictureUrl "" |> start_connection_check)
  | AwaitPingState, FulfilledWith state =>
      Some (w |> set_lastKnownState (Some state)
              |> set_lastActiveTimestamp (now w)
              |> respond (Response "/ping" 200 true state "Connection active"))
  | AwaitPingState, Rejected error_message =>
      Some (respond (Response "/ping" 200 false "ERROR"
                      ("Failed to check state: " +:+ error_message)) w)
  | AwaitStatusState _, FulfilledWith state =>
      Some (w |> set_lastKnownState (Some state)
              |> set_lastActiveTimestamp (now w)
              |> status_response state)
  | AwaitStatusState state, Rejected _ => Some (status_response state w)
  | AwaitLogout k, (Fulfilled | Rejected _) => Some (logout_rest k w)
  | _, _ => None
  end.

Inductive event :=
| Boot                              (* the top level of the module *)
| Emit (e : provider_event)         (* the client emits an event *)
| Fire (id : nat)                   (* a pending timer fires *)
| Settle (id : nat) (r : reply)     (* an awaited promise settles *)
| Request (r : route).              (* an HTTP request arrives *)

(** One turn of the event loop, at time [te.1]. *)
Definition step (w : world) (te : Z * event) : world :=
  let w := set_now te.1 w in
  match te.2 with
  | Boot => w |> initializeWhatsAppClient |> startMonitoring
  | Emit e => on_event e w
  | Fire id =>
      match timers w !! id with
      | Some t => fire t (if is_interval t then w else clearTimer id w)
      | None => w
      end
  | Settle id r =>
      match tasks w !! id with
      | Some k =>
          match resume k r (set_tasks (delete id (tasks w)) w) with
          | Some w' => w'
          | None => w
          end
      | None => w
      end
  | Request r => dispatch r w
  end.

Definition run_from (w : world) (evs : list (Z * event)) : world :=
  fold_left step evs w.

Definition run (evs : list (Z * event)) : world := run_from initial_world evs.

(** ** Observations on the supervisor *)

(** The timers that are kept in the [reconnectionTimer] handle. *)
Definition is_reconnection (t : timer) : bool :=
  match t with
  | ReconnectCallback | InitRetryCallback => true
  | _ => false
  end.

Definition pending_reconnections (w : world) : nat :=
  size (filter (fun kt => is_reconnection kt.2 = true) (timers w)).

(** All the timers whose callback calls [initializeWhatsAppClient]:
    those kept in [reconnectionTimer] and the bare [setTimeout]s of the
    other handlers. *)
Definition is_restart (t : timer) : bool :=
  match t with
  | ReconnectCallback | InitRetryCallback | Reinitialize _ => true
  | MonitorTick | ConnectionCheck => false
  end.

Definition pending_restarts (w : world) : nat :=
  size (filter (fun kt => is_restart kt.2 = true) (timers w)).

(** The nine connection states of the specification. *)
Definition enumerated_states : list string :=
  [ "INITIALIZING"; "PAIRING_READY"; "PAIRING_EXPIRED"; "AUTHENTICATED";
    "CONNECTED"; "DISCONNECTED"; "RESETTING"; "LOGGED_OUT"; "ERROR" ].

(** The string literals that the code assigns to [connectionState]. *)
Definition assigned_states : list string :=
  [ "INITIALIZING"; "QR_READY"; "QR_ERROR"; "QR_EXPIRED"; "GENERATING_QR";
    "AUTHENTICATED"; "CONNECTED"; "DISCONNECTED"; "RESETTING"; "LOGGED_OUT" ].

(** The values that settled promises resolved to. *)
Definition reported (evs : list (Z * event)) : list string :=
  omap (fun te => match te.2 with
                  | Settle _ (FulfilledWith s) => Some s
                  | _ => None
                  end) evs.

(** The state that [client.getState()] returns to
    [checkActiveConnection] when the event [te] arrives in [w]: the
    promise that settles is the one the connection check awaits. *)
Definition check_reply (w : world) (te : Z * event) : list string :=
  match te.2 with
  | Settle id (FulfilledWith s) =>
      match tasks w !! id with
      | Some AwaitCheckState => [s]
      | _ => []
      end
  | _ => []
  end.

(** The states returned to the connection checks of the run of [evs]
    from [w]. *)
Fixpoint check_replies (w : world) (evs : list (Z * event)) : list string :=
  match evs with
  | [] => []
  | te :: evs' => check_reply w te ++ check_replies (step w te) evs'
  end.

(** How many [new Client()] a stretch of events ran. *)
Definition created_between (w w' : world) : nat :=
  clientsCreated w' - clientsCreated w.

(** The messages a trace is about, in order. *)
Definition items (t : list action) : list nat := omap item_of t.

(** [m] only adds actions about message [i] (and pauses) to the trace,
    whether it returns or throws. *)
Definition emits_about {A} (i : nat) (m : D A) : Prop :=
  forall st, exists ext,
    trace (m st).2 = trace st ++ ext /\ Forall (fun j => j = i) (items ext).

(** Messages counted so far. *)
Definition counted (st : dstate) : nat := successCount st + failCount st.

(** From [st], [m] ends with [r] (a value, or [None] for a thrown
    error), having settled the messages from [start] up to [k] once each
    and in order, and having done nothing about the messages from [k]
    on. *)
Definition runs_up_to {A} (r : option A) (start k : nat) (m : D A) (st : dstate)
  : Prop :=
  exists st' ext,
    m st = (r, st') /\
    trace st' = trace st ++ ext /\
    terminals ext = seq start (k - start) /\
    counted st' = counted st + (k - start) /\
    Forall (fun j => j < k) (items ext).

(** [m] returns, adds one to the two counters together, and shows [x] as
    its only observation under [obs]. *)
Definition settles_as {A X} (obs : action -> option X) (x : X) (m : D A) : Prop :=
  forall st, exists a st' ext,
    m st = (Some a, st') /\
    trace st' = trace st ++ ext /\
    omap obs ext = [x] /\
    counted st' = S (counted st).

(** What a batched loop is expected to show: the messages of each
    batch in order, and [pause] after every batch but the last. *)
Fixpoint expected {X} (x : nat -> X) (pause : list X)
    (fuel start stop step : nat) : list X :=
  match fuel with
  | O => []
  | S fuel' =>
      if (start <? stop)%nat then
        let batchEnd := Nat.min (start + step) stop in
        (x <$> seq start (batchEnd - start))
          ++ (if (batchEnd <? stop)%nat then pause else [])
          ++ expected x pause fuel' (start + step) stop step
      else []
  end.

Definition expected_milestones (n step : nat) : list milestone :=
  expected Done [Pause] n 0 n step.

(** The same, provided [m] returns. *)
Definition settles_if {A X} (obs : action -> option X) (x : X) (m : D A) : Prop :=
  forall st a st', m st = (Some a, st') ->
    exists ext,
      trace st' = trace st ++ ext /\
      omap obs ext = [x] /\
      counted st' = S (counted st).

(** The messages of [t] come in index order and all lie below [k]. *)
Definition sorted_below (k : nat) (t : list action) : Prop :=
  StronglySorted le (items t) /\ Forall (fun j => j < k) (items t).

(** An observation that only sees terminal outcomes and pauses. *)
Definition quiet {X} (obs : action -> option X) : Prop :=
  forall a, is_Some (obs a) -> is_Some (terminal a) \/ exists ms, a = Sleep ms.

(** The n-th encoder call gives nothing within [timeout] milliseconds. *)
Definition encoder_fails (env : oracle) (timeout : Z) (n : nat) : Prop :=
  match toBuffer_outcome env n with
  | Encoded ms _ => (timeout <= ms)%Z
  | EncoderError _ | EncoderHangs => True
  end.

(** The terminal outcome that follows a send with the given outcome, in
    the routes that accept any resolved value. *)
Definition outcome_of (i : nat) (o : send_outcome) : action :=
  match o with
  | SendThrows => Failed i
  | _ => Delivered i
  end.

(** ** Example environments and requests *)

(** Every send is acknowledged and every image is encoded in 10 ms. *)
Definition always_ok : oracle :=
  Oracle (fun _ => SendOk) (fun _ => Encoded 10 "png") (fun _ => 0%Z).

(** Sends are acknowledged but the encoder never answers. *)
Definition encoder_hangs : oracle :=
  Oracle (fun _ => SendOk) (fun _ => EncoderHangs) (fun _ => 0%Z).

Definition plain (n : string) : msg := Msg (JStr n) "hi" None.
Definition ticket (n : string) : msg := Msg (JStr n) "hi" (Some "ticket-1").

Definition job45 : list (option msg) := repeat (Some (plain "15551234567")) 45.

(** No send for message [i] has been made. *)
Definition never_sent (i : nat) (st : dstate) : Prop :=
  Forall (fun a => is_send i a = false) (trace st).

(** ** Invariants of the event loop *)

(** [f] keeps the invariant [I]. *)
Class Preserves (I : world -> Prop) (f : world -> world) : Prop :=
  preserves : forall w, I w -> I (f w).

(** The response carries HTTP status 200. *)
Definition ok_response (r : response) : Prop := res_code r = 200.

(** Every response sent so far carries status 200. *)
Definition all_200 (w : world) : Prop := Forall ok_response (responses w).

(** The connection state is a literal of the code or satisfies [P]. *)
Definition state_ok (P : string -> Prop) (w : world) : Prop :=
  connectionState w ∈ assigned_states \/ P (connectionState w).

(** The last attempt was at [t1], [c] clients have been created, and it
    is still less than [MIN_RECONNECT_INTERVAL] after [t1]. *)
Definition within_interval (t1 : Z) (c : nat) (w : world) : Prop :=
  lastConnectionAttempt w = t1 /\ clientsCreated w = c /\
  (now w - t1 < MIN_RECONNECT_INTERVAL)%Z.

(** The timer table agrees with the three handles: a pending
    reconnection callback is the one kept in [reconnectionTimer], and
    each handle that is set names a pending timer of its kind. *)
Definition timers_ok (tm : gmap nat timer) (n : nat) (r m c : option nat) : Prop :=
  (forall id t, tm !! id = Some t -> is_reconnection t = true -> r = Some id) /\
  (forall id, r = Some id -> exists t, tm !! id = Some t /\ is_reconnection t = true) /\
  (forall id, m = Some id -> tm !! id = Some MonitorTick) /\
  (forall id, c = Some id -> tm !! id = Some ConnectionCheck) /\
  (forall id, n <= id -> tm !! id = None).

(** The same, read off a state of the server. *)
Definition timers_inv (w : world) : Prop :=
  timers_ok (timers w) (nextId w) (reconnectionTimer w) (monitoringTimer w)
            (connectionCheckTimer w).

(** ** Example runs of the supervisor *)

Definition t0 : Z := 1700000000000.

(** The server has started and [/reset] has just been requested: the
    teardown is waiting for [client.destroy()]. *)
Definition tearing_down : world :=
  run [ (t0, Boot); (t0 + 1000, Request POST_reset) ]%Z.

(** The session became ready and the first connection check succeeded. *)
Definition checked : world :=
  run [ (t0, Boot);
        (t0 + 2000, Emit (Ready (Some "15551234567")));
        (t0 + 2100, Settle 2 (FulfilledContact "" "Misbah"));
        (t0 + 2200, Settle 3 (FulfilledWith ""));
        (t0 + 17200, Fire 4);
        (t0 + 17300, Settle 5 (FulfilledWith "CONNECTED")) ]%Z.

(** The provider answers a connection check with a state of its own. *)
Definition opening_events : list (Z * event) :=
  [ (t0, Boot);
    (t0 + 2000, Emit (Ready (Some "15551234567")));
    (t0 + 2100, Settle 2 (FulfilledContact "" "Misbah"));
    (t0 + 2200, Settle 3 (FulfilledWith ""));
    (t0 + 17200, Fire 4);
    (t0 + 17300, Settle 5 (FulfilledWith "OPENING")) ]%Z.

(** The provider sends six empty QR codes in a row: the sixth makes the
    ['qr'] handler tear the client down and arm a restart, which fires
    3 seconds later, less than 30 seconds after the server started. *)
Definition burst_events : list (Z * event) :=
  [ (t0, Boot);
    (t0 + 1000, Emit (Qr "")); (t0 + 1100, Emit (Qr ""));
    (t0 + 1200, Emit (Qr "")); (t0 + 1300, Emit (Qr ""));
    (t0 + 1400, Emit (Qr "")); (t0 + 1500, Emit (Qr ""));
    (t0 + 1600, Settle 2 Fulfilled);
    (t0 + 4600, Fire 3) ]%Z.

(** Authentication fails three times in a row. *)
Definition auth_failure_events : list (Z * event) :=
  [ (t0, Boot);
    (t0 + 1000, Emit AuthFailure);
    (t0 + 1100, Emit AuthFailure);
    (t0 + 1200, Emit AuthFailure) ]%Z.

(** An established session drops after 40 seconds and the reconnection
    timer fires 5 seconds later. *)
Definition dropped_events : list (Z * event) :=
  [ (t0, Boot);
    (t0 + 2000, Emit (Ready (Some "15551234567")));
    (t0 + 2100, Settle 2 (FulfilledContact "" "Misbah"));
    (t0 + 2200, Settle 3 (FulfilledWith ""));
    (t0 + 40000, Emit Disconnected);
    (t0 + 45000, Fire 5) ]%Z.

(** ** Further observations on bulk dispatch *)

(** Every character of [s] is an ASCII digit. *)
Fixpoint all_digits (s : string) : bool :=
  match s with
  | EmptyString => true
  | String c t => is_digit c && all_digits t
  end.

(** [m] keeps the property [P] of every action of the trace, whether it
    returns or throws. *)
Definition emits_only {A} (P : action -> Prop) (m : D A) : Prop :=
  forall st, Forall P (trace st) -> Forall P (trace (m st).2).

(** A provider call is addressed to digits followed by the routing
    domain. *)
Definition well_addressed (a : action) : Prop :=
  match a with
  | SendMedia _ to _ | SendText _ to _ => match_number_pattern to = true
  | _ => True
  end.

(** The only action about message [i] is its count as failed. *)
Definition only_failed (i : nat) (a : action) : Prop :=
  item_of a = Some i -> a = Failed i.

(** What the promise of [/api/send-bulk] for message [i] does after its
    stagger delay, for a [number] that is a string: one send, and after a
    failure a pause of 700 ms and a second send. *)
Definition retried_once (outcome : nat -> nat -> send_outcome) (i : nat)
    (to body : string) : list action :=
  SendText i to body ::
  match outcome i 0 with
  | SendOk => [Delivered i]
  | _ => [Sleep 700; SendText i to body;
          match outcome i 1 with
          | SendOk => Delivered i
          | _ => Failed i
          end]
  end.

(** Message [i] has a string for a number and one of its two sends is
    acknowledged. *)
Definition acknowledged (outcome : nat -> nat -> send_outcome)
    (messages : list (option msg)) (i : nat) : Prop :=
  exists m n, messages !! i = Some (Some m) /\ number m = JStr n /\
              (outcome i 0 = SendOk \/ outcome i 1 = SendOk).

(** [m] adds at most [K] actions counted by [c] to the trace. *)
Definition adds_at_most {A} (c : list action -> nat) (K : nat) (m : D A) : Prop :=
  forall st, exists ext, trace (m st).2 = trace st ++ ext /\ c ext <= K.

(** Up to index [k] every message has cost at most [K] under [c], and
    the messages from [k] on have cost nothing yet. *)
Definition spent (c : nat -> list action -> nat) (K : nat) (k : nat) (st : dstate)
  : Prop :=
  forall i, c i (trace st) <= K /\ (k <= i -> c i (trace st) = 0).

(** Every encoder reply comes in time and the first two sends throw. *)
Definition two_sends_throw : oracle :=
  Oracle (fun n => if (n <? 2)%nat then SendThrows else SendOk)
         (fun _ => Encoded 10 "png") (fun _ => 0%Z).

(** The pauses of a trace, in milliseconds. *)
Definition pauses (t : list action) : list Z :=
  omap (fun a => match a with Sleep ms => Some ms | _ => None end) t.

(** ** Further observations on the supervisor *)

(** Nobody is logged in. *)
Definition logged_out (w : world) : Prop := isLoggedIn w = false.

(** The event is not a ['ready'] event of the provider. *)
Definition not_ready (te : Z * event) : Prop :=
  match te.2 with
  | Emit (Ready _) => False
  | _ => True
  end.

(** The event is a timer that fires. *)
Definition is_fire (te : Z * event) : Prop :=
  match te.2 with
  | Fire _ => True
  | _ => False
  end.

(** A client object exists, nobody is logged in, and the monitor has no
    stale QR code to refresh. *)
Definition idle_with_client (c : option nat) (state : string) (n : nat) (w : world)
  : Prop :=
  client w = c /\ is_some c = true /\ isLoggedIn w = false /\
  connectionState w = state /\ clientsCreated w = n /\
  (qrCodeData w = EmptyString \/ qrAutoRefresh w = false).

(** The attempt counter is within its maximum. *)
Definition attempts_ok (w : world) : Prop :=
  reconnectionAttempts w <= MAX_RECONNECTION_ATTEMPTS.

(** Every pending interval is the one its handle names, and handles are
    below [n]. *)
Definition intervals_ok (tm : gmap nat timer) (n : nat) (m c : option nat) : Prop :=
  (forall id, tm !! id = Some MonitorTick -> m = Some id) /\
  (forall id, tm !! id = Some ConnectionCheck -> c = Some id) /\
  (forall id, n <= id -> tm !! id = None).

Definition intervals_inv (w : world) : Prop :=
  intervals_ok (timers w) (nextId w) (monitoringTimer w) (connectionCheckTimer w).

(** The literals that the handlers in use assign to [connectionState]:
    all of [assigned_states] but LOGGED_OUT. *)
Definition live_states : list string :=
  [ "INITIALIZING"; "QR_READY"; "QR_ERROR"; "QR_EXPIRED"; "GENERATING_QR";
    "AUTHENTICATED"; "CONNECTED"; "DISCONNECTED"; "RESETTING" ].

(** The text that the first [/logout] handler and [/reset] send. *)
Definition reset_text : string :=
  "✅ WhatsApp session reset. QR code will be generated shortly.".

(** The continuation is not one of the second [/logout] handler. *)
Definition of_first_logout (k : task) : Prop :=
  k <> AwaitDestroy LoggedOut /\ k <> AwaitLogout LoggedOut.

(** Nothing of the second [/logout] handler has happened: no state of
    its own (up to what the provider reports, [P]), no suspended
    continuation, no response. *)
Definition first_logout_only (P : string -> Prop) (w : world) : Prop :=
  (connectionState w ∈ live_states \/ P (connectionState w)) /\
  (forall id k, tasks w !! id = Some k -> of_first_logout k) /\
  Forall (fun r => res_path r = "/logout" -> res_message r = reset_text) (responses w).

(** The flag [qrAutoRefresh] has the value [b]. *)
Definition refresh_is (b : bool) (w : world) : Prop := qrAutoRefresh w = b.

(** The event is a request to [/toggle-qr-auto-refresh]. *)
Definition is_toggle (te : Z * event) : bool :=
  match te.2 with
  | Request POST_toggle_qr_auto_refresh => true
  | _ => false
  end.

(** How many such requests a run has seen. *)
Definition toggles (evs : list (Z * event)) : nat :=
  length (filter (fun te => is_toggle te = true) evs).

(** ** The log *)

(** [n.toString()] for a natural number: its decimal digits.  [fuel]
    bounds the number of digits; [S n] is enough for [n]. *)
Fixpoint digits (fuel n : nat) (acc : string) : string :=
  match fuel with
  | O => acc
  | S fuel' =>
      let acc' := String (ascii_of_nat (48 + n mod 10)) acc in
      if (n / 10 =? 0)%nat then acc' else digits fuel' (n / 10) acc'
  end.

Definition toString (n : nat) : string := digits (S n) n EmptyString.

(** [s.padStart(2, '0')] *)
Definition padStart2 (s : string) : string :=
  match String.length s with
  | 0 => "00"
  | 1 => "0" +:+ s
  | _ => s
  end.

(** [hours >= 12 ? 'PM' : 'AM'] *)
Definition ampm (hours : nat) : string :=
  if (12 <=? hours)%nat then "PM" else "AM".

(** [hours % 12 || 12] *)
Definition hours12 (hours : nat) : nat :=
  if (hours mod 12 =? 0)%nat then 12 else hours mod 12.

(** The time stamp of [log], from the fields of [new Date()]: the full
    year, [getMonth()] (which counts from 0), the day of the month, and
    the hours, minutes and seconds. *)
Definition timestamp (year month date hours minutes seconds : nat) : string :=
  toString year +:+ "-" +:+ padStart2 (toString (month + 1)) +:+ "-"
    +:+ padStart2 (toString date) +:+ " "
    +:+ toString (hours12 hours) +:+ ":" +:+ padStart2 (toString minutes) +:+ ":"
    +:+ padStart2 (toString seconds) +:+ " " +:+ ampm hours.

(** The line that [log(message)] writes to the console. *)
Definition log (year month date hours minutes seconds : nat) (message : string)
  : string :=
  "[" +:+ timestamp year month date hours minutes seconds +:+ "] " +:+ message.

(** The server has just started: a client exists and shows no session
    yet. *)
Definition booted : world := run [ (t0, Boot) ]%Z.

(** The session of [checked], a connection check away. *)
Definition in_session : world := set_now (t0 + 20000) checked.

(** * Proofs *)

Ltac unfold_D :=
  unfold deliver, generateQRCode, sendMessage, succeed, fail, sleep, emit,
    try_catch, throw, random, item, as_string, mbind, mret, D_bind, D_ret in *.

Ltac case_outcomes :=
  repeat match goal with
    | |- context [sendMessage_outcome ?e ?n] => destruct (sendMessage_outcome e n) eqn:?; simpl
    | |- context [toBuffer_outcome ?e ?n] => destruct (toBuffer_outcome e n) eqn:?; simpl
    | |- context [if ?b then _ else _] => destruct b eqn:?; simpl
    end.

Ltac trace_ext :=
  simpl; rewrite <- ?app_assoc; simpl;
  try (eexists; split; [reflexivity | ]).

Section emits.
Context {A B : Type} (i : nat).

Lemma emits_ret (a : A) : emits_about i (mret a : D A).
Proof. intros st. exists []. simpl. rewrite app_nil_r. split; [done | constructor]. Qed.

Lemma emits_throw : emits_about i (throw : D A).
Proof. intros st. exists []. simpl. rewrite app_nil_r. split; [done | constructor]. Qed.

Lemma emits_bind (m : D A) (f : A -> D B) :
  emits_about i m -> (forall a, emits_about i (f a)) -> emits_about i (m ≫= f).
Proof.
  intros Hm Hf st. destruct (Hm st) as (e1 & E1 & F1).
  unfold mbind, D_bind. destruct (m st) as [[a|] st1]; simpl in *.
  - destruct (Hf a st1) as (e2 & E2 & F2).
    exists (e1 ++ e2). rewrite E2, E1, app_assoc. split; [done |].
    unfold items in *. rewrite omap_app. by apply Forall_app.
  - by exists e1.
Qed.

Lemma emits_try (m h : D A) :
  emits_about i m -> emits_about i h -> emits_about i (try_catch m h).
Proof.
  intros Hm Hh st. destruct (Hm st) as (e1 & E1 & F1).
  unfold try_catch. destruct (m st) as [[a|] st1]; simpl in *.
  - by exists e1.
  - destruct (Hh st1) as (e2 & E2 & F2).
    exists (e1 ++ e2). rewrite E2, E1, app_assoc. split; [done |].
    unfold items in *. rewrite omap_app. by apply Forall_app.
Qed.

End emits.

Lemma emits_sleep i ms : emits_about i (sleep ms).
Proof. intros st. exists [Sleep ms]. simpl. split; [done | constructor]. Qed.

Lemma emits_succeed i : emits_about i (succeed i).
Proof. intros st. exists [Delivered i]. simpl. split; [done | by repeat constructor]. Qed.

Lemma emits_fail i : emits_about i (fail i).
Proof. intros st. exists [Failed i]. simpl. split; [done | by repeat constructor]. Qed.

Lemma emits_sendMessage env i a :
  item_of a = Some i -> emits_about i (sendMessage env a).
Proof.
  intros Ha st. exists [a]. unfold sendMessage.
  destruct (sendMessage_outcome env (sends st)); simpl;
    (split; [done | unfold items; simpl; rewrite Ha; by repeat constructor]).
Qed.

Lemma emits_random env i : emits_about i (random env).
Proof. intros st. exists []. simpl. rewrite app_nil_r. split; [done | constructor]. Qed.

Lemma emits_generateQRCode env timeout i q : emits_about i (generateQRCode env timeout i q).
Proof.
  intros st. unfold generateQRCode. destruct (negb (truthy q)).
  - apply emits_ret.
  - exists [Encode i].
    destruct (toBuffer_outcome env (encodes st)); simpl; try destruct (_ <? _)%Z; simpl;
      (split; [done | by repeat constructor]).
Qed.

Lemma emits_as_string i n : emits_about i (as_string n).
Proof. destruct n; [apply emits_ret | apply emits_throw]. Qed.

Lemma emits_item i messages j : emits_about i (item messages j).
Proof.
  unfold item. destruct (messages !! j) as [[m|]|];
    [apply emits_ret | apply emits_throw | apply emits_throw].
Qed.

Create HintDb emits.
#[export] Hint Resolve emits_ret emits_throw emits_sleep emits_succeed emits_fail
  emits_sendMessage emits_random emits_generateQRCode emits_as_string emits_item : emits.

Ltac emits :=
  repeat first
    [ progress intros
    | progress cbv zeta
    | apply emits_bind
    | apply emits_try
    | match goal with
      | |- emits_about _ (if ?b then _ else _) => destruct b
      | |- emits_about _ (match ?x with _ => _ end) => destruct x
      end
    | solve [eauto with emits] ].

Lemma emits_deliver env timeout i m f : emits_about i (deliver env timeout i m f).
Proof. unfold deliver. emits. Qed.

Lemma emits_v1_body env messages i : emits_about i (SendMessagesV1.body env messages i).
Proof. unfold SendMessagesV1.body. emits. Qed.

Lemma emits_batched_body env messages batchEnd i :
  emits_about i (SendMessages.body env messages batchEnd i).
Proof. unfold SendMessages.body. emits. Qed.

(** ** Sequential loops emit in index order *)

Lemma sorted_below_step {A} i (m : D A) st :
  emits_about i m -> sorted_below i (trace st) ->
  sorted_below (S i) (trace (m st).2).
Proof.
  intros Hm [Hs Hb]. destruct (Hm st) as (ext & -> & Hext).
  unfold sorted_below, items in *. rewrite omap_app. split.
  - apply StronglySorted_app_2.
    + intros x1 x2 H1 H2. rewrite Forall_forall in Hb, Hext.
      specialize (Hb _ H1). specialize (Hext _ H2). lia.
    + done.
    + clear -Hext. induction Hext; constructor; [done |].
      subst. eapply Forall_impl; [exact Hext | intros; simpl in *; lia].
  - apply Forall_app. split.
    + eapply Forall_impl; [exact Hb | intros; simpl in *; lia].
    + eapply Forall_impl; [exact Hext | intros; simpl in *; lia].
Qed.

Lemma sorted_below_weaken k k' t : k <= k' -> sorted_below k t -> sorted_below k' t.
Proof.
  intros Hk [Hs Hb]. split; [done |].
  eapply Forall_impl; [exact Hb | intros; simpl in *; lia].
Qed.

Lemma sorted_below_sleep k ms st :
  sorted_below k (trace st) -> sorted_below k (trace (sleep ms st).2).
Proof.
  unfold sorted_below, items. simpl. rewrite omap_app. simpl. by rewrite app_nil_r.
Qed.

Lemma for_range_sorted body n : forall start st,
  (forall i, emits_about i (body i)) ->
  sorted_below start (trace st) ->
  sorted_below (start + n) (trace (for_range n start body st).2).
Proof.
  induction n as [|n IH]; intros start st Hbody Hst; simpl.
  - by rewrite Nat.add_0_r.
  - unfold mbind, D_bind.
    pose proof (sorted_below_step start (body start) st (Hbody start) Hst) as H1.
    destruct (body start st) as [[[]|] st1]; simpl in *.
    + replace (start + S n) with (S start + n) by lia. by apply IH.
    + eapply sorted_below_weaken; [| exact H1]. lia.
Qed.

Lemma for_step_sorted body step fuel : forall start stop st,
  (forall b st, b < stop -> sorted_below b (trace st) ->
     sorted_below (b + step) (trace (body b st).2)) ->
  sorted_below start (trace st) ->
  exists k, sorted_below k (trace (for_step fuel start stop step body st).2).
Proof.
  induction fuel as [|fuel IH]; intros start stop st Hbody Hst; simpl.
  - by exists start.
  - destruct (start <? stop)%nat eqn:Hlt; [| by exists start].
    apply Nat.ltb_lt in Hlt. unfold mbind, D_bind.
    pose proof (Hbody start st Hlt Hst) as H1.
    destruct (body start st) as [[[]|] st1]; simpl in *.
    + by apply IH.
    + by exists (start + step).
Qed.

Lemma sorted_batch_numbers B t :
  StronglySorted le ((fun i => i / B) <$> items t) -> batches_in_order B t.
Proof.
  intros Hs l1 a l2 b l3 i j -> Ha Hb.
  unfold items in Hs. rewrite omap_app in Hs. simpl in Hs. rewrite Ha in Hs.
  rewrite fmap_app in Hs. apply StronglySorted_app_1_r in Hs. rewrite fmap_cons in Hs.
  apply StronglySorted_cons in Hs as [Hall _].
  rewrite omap_app in Hall. simpl in Hall. rewrite Hb in Hall.
  rewrite fmap_app, fmap_cons in Hall.
  apply Forall_app in Hall as [_ Hall]. by apply Forall_cons in Hall as [Hij _].
Qed.

Lemma sorted_batches B t :
  StronglySorted le (items t) -> batches_in_order B t.
Proof.
  intros Hs. apply sorted_batch_numbers.
  eapply StronglySorted_fmap; [| exact Hs].
  intros i j Hij. destruct B; [done |]. by apply Nat.Div0.div_le_mono.
Qed.

Lemma batched_batch_sorted env messages b st :
  sorted_below b (trace st) ->
  sorted_below (b + SendMessages.BATCH_SIZE)
    (trace (SendMessages.batch env messages b st).2).
Proof.
  intros Hst. unfold SendMessages.batch.
  set (batchEnd := Nat.min _ _).
  pose proof (for_range_sorted (SendMessages.body env messages batchEnd)
                (batchEnd - b) b st
                (emits_batched_body env messages batchEnd) Hst) as H1.
  unfold mbind, D_bind.
  destruct (for_range _ _ _ st) as [[[]|] st1]; simpl in *.
  - assert (sorted_below (b + SendMessages.BATCH_SIZE) (trace st1)) as H2.
    { eapply sorted_below_weaken; [| exact H1]. subst batchEnd. lia. }
    destruct (_ <? _)%nat; [by apply sorted_below_sleep | done].
  - eapply sorted_below_weaken; [| exact H1]. subst batchEnd. lia.
Qed.

Lemma batched_loop_in_order env messages :
  batches_in_order SendMessages.BATCH_SIZE
    (trace (SendMessages.loop env messages dstate0).2).
Proof.
  apply sorted_batches.
  destruct (for_step_sorted (SendMessages.batch env messages) SendMessages.BATCH_SIZE
              (length messages) 0 (length messages) dstate0) as [k [Hk _]].
  - intros b st _. apply batched_batch_sorted.
  - split; constructor.
  - exact Hk.
Qed.

(** ** Every message is settled once *)

Ltac settle :=
  eexists _, _, _; split; [reflexivity |];
  split; [simpl; rewrite <- ?app_assoc; reflexivity |];
  split; [reflexivity | unfold counted; simpl; lia].

Lemma quiet_none {X} (obs : action -> option X) a :
  quiet obs -> terminal a = None -> (forall ms, a <> Sleep ms) -> obs a = None.
Proof.
  intros Hq Ht Hs. destruct (obs a) eqn:E; [| done].
  destruct (Hq a) as [[? H] | [ms ->]]; [by rewrite E | congruence | by destruct (Hs ms)].
Qed.

Lemma deliver_settles {X} (obs : action -> option X) (x : X) env timeout i m f :
  quiet obs -> obs (Delivered i) = Some x -> obs (Failed i) = Some x ->
  settles_as obs x (deliver env timeout i m f).
Proof.
  intros Hq Hd Hf st.
  assert (forall a b c, obs (SendMedia a b c) = None) as Hm
    by (intros; by apply quiet_none).
  assert (forall a b c, obs (SendText a b c) = None) as Ht
    by (intros; by apply quiet_none).
  assert (forall a, obs (Encode a) = None) as He
    by (intros; by apply quiet_none).
  unfold_D. destruct (truthy (qrData m)); simpl; case_outcomes;
    (eexists _, _, _; split; [reflexivity |];
     split; [simpl; rewrite <- ?app_assoc; reflexivity |];
     split; [simpl; rewrite ?Hm, ?Ht, ?He, ?Hd, ?Hf; reflexivity | unfold counted; simpl; lia]).
Qed.

Lemma quiet_terminal : quiet terminal.
Proof. intros a H. by left. Qed.

Lemma quiet_milestone delay : quiet (milestone_of delay).
Proof. intros [] [? H]; simpl in *; try done; eauto. Qed.

Section loops.
Context {X : Type} (obs : action -> option X) (x : nat -> X).

Lemma for_range_total body n : forall start st,
  (forall i, start <= i < start + n -> settles_as obs (x i) (body i)) ->
  exists st' ext,
    for_range n start body st = (Some tt, st') /\
    trace st' = trace st ++ ext /\
    omap obs ext = x <$> seq start n /\
    counted st' = counted st + n.
Proof.
  induction n as [|n IH]; intros start st Hbody; simpl.
  - exists st, []. rewrite app_nil_r. repeat split; lia.
  - destruct (Hbody start ltac:(lia) st) as ([] & st1 & e1 & E1 & T1 & O1 & C1).
    destruct (IH (S start) st1) as (st2 & e2 & E2 & T2 & O2 & C2).
    { intros i Hi. apply Hbody. lia. }
    exists st2, (e1 ++ e2). unfold mbind, D_bind. rewrite E1, E2, T2, T1.
    rewrite omap_app, O1, O2, app_assoc. repeat split; lia.
Qed.

Lemma for_step_total (pause : list X) body step stop :
  0 < step ->
  (forall b st, b < stop ->
     let batchEnd := Nat.min (b + step) stop in
     exists st' ext,
       body b st = (Some tt, st') /\
       trace st' = trace st ++ ext /\
       omap obs ext = (x <$> seq b (batchEnd - b))
                        ++ (if (batchEnd <? stop)%nat then pause else []) /\
       counted st' = counted st + (batchEnd - b)) ->
  forall fuel start st, stop - start <= fuel ->
  exists st' ext,
    for_step fuel start stop step body st = (Some tt, st') /\
    trace st' = trace st ++ ext /\
    omap obs ext = expected x pause fuel start stop step /\
    counted st' = counted st + (stop - start).
Proof.
  intros Hstep Hbody. induction fuel as [|fuel IH]; intros start st Hfuel; simpl.
  - exists st, []. rewrite app_nil_r. repeat split; lia.
  - destruct (start <? stop)%nat eqn:Hlt.
    + apply Nat.ltb_lt in Hlt.
      destruct (Hbody start st Hlt) as (st1 & e1 & E1 & T1 & O1 & C1).
      destruct (IH (start + step) st1 ltac:(lia)) as (st2 & e2 & E2 & T2 & O2 & C2).
      exists st2, (e1 ++ e2). unfold mbind, D_bind. rewrite E1, E2, T2, T1.
      rewrite omap_app, O1, O2, !app_assoc. repeat split; lia.
    + apply Nat.ltb_ge in Hlt.
      exists st, []. rewrite app_nil_r. repeat split; lia.
Qed.

End loops.

Lemma expected_no_pause step stop : 0 < step ->
  forall fuel start, stop - start <= fuel ->
  expected id [] fuel start stop step = seq start (stop - start).
Proof.
  intros Hstep. induction fuel as [|fuel IH]; intros start Hfuel; simpl.
  - by replace (stop - start) with 0 by lia.
  - destruct (start <? stop)%nat eqn:Hlt.
    + apply Nat.ltb_lt in Hlt. rewrite IH by lia. rewrite list_fmap_id.
      destruct (_ <? _)%nat eqn:He; simpl.
      * apply Nat.ltb_lt in He.
        replace ((start + step) `min` stop - start) with step by lia.
        rewrite <- seq_app. f_equal. lia.
      * apply Nat.ltb_ge in He.
        replace (stop - (start + step)) with 0 by lia. simpl.
        rewrite app_nil_r. f_equal. lia.
    + apply Nat.ltb_ge in Hlt. by replace (stop - start) with 0 by lia.
Qed.

(** More fuel than [stop - start] changes nothing. *)
Lemma for_step_fuel body step stop : 0 < step ->
  forall fuel fuel' start st,
    stop - start <= fuel -> stop - start <= fuel' ->
    for_step fuel start stop step body st = for_step fuel' start stop step body st.
Proof.
  intros Hstep. induction fuel as [|fuel IH]; intros fuel' start st H1 H2.
  - destruct fuel'; simpl; [done |].
    destruct (start <? stop)%nat eqn:Hlt; [apply Nat.ltb_lt in Hlt; lia | done].
  - destruct fuel'; simpl.
    + destruct (start <? stop)%nat eqn:Hlt; [apply Nat.ltb_lt in Hlt; lia | done].
    + destruct (start <? stop)%nat eqn:Hlt; [| done]. apply Nat.ltb_lt in Hlt.
      unfold mbind, D_bind. destruct (body start st) as [[[]|] st1]; [| done].
      apply IH; lia.
Qed.

(** Every element of a well-formed request is an object whose number
    is a string. *)
Lemma well_formed_lookup messages i :
  well_formed messages -> i < length messages ->
  exists m, messages !! i = Some (Some m) /\ is_string (number m).
Proof.
  intros Hwf Hi. destruct (lookup_lt_is_Some_2 messages i Hi) as [e He].
  unfold well_formed in Hwf. rewrite Forall_lookup in Hwf.
  specialize (Hwf i e He). destruct e as [m|]; [eauto | done].
Qed.

(** *** [/api/send-messages], [server.js] *)

Lemma v1_body_settles {X} (obs : action -> option X) (x : X) env messages i m :
  quiet obs -> obs (Delivered i) = Some x -> obs (Failed i) = Some x ->
  (forall ms, obs (Sleep ms) = None) ->
  messages !! i = Some (Some m) -> is_string (number m) ->
  settles_as obs x (SendMessagesV1.body env messages i).
Proof.
  intros Hq Hd Hf Hs Hm Hn st. unfold SendMessagesV1.body, item. rewrite Hm.
  cbv [mbind mret D_bind D_ret as_string].
  destruct (number m) as [n|]; [| done].
  destruct (deliver_settles obs x env 5000 i m (formatNumber n) Hq Hd Hf st)
    as ([] & st1 & e1 & E1 & T1 & O1 & C1).
  rewrite E1.
  destruct (i <? length messages - 1)%nat; simpl.
  - eexists tt, _, (e1 ++ [Sleep _]). split; [reflexivity |]. simpl.
    rewrite T1, app_assoc, omap_app, O1. simpl. rewrite Hs.
    repeat split; done.
  - exists tt, st1, e1. done.
Qed.

Lemma v1_loop_total env messages :
  well_formed messages ->
  exists st,
    SendMessagesV1.loop env messages dstate0 = (Some tt, st) /\
    terminals (trace st) = seq 0 (length messages) /\
    successCount st + failCount st = length messages.
Proof.
  intros Hwf.
  destruct (for_range_total terminal id (SendMessagesV1.body env messages)
              (length messages) 0 dstate0) as (st & ext & E & T & O & C).
  { intros i Hi. destruct (well_formed_lookup messages i Hwf ltac:(lia)) as (m & Hm & Hn).
    eapply v1_body_settles; eauto using quiet_terminal. }
  exists st. split; [exact E |]. simpl in T. rewrite T. unfold terminals.
  rewrite O, list_fmap_id. split; [done |]. unfold counted in C. simpl in C. lia.
Qed.

(** *** [/api/send-messages], batched *)

Lemma batched_body_settles {X} (obs : action -> option X) (x : X) env messages e i m :
  quiet obs -> obs (Delivered i) = Some x -> obs (Failed i) = Some x ->
  obs (Sleep SendMessages.MESSAGE_DELAY) = None ->
  messages !! i = Some (Some m) -> is_string (number m) ->
  settles_as obs x (SendMessages.body env messages e i).
Proof.
  intros Hq Hd Hf Hs Hm Hn st. unfold SendMessages.body, item. rewrite Hm.
  cbv [mbind mret D_bind D_ret as_string].
  destruct (number m) as [n|]; [| done].
  destruct (deliver_settles obs x env 8000 i m (formatNumber n) Hq Hd Hf st)
    as ([] & st1 & e1 & E1 & T1 & O1 & C1).
  rewrite E1.
  destruct (i <? e - 1)%nat; simpl.
  - eexists tt, _, (e1 ++ [Sleep _]). split; [reflexivity |]. simpl.
    rewrite T1, app_assoc, omap_app, O1. simpl. rewrite Hs.
    repeat split; done.
  - exists tt, st1, e1. done.
Qed.

Lemma batched_loop_total {X} (obs : action -> option X) (x : nat -> X) env messages :
  quiet obs ->
  (forall i, obs (Delivered i) = Some (x i)) ->
  (forall i, obs (Failed i) = Some (x i)) ->
  obs (Sleep SendMessages.MESSAGE_DELAY) = None ->
  well_formed messages ->
  exists st,
    SendMessages.loop env messages dstate0 = (Some tt, st) /\
    omap obs (trace st)
      = expected x (omap obs [Sleep SendMessages.BATCH_DELAY])
          (length messages) 0 (length messages) SendMessages.BATCH_SIZE /\
    successCount st + failCount st = length messages.
Proof.
  intros Hq Hd Hf Hs Hwf.
  destruct (for_step_total obs x (omap obs [Sleep SendMessages.BATCH_DELAY])
              (SendMessages.batch env messages) SendMessages.BATCH_SIZE (length messages)
              ltac:(unfold SendMessages.BATCH_SIZE; lia)) with
    (fuel := length messages) (start := 0) (st := dstate0)
    as (st & ext & E & T & O & C); [| lia |].
  - intros b st Hb batchEnd. unfold SendMessages.batch. fold batchEnd.
    destruct (for_range_total obs x (SendMessages.body env messages batchEnd)
                (batchEnd - b) b st) as (st1 & e1 & E1 & T1 & O1 & C1).
    { intros i Hi.
      destruct (well_formed_lookup messages i Hwf ltac:(lia)) as (m & Hm & Hn).
      eapply batched_body_settles; eauto. }
    unfold mbind, mret, D_bind, D_ret. rewrite E1.
    destruct (batchEnd <? length messages)%nat; simpl.
    + eexists _, (e1 ++ [Sleep _]). split; [reflexivity |]. simpl.
      rewrite T1, app_assoc, omap_app, O1. done.
    + exists st1, e1. rewrite app_nil_r. done.
  - exists st. split; [exact E |]. simpl in T. rewrite T, O.
    split; [done |]. unfold counted in C. simpl in C. lia.
Qed.

(** ** If the loop returns, every message was settled once *)

Lemma settles_as_if {A X} (obs : action -> option X) (x : X) (m : D A) :
  settles_as obs x m -> settles_if obs x m.
Proof.
  intros H st a st' E. destruct (H st) as (a' & st'' & ext & E' & T & O & C).
  rewrite E in E'. injection E' as <- <-. by exists ext.
Qed.

Section partial.
Context {X : Type} (obs : action -> option X) (x : nat -> X).

Lemma for_range_partial body n : forall start st st',
  (forall i, start <= i < start + n -> settles_if obs (x i) (body i)) ->
  for_range n start body st = (Some tt, st') ->
  exists ext,
    trace st' = trace st ++ ext /\
    omap obs ext = x <$> seq start n /\
    counted st' = counted st + n.
Proof.
  induction n as [|n IH]; intros start st st' Hbody E; simpl in E.
  - injection E as <-. exists []. rewrite app_nil_r. repeat split; lia.
  - unfold mbind, D_bind in E.
    destruct (body start st) as [[[]|] st1] eqn:E1; [| done].
    destruct (Hbody start ltac:(lia) st tt st1 E1) as (e1 & T1 & O1 & C1).
    destruct (IH (S start) st1 st') as (e2 & T2 & O2 & C2); [| done |].
    { intros i Hi. apply Hbody. lia. }
    exists (e1 ++ e2). rewrite T2, T1, omap_app, O1, O2, app_assoc.
    repeat split; lia.
Qed.

Lemma for_step_partial (pause : list X) body step stop :
  0 < step ->
  (forall b st st', b < stop ->
     let batchEnd := Nat.min (b + step) stop in
     body b st = (Some tt, st') ->
     exists ext,
       trace st' = trace st ++ ext /\
       omap obs ext = (x <$> seq b (batchEnd - b))
                        ++ (if (batchEnd <? stop)%nat then pause else []) /\
       counted st' = counted st + (batchEnd - b)) ->
  forall fuel start st st', stop - start <= fuel ->
  for_step fuel start stop step body st = (Some tt, st') ->
  exists ext,
    trace st' = trace st ++ ext /\
    omap obs ext = expected x pause fuel start stop step /\
    counted st' = counted st + (stop - start).
Proof.
  intros Hstep Hbody.
  induction fuel as [|fuel IH]; intros start st st' Hfuel E; simpl in *.
  - injection E as <-. exists []. rewrite app_nil_r. repeat split; lia.
  - destruct (start <? stop)%nat eqn:Hlt.
    + apply Nat.ltb_lt in Hlt. unfold mbind, D_bind in E.
      destruct (body start st) as [[[]|] st1] eqn:E1; [| done].
      destruct (Hbody start st st1 Hlt E1) as (e1 & T1 & O1 & C1).
      destruct (IH (start + step) st1 st' ltac:(lia) E) as (e2 & T2 & O2 & C2).
      exists (e1 ++ e2). rewrite T2, T1, omap_app, O1, O2, !app_assoc.
      repeat split; lia.
    + apply Nat.ltb_ge in Hlt. injection E as <-.
      exists []. rewrite app_nil_r. repeat split; lia.
Qed.

End partial.

Lemma v1_body_settles_if {X} (obs : action -> option X) (x : X) env messages i :
  quiet obs -> obs (Delivered i) = Some x -> obs (Failed i) = Some x ->
  (forall ms, obs (Sleep ms) = None) ->
  settles_if obs x (SendMessagesV1.body env messages i).
Proof.
  intros Hq Hd Hf Hs.
  destruct (messages !! i) as [[m|]|] eqn:Hm.
  - destruct (number m) as [n|] eqn:Hn.
    + apply settles_as_if. eapply v1_body_settles; eauto. by rewrite Hn.
    + intros st a st'. unfold SendMessagesV1.body, item. rewrite Hm.
      cbv [mbind mret D_bind D_ret as_string]. by rewrite Hn.
  - intros st a st'. unfold SendMessagesV1.body, item. by rewrite Hm.
  - intros st a st'. unfold SendMessagesV1.body, item. by rewrite Hm.
Qed.

Lemma batched_body_settles_if {X} (obs : action -> option X) (x : X) env messages e i :
  quiet obs -> obs (Delivered i) = Some x -> obs (Failed i) = Some x ->
  obs (Sleep SendMessages.MESSAGE_DELAY) = None ->
  settles_if obs x (SendMessages.body env messages e i).
Proof.
  intros Hq Hd Hf Hs.
  destruct (messages !! i) as [[m|]|] eqn:Hm.
  - destruct (number m) as [n|] eqn:Hn.
    + apply settles_as_if. eapply batched_body_settles; eauto. by rewrite Hn.
    + intros st a st'. unfold SendMessages.body, item. rewrite Hm.
      cbv [mbind mret D_bind D_ret as_string]. by rewrite Hn.
  - intros st a st'. unfold SendMessages.body, item. by rewrite Hm.
  - intros st a st'. unfold SendMessages.body, item. by rewrite Hm.
Qed.

Lemma v1_loop_partial env messages st :
  SendMessagesV1.loop env messages dstate0 = (Some tt, st) ->
  terminals (trace st) = seq 0 (length messages) /\
  successCount st + failCount st = length messages.
Proof.
  intros E.
  destruct (for_range_partial terminal id (SendMessagesV1.body env messages)
              (length messages) 0 dstate0 st) as (ext & T & O & C); [| exact E |].
  { intros i _. by apply v1_body_settles_if; auto using quiet_terminal. }
  simpl in T. rewrite T. unfold terminals. rewrite O, list_fmap_id.
  split; [done |]. unfold counted in C. simpl in C. lia.
Qed.

Lemma batched_loop_partial {X} (obs : action -> option X) (x : nat -> X) env messages st :
  quiet obs ->
  (forall i, obs (Delivered i) = Some (x i)) ->
  (forall i, obs (Failed i) = Some (x i)) ->
  obs (Sleep SendMessages.MESSAGE_DELAY) = None ->
  SendMessages.loop env messages dstate0 = (Some tt, st) ->
  omap obs (trace st)
    = expected x (omap obs [Sleep SendMessages.BATCH_DELAY])
        (length messages) 0 (length messages) SendMessages.BATCH_SIZE /\
  successCount st + failCount st = length messages.
Proof.
  intros Hq Hd Hf Hs E.
  destruct (for_step_partial obs x (omap obs [Sleep SendMessages.BATCH_DELAY])
              (SendMessages.batch env messages) SendMessages.BATCH_SIZE (length messages)
              ltac:(unfold SendMessages.BATCH_SIZE; lia)) with
    (fuel := length messages) (start := 0) (st := dstate0) (st' := st)
    as (ext & T & O & C); [| lia | exact E |].
  - intros b s s' Hb batchEnd Eb. unfold SendMessages.batch in Eb. fold batchEnd in Eb.
    unfold mbind, mret, D_bind, D_ret in Eb.
    destruct (for_range _ _ _ s) as [[[]|] s1] eqn:E1; [| done].
    destruct (for_range_partial obs x (SendMessages.body env messages batchEnd)
                (batchEnd - b) b s s1) as (e1 & T1 & O1 & C1); [| exact E1 |].
    { intros i _. by apply batched_body_settles_if. }
    destruct (batchEnd <? length messages)%nat; simpl in Eb; injection Eb as <-.
    + exists (e1 ++ [Sleep SendMessages.BATCH_DELAY]). simpl.
      rewrite T1, app_assoc, omap_app, O1. done.
    + exists e1. rewrite app_nil_r. done.
  - simpl in T. rewrite T, O. split; [done |]. unfold counted in C. simpl in C. lia.
Qed.

Lemma batched_terminals env messages st :
  SendMessages.loop env messages dstate0 = (Some tt, st) ->
  terminals (trace st) = seq 0 (length messages).
Proof.
  intros E.
  destruct (batched_loop_partial terminal id env messages st) as [O _];
    auto using quiet_terminal.
  unfold terminals. rewrite O. simpl.
  rewrite expected_no_pause; [| unfold SendMessages.BATCH_SIZE; lia | lia].
  f_equal. lia.
Qed.

(** *** [/api/send-bulk]: batches of concurrent tasks *)

Lemma task_trace_about outcome messages batchStart i :
  Forall (fun j => j = i) (items (SendBulk.task_trace outcome messages batchStart i)).
Proof.
  unfold SendBulk.task_trace. destruct (messages !! i) as [[m|]|]; [| constructor ..].
  assert (emits_about i (SendBulk.task outcome batchStart i m)) as H.
  { unfold SendBulk.task. emits. }
  destruct (H dstate0) as (ext & -> & Hext). done.
Qed.

Lemma interleave_elem_of {A} (ls : list (list A)) t :
  interleave ls t -> forall a, a ∈ t -> exists l, l ∈ ls /\ a ∈ l.
Proof.
  induction 1 as [ls Hnil | ls1 ls2 b l t Hi IH]; intros a Ha.
  - by apply elem_of_nil in Ha.
  - apply elem_of_cons in Ha as [-> | Ha].
    + exists (b :: l). split; [| by left].
      apply elem_of_app. right. by left.
    + destruct (IH a Ha) as (l' & Hl' & Hal').
      apply elem_of_app in Hl' as [Hl' | Hl'].
      * exists l'. split; [| done]. apply elem_of_app. by left.
      * apply elem_of_cons in Hl' as [-> | Hl'].
        -- exists (b :: l). split; [| by right].
           apply elem_of_app. right. by left.
        -- exists l'. split; [| done]. apply elem_of_app. right. by right.
Qed.

Lemma interleave_nil_l {A} (ls : list (list A)) t :
  interleave ls t -> interleave ([] :: ls) t.
Proof.
  induction 1 as [ls Hnil | ls1 ls2 b l t Hi IH].
  - apply interleave_done. by constructor.
  - by apply (interleave_step ([] :: ls1)).
Qed.

(** One schedule always exists: the tasks one after the other. *)
Lemma interleave_concat {A} (ls : list (list A)) : interleave ls (concat ls).
Proof.
  induction ls as [|l ls IH]; simpl.
  - apply interleave_done. constructor.
  - induction l as [|a l IHl]; simpl.
    + by apply interleave_nil_l.
    + by apply (interleave_step []).
Qed.

Lemma items_elem_of t i : i ∈ items t <-> exists a, a ∈ t /\ item_of a = Some i.
Proof. unfold items. by rewrite list_elem_of_omap. Qed.

Lemma batch_items outcome messages batchStart n t :
  interleave (map (SendBulk.task_trace outcome messages batchStart) (seq batchStart n)) t ->
  Forall (fun j => batchStart <= j < batchStart + n) (items t).
Proof.
  intros Hi. apply Forall_forall. intros j Hj.
  apply items_elem_of in Hj as (a & Ha & Haj).
  destruct (interleave_elem_of _ _ Hi a Ha) as (l & Hl & Hal).
  apply list_elem_of_In, in_map_iff in Hl as (i & <- & Hin).
  apply in_seq in Hin.
  pose proof (task_trace_about outcome messages batchStart i) as Hall.
  rewrite Forall_forall in Hall.
  assert (j = i) as -> by (apply Hall, items_elem_of; eauto). done.
Qed.

(** Where the creation of the promises throws. *)
Lemma thrown_at_range messages b e k :
  SendBulk.thrown_at messages b e = Some k ->
  b <= k < e /\ messages !! k = Some None.
Proof.
  unfold SendBulk.thrown_at. intros H. apply find_some in H as [Hin Hn].
  apply in_seq in Hin. split; [lia |].
  unfold SendBulk.is_null in Hn. by destruct (messages !! k) as [[?|]|].
Qed.

Lemma thrown_at_none messages b e i :
  SendBulk.thrown_at messages b e = None -> b <= i < e ->
  messages !! i <> Some None.
Proof.
  unfold SendBulk.thrown_at. intros H Hi Hn.
  assert (SendBulk.is_null messages i = false) as Hf
    by (apply (find_none _ _ H i), in_seq; lia).
  unfold SendBulk.is_null in Hf. by rewrite Hn in Hf.
Qed.

Lemma job_sorted outcome messages batchStart t :
  SendBulk.job outcome messages batchStart t ->
  forall k, batchStart = k * SendBulk.MESSAGE_BATCH_SIZE ->
  Forall (fun j => batchStart <= j) (items t) /\
  StronglySorted le ((fun j => j / SendBulk.MESSAGE_BATCH_SIZE) <$> items t).
Proof.
  induction 1 as [b Hb | b t rest Hb batchEnd Hth Hi Hjob IH | b k0 t Hb batchEnd Hth Hi];
    intros k Hk.
  - split; constructor.
  - destruct (IH (S k) ltac:(lia)) as [Hge Hs].
    apply batch_items in Hi.
    assert (items (t ++ (if (batchEnd <? length messages)%nat
                         then [Sleep SendBulk.BATCH_DELAY] else []) ++ rest)
            = items t ++ items rest) as ->.
    { unfold items. rewrite !omap_app. by destruct (_ <? _)%nat. }
    assert (Forall (fun j => j / SendBulk.MESSAGE_BATCH_SIZE = k) (items t)) as Hk1.
    { eapply Forall_impl; [exact Hi |]. intros j Hj. simpl in Hj.
      subst b batchEnd. unfold SendBulk.MESSAGE_BATCH_SIZE in *.
      symmetry. apply Nat.div_unique with (r := j - k * 8); lia. }
    assert (Forall (fun j => S k <= j / SendBulk.MESSAGE_BATCH_SIZE) (items rest)) as Hk2.
    { eapply Forall_impl; [exact Hge |]. intros j Hj. simpl in Hj.
      subst b. unfold SendBulk.MESSAGE_BATCH_SIZE in *.
      apply Nat.div_le_lower_bound; lia. }
    split.
    + apply Forall_app. split.
      * eapply Forall_impl; [exact Hi | intros; simpl in *; lia].
      * eapply Forall_impl; [exact Hge | intros; simpl in *; lia].
    + rewrite fmap_app. apply StronglySorted_app_2; [| | done].
      * intros x1 x2 H1 H2.
        apply list_elem_of_fmap in H1 as (j1 & -> & H1).
        apply list_elem_of_fmap in H2 as (j2 & -> & H2).
        rewrite Forall_forall in Hk1, Hk2.
        specialize (Hk1 _ H1). specialize (Hk2 _ H2). simpl in *. lia.
      * clear -Hk1. induction Hk1 as [|j l Hj Hl IHl]; simpl; constructor; [done |].
        rewrite Forall_fmap. eapply Forall_impl; [exact Hl |].
        intros j' Hj'. simpl in *. lia.
  - apply thrown_at_range in Hth. apply batch_items in Hi.
    assert (Forall (fun j => j / SendBulk.MESSAGE_BATCH_SIZE = k) (items t)) as Hk1.
    { eapply Forall_impl; [exact Hi |]. intros j Hj. simpl in Hj.
      subst b batchEnd. unfold SendBulk.MESSAGE_BATCH_SIZE in *.
      symmetry. apply Nat.div_unique with (r := j - k * 8); lia. }
    split.
    + eapply Forall_impl; [exact Hi | intros; simpl in *; lia].
    + clear -Hk1. induction Hk1 as [|j l Hj Hl IHl]; simpl; constructor; [done |].
      rewrite Forall_fmap. eapply Forall_impl; [exact Hl |].
      intros j' Hj'. simpl in *. lia.
Qed.

Lemma job_in_order outcome messages t :
  SendBulk.job outcome messages 0 t ->
  batches_in_order SendBulk.MESSAGE_BATCH_SIZE t.
Proof.
  intros H. apply sorted_batch_numbers.
  by destruct (job_sorted outcome messages 0 t H 0).
Qed.

(** The loop has a trace whatever the messages. *)
Lemma job_exists outcome messages : forall fuel batchStart,
  length messages - batchStart <= fuel ->
  exists t, SendBulk.job outcome messages batchStart t.
Proof.
  induction fuel as [|fuel IH]; intros b Hfuel.
  - exists []. apply SendBulk.job_end. lia.
  - destruct (decide (b < length messages)) as [Hb | Hb].
    + destruct (IH (b + SendBulk.MESSAGE_BATCH_SIZE)) as [rest Hrest].
      { unfold SendBulk.MESSAGE_BATCH_SIZE. lia. }
      destruct (SendBulk.thrown_at messages b
                  (Nat.min (b + SendBulk.MESSAGE_BATCH_SIZE) (length messages))) eqn:Hth.
      * eexists. eapply SendBulk.job_thrown; [done | exact Hth | apply interleave_concat].
      * eexists. apply SendBulk.job_batch;
          [done | exact Hth | apply interleave_concat | exact Hrest].
    + exists []. by apply SendBulk.job_end.
Qed.

Lemma generateQRCode_fails env timeout i q st :
  truthy q = true -> encoder_fails env timeout (encodes st) ->
  generateQRCode env timeout i q st
  = (Some None, DState (successCount st) (failCount st) (trace st ++ [Encode i])
                       (sends st) (S (encodes st)) (randoms st)).
Proof.
  intros Hq Hf. unfold generateQRCode, encoder_fails in *. rewrite Hq. simpl.
  destruct (toBuffer_outcome env (encodes st)); [| done | done].
  destruct (ms <? timeout)%Z eqn:E; [apply Z.ltb_lt in E; lia | done].
Qed.

(** [/api/send-messages]: one encoder call, then the text alone; the
    text is sent a second time when the first send throws, because the
    inner [catch] also catches the errors of [sendMessage]. *)
Lemma deliver_encode_fails env timeout i m f st :
  truthy (qrData m) = true ->
  encoder_fails env timeout (encodes st) ->
  trace (deliver env timeout i m f st).2
  = trace st ++ [Encode i; SendText i f (message m)] ++
      match sendMessage_outcome env (sends st) with
      | SendThrows =>
          [SendText i f (message m);
           outcome_of i (sendMessage_outcome env (S (sends st)))]
      | _ => [Delivered i]
      end.
Proof.
  intros Hq Hf. unfold deliver, try_catch, mbind, D_bind.
  rewrite Hq, generateQRCode_fails by done. unfold_D. simpl.
  destruct (sendMessage_outcome env (sends st)) eqn:E; simpl;
    [| | destruct (sendMessage_outcome env (S (sends st))) eqn:E'; simpl];
    rewrite <- ?app_assoc; reflexivity.
Qed.

(** [/api/send-bulk-qr]: two delivery attempts of two encoder calls each,
    then the text alone. *)
Lemma qr_encode_fails env i m f st :
  truthy (qrData m) = true ->
  (forall n, encodes st <= n -> encoder_fails env 8000 n) ->
  trace (SendBulkQr.attempts_while env SendBulkQr.MAX_ATTEMPTS i m f false 0 st).2
  = trace st ++ [Encode i; Sleep 2000; Encode i; Sleep 3000;
                 Encode i; Sleep 2000; Encode i;
                 SendText i f (message m);
                 outcome_of i (sendMessage_outcome env (sends st))].
Proof.
  intros Hq Hf.
  assert (forall st', encodes st <= encodes st' ->
            generateQRCode env 8000 i (qrData m) st'
            = (Some None, DState (successCount st') (failCount st')
                                 (trace st' ++ [Encode i]) (sends st')
                                 (S (encodes st')) (randoms st'))) as G.
  { intros st' Hle. apply generateQRCode_fails; auto. }
  unfold SendBulkQr.MAX_ATTEMPTS. simpl.
  unfold SendBulkQr.attempt, SendBulkQr.MAX_ATTEMPTS. rewrite Hq. simpl.
  unfold try_catch, mbind, D_bind.
  rewrite G by lia. simpl.
  rewrite G by (simpl; lia). simpl.
  rewrite G by (simpl; lia). simpl.
  rewrite G by (simpl; lia). simpl.
  unfold_D. simpl.
  destruct (sendMessage_outcome env (sends st)) eqn:E; simpl;
    rewrite <- ?app_assoc; reflexivity.
Qed.

(** The first encoder call fails and the second gives an image: the
    image is sent, the retry coming 2000 ms after the failure. *)
Lemma qr_encode_retry env i m f st png ms :
  truthy (qrData m) = true ->
  encoder_fails env 8000 (encodes st) ->
  toBuffer_outcome env (S (encodes st)) = Encoded ms png -> (ms < 8000)%Z ->
  sendMessage_outcome env (sends st) = SendOk ->
  trace (SendBulkQr.attempts_while env SendBulkQr.MAX_ATTEMPTS i m f false 0 st).2
  = trace st ++ [Encode i; Sleep 2000; Encode i;
                 SendMedia i f (message m); Delivered i].
Proof.
  intros Hq Hf He Hms Hs.
  unfold SendBulkQr.MAX_ATTEMPTS. simpl.
  unfold SendBulkQr.attempt, SendBulkQr.MAX_ATTEMPTS. rewrite Hq. simpl.
  unfold try_catch, mbind, D_bind.
  rewrite generateQRCode_fails by done. simpl.
  unfold generateQRCode. rewrite Hq. simpl. rewrite He.
  apply Z.ltb_lt in Hms. rewrite Hms. simpl.
  unfold_D. simpl. rewrite Hs. simpl.
  rewrite <- ?app_assoc. reflexivity.
Qed.

(** An address that fails the check is counted as failed, and that is
    all the iteration does. *)
Lemma qr_invalid_number env messages e i m st :
  messages !! i = Some (Some m) -> validNumberQr (number m) = None ->
  SendBulkQr.body env messages e i st
  = (Some tt, DState (successCount st) (S (failCount st)) (trace st ++ [Failed i])
                     (sends st) (encodes st) (randoms st)).
Proof.
  intros Hm Hv. unfold SendBulkQr.body, item. rewrite Hm.
  cbv [mbind mret D_bind D_ret]. by rewrite Hv.
Qed.

(** ** Fuel *)

Lemma qr_while_done env fuel i q png qa st :
  SendBulkQr.qr_while env fuel i q (Some png) qa st = (Some (Some png), st).
Proof. by destruct fuel. Qed.

Lemma qr_while_fuel env i q : forall fuel buf qa st,
  2 - qa <= fuel ->
  SendBulkQr.qr_while env fuel i q buf qa st
  = SendBulkQr.qr_while env (2 - qa) i q buf qa st.
Proof.
  induction fuel as [|fuel IH]; intros buf qa st Hfuel.
  - by replace (2 - qa) with 0 by lia.
  - destruct buf as [png|]; [by rewrite !qr_while_done |].
    destruct (decide (qa < 2)) as [Hqa | Hqa].
    + replace (2 - qa) with (S (1 - qa)) by lia. simpl.
      apply Nat.ltb_lt in Hqa. rewrite Hqa. simpl.
      unfold mbind, D_bind.
      destruct (try_catch _ _ st) as [[[buf' qa']|] st1] eqn:E; [| done].
      simpl. unfold try_catch, mbind, mret, throw, D_bind, D_ret, sleep, emit in E.
      destruct (generateQRCode env 8000 i q st) as [[[png|]|] st0]; simpl in E.
      * injection E as <- <- <-. by rewrite !qr_while_done.
      * destruct (S qa <? 2)%nat eqn:E2; simpl in E; [| done].
        injection E as <- <- <-. by rewrite IH by lia.
      * destruct (S qa <? 2)%nat eqn:E2; simpl in E; [| done].
        injection E as <- <- <-. by rewrite IH by lia.
    + replace (2 - qa) with 0 by lia. simpl.
      assert ((qa <? 2)%nat = false) as -> by (apply Nat.ltb_ge; lia). done.
Qed.

Lemma attempts_while_fuel env i m f : forall fuel success attempts st,
  SendBulkQr.MAX_ATTEMPTS - attempts <= fuel ->
  SendBulkQr.attempts_while env fuel i m f success attempts st
  = SendBulkQr.attempts_while env (SendBulkQr.MAX_ATTEMPTS - attempts) i m f
      success attempts st.
Proof.
  unfold SendBulkQr.MAX_ATTEMPTS.
  induction fuel as [|fuel IH]; intros success attempts st Hfuel.
  - by replace (2 - attempts) with 0 by lia.
  - destruct (decide (attempts < 2)) as [Ha | Ha].
    + replace (2 - attempts) with (S (1 - attempts)) by lia. simpl.
      destruct (negb success && (attempts <? SendBulkQr.MAX_ATTEMPTS)%nat); [| done].
      unfold mbind, D_bind.
      destruct (SendBulkQr.attempt env i m f (S attempts) st) as [[s'|] st1]; [| done].
      by rewrite IH by lia.
    + replace (2 - attempts) with 0 by lia. simpl.
      unfold SendBulkQr.MAX_ATTEMPTS.
      assert ((attempts <? 2)%nat = false) as -> by (apply Nat.ltb_ge; lia).
      by rewrite andb_false_r.
Qed.

Lemma sendMessageWithRetry_fuel env i n body : forall fuel retryCount st,
  retryCount <= SendBulk.MAX_RETRIES ->
  S SendBulk.MAX_RETRIES - retryCount <= fuel ->
  SendBulk.sendMessageWithRetry fuel env i n body retryCount st
  = SendBulk.sendMessageWithRetry (S SendBulk.MAX_RETRIES - retryCount)
      env i n body retryCount st.
Proof.
  unfold SendBulk.MAX_RETRIES.
  induction fuel as [|fuel IH]; intros retryCount st Hr Hfuel; [lia |].
  replace (2 - retryCount) with (S (1 - retryCount)) by lia. simpl.
  unfold try_catch. destruct (_ ≫= _) as [[b|] st1]; [done |].
  unfold SendBulk.MAX_RETRIES.
  destruct (retryCount <? 1)%nat eqn:E; [| done].
  apply Nat.ltb_lt in E. unfold mbind, D_bind.
  destruct (sleep 700 st1) as [[[]|] st2]; [| done].
  rewrite IH by (unfold SendBulk.MAX_RETRIES; lia).
  by replace retryCount with 0 by lia.
Qed.

(** ** Invariants of loops *)

Lemma for_range_invariant (I : dstate -> Prop) body n : forall start st,
  (forall j s, I s -> I (body j s).2) ->
  I st -> I (for_range n start body st).2.
Proof.
  induction n as [|n IH]; intros start st Hbody Hst; simpl; [done |].
  unfold mbind, D_bind. pose proof (Hbody start st Hst) as H1.
  destruct (body start st) as [[[]|] st1]; simpl in *; [by apply IH | done].
Qed.

Lemma for_step_invariant (I : dstate -> Prop) body step stop fuel : forall start st,
  (forall j s, I s -> I (body j s).2) ->
  I st -> I (for_step fuel start stop step body st).2.
Proof.
  induction fuel as [|fuel IH]; intros start st Hbody Hst; simpl; [done |].
  destruct (start <? stop)%nat; [| done].
  unfold mbind, D_bind. pose proof (Hbody start st Hst) as H1.
  destruct (body start st) as [[[]|] st1]; simpl in *; [by apply IH | done].
Qed.

(** ** [/api/send-bulk-qr] never sends to an address that fails the check *)

Lemma emits_qr_body env messages e j : emits_about j (SendBulkQr.body env messages e j).
Proof. unfold SendBulkQr.body. emits. Qed.

Lemma qr_body_never_sent env messages e i m j st :
  messages !! i = Some (Some m) -> validNumberQr (number m) = None ->
  never_sent i st -> never_sent i (SendBulkQr.body env messages e j st).2.
Proof.
  intros Hm Hv Hst. destruct (decide (j = i)) as [-> | Hji].
  - rewrite (qr_invalid_number env messages e i m st Hm Hv). simpl.
    apply Forall_app. split; [done | by repeat constructor].
  - unfold never_sent in *.
    destruct (emits_qr_body env messages e j st) as (ext & -> & Hext).
    apply Forall_app. split; [done |].
    apply Forall_forall. intros a Ha.
    destruct (is_send i a) eqn:Hs; [| done].
    assert (item_of a = Some i) as Hi.
    { destruct a; simpl in *; try done; apply Nat.eqb_eq in Hs; by subst. }
    rewrite Forall_forall in Hext.
    specialize (Hext i). destruct Hji. symmetry. apply Hext, items_elem_of. eauto.
Qed.

Lemma qr_invalid_never_sent env messages i m :
  messages !! i = Some (Some m) -> validNumberQr (number m) = None ->
  send_calls i (trace (SendBulkQr.handler env true messages).2) = 0.
Proof.
  intros Hm Hv.
  assert (never_sent i (SendBulkQr.loop env messages dstate0).2) as H.
  { unfold SendBulkQr.loop. apply (for_step_invariant (never_sent i)); [| constructor].
    intros b s Hs. unfold SendBulkQr.subBatch, mbind, D_bind.
    pose proof (for_range_invariant (never_sent i)
                  (SendBulkQr.body env messages
                     (Nat.min (b + SendBulkQr.BATCH_SIZE) (length messages)))
                  (Nat.min (b + SendBulkQr.BATCH_SIZE) (length messages) - b) b s) as H1.
    destruct (for_range _ _ _ s) as [[[]|] s1]; simpl in *.
    - assert (never_sent i s1) as H2.
      { apply H1; [| done]. intros. by eapply qr_body_never_sent. }
      destruct (_ <? _)%nat; simpl; [| done].
      apply Forall_app. split; [done | by repeat constructor].
    - apply H1; [| done]. intros. by eapply qr_body_never_sent. }
  assert (never_sent i (SendBulkQr.handler env true messages).2) as H'.
  { unfold SendBulkQr.handler, accept. simpl.
    destruct (length messages =? 0)%nat; simpl; [constructor |].
    unfold try_catch.
    destruct (SendBulkQr.loop env messages dstate0) as [[[]|] s]; exact H. }
  unfold never_sent in H'. unfold send_calls.
  induction H' as [|a l Ha Hl IHl]; [done |].
  rewrite filter_cons_False; [done |]. by rewrite Ha.
Qed.

(** ** Normalisation *)

Lemma formatNumber_plus d :
  startsWith "+" d = false ->
  formatNumber ("+" +:+ d) = d +:+ "@c.us" /\ formatNumber d = d +:+ "@c.us".
Proof.
  intros H. unfold formatNumber. rewrite H. split; [| done].
  simpl. unfold startsWith. simpl. by destruct d.
Qed.

Lemma digits_then_cus_includes s :
  digits_then_cus s = true -> includes "@c.us" s = true.
Proof.
  induction s as [|c t IH]; intros H; [done |].
  change (digits_then_cus (String c t))
    with (String.eqb (String c t) "@c.us" || (is_digit c && digits_then_cus t)) in H.
  change (includes "@c.us" (String c t))
    with (String.prefix "@c.us" (String c t) || includes "@c.us" t).
  apply orb_true_iff in H as [H | H].
  - apply String.eqb_eq in H. by rewrite H.
  - apply andb_true_iff in H as [_ H]. rewrite (IH H). apply orb_true_r.
Qed.

(** [/api/send-bulk-qr] leaves a canonical address as it is. *)
Lemma formatNumberQr_canonical s :
  match_number_pattern s = true -> formatNumberQr s = s.
Proof.
  intros H. unfold formatNumberQr.
  assert (includes "@c.us" s = true) as ->; [| done].
  destruct s as [|c t]; [done |]. simpl in H.
  apply andb_true_iff in H as [_ H].
  change (includes "@c.us" (String c t))
    with (String.prefix "@c.us" (String c t) || includes "@c.us" t).
  rewrite (digits_then_cus_includes t H). apply orb_true_r.
Qed.

Lemma formatNumberQr_plus d :
  startsWith "+" d = false -> includes "@c.us" d = false ->
  formatNumberQr ("+" +:+ d) = d +:+ "@c.us" /\ formatNumberQr d = d +:+ "@c.us".
Proof.
  intros H1 H2. unfold formatNumberQr. rewrite H1, H2. split; [| done].
  change (includes "@c.us" ("+" +:+ d))
    with (String.prefix "@c.us" (String "+" d) || includes "@c.us" d).
  rewrite H2. simpl. unfold startsWith. simpl. by destruct d.
Qed.

Example normalise_example :
  formatNumber "+15551234567" = "15551234567@c.us" /\
  formatNumber "15551234567" = "15551234567@c.us" /\
  formatNumberQr "+15551234567" = "15551234567@c.us" /\
  formatNumberQr "15551234567" = "15551234567@c.us".
Proof. repeat split. Qed.

(** ** The claims on bulk dispatch *)

(** C2.  Batches run strictly in sequence.  In [/api/send-messages]
    (batches of 20) and in [/api/send-bulk] (batches of 8 concurrent
    tasks, of which every schedule is a trace of the job), an action that
    comes later in the trace is never about a message of an earlier
    batch, whatever the messages and the outcomes of the provider calls;
    and the concurrent job has a trace.  For a well-formed list the
    batched loop
    returns, and its terminal outcomes and 3000 ms pauses are the
    messages of each batch in order with one pause after every batch but
    the last; for 45 messages: 20, pause, 20, pause, 5. *)
Theorem batches_run_in_sequence (env : oracle) (outcome : nat -> nat -> send_outcome)
    (messages : list (option msg)) :
  batches_in_order SendMessages.BATCH_SIZE
    (trace (SendMessages.loop env messages dstate0).2) /\
  (exists t, SendBulk.job outcome messages 0 t) /\
  (forall t, SendBulk.job outcome messages 0 t ->
             batches_in_order SendBulk.MESSAGE_BATCH_SIZE t) /\
  (well_formed messages ->
   exists st,
     SendMessages.loop env messages dstate0 = (Some tt, st) /\
     milestones SendMessages.BATCH_DELAY (trace st)
       = expected_milestones (length messages) SendMessages.BATCH_SIZE /\
     (length messages = 45 ->
      milestones SendMessages.BATCH_DELAY (trace st)
        = (Done <$> seq 0 20) ++ [Pause] ++ (Done <$> seq 20 20) ++ [Pause]
            ++ (Done <$> seq 40 5))).
Proof.
  split; [apply batched_loop_in_order |].
  split; [apply (job_exists outcome messages (length messages) 0); lia |].
  split; [intros t; apply job_in_order |].
  intros Hwf.
  destruct (batched_loop_total (milestone_of SendMessages.BATCH_DELAY) Done env messages)
    as (st & E & O & _); auto using quiet_milestone.
  exists st. split; [exact E |]. split; [exact O |].
  intros Hlen. unfold milestones. rewrite O, Hlen. reflexivity.
Qed.

Lemma batches_run_in_sequence_witness :
  batches_in_order 20 (trace (SendMessages.loop always_ok job45 dstate0).2) /\
  batches_in_order 8
    [Sleep 0; Sleep 800; SendText 0 "1@c.us" "hi"; SendText 1 "2@c.us" "hi";
     Delivered 1; Delivered 0] /\
  exists st,
    SendMessages.loop always_ok job45 dstate0 = (Some tt, st) /\
    milestones 3000 (trace st)
      = (Done <$> seq 0 20) ++ [Pause] ++ (Done <$> seq 20 20) ++ [Pause]
          ++ (Done <$> seq 40 5).
Proof.
  pose proof (batches_run_in_sequence always_ok (fun _ _ => SendOk) job45)
    as (Ha & _ & _ & Hc).
  pose proof (batches_run_in_sequence always_ok (fun _ _ => SendOk)
                [Some (plain "1"); Some (plain "2")]) as (_ & _ & Hb & _).
  assert (well_formed job45) as Hwf.
  { unfold job45. apply Forall_forall. intros m Hm.
    apply list_elem_of_In, repeat_spec in Hm. by subst. }
  destruct (Hc Hwf) as (st & E & _ & H45).
  split; [exact Ha |]. split.
  - apply Hb.
    refine (SendBulk.job_batch (fun _ _ => SendOk) [Some (plain "1"); Some (plain "2")] 0
              [Sleep 0; Sleep 800; SendText 0 "1@c.us" "hi"; SendText 1 "2@c.us" "hi";
               Delivered 1; Delivered 0] [] _ _ _ _);
      [simpl; lia | reflexivity |
       | apply SendBulk.job_end; unfold SendBulk.MESSAGE_BATCH_SIZE; simpl; lia].
    apply (interleave_step [] [_]), (interleave_step [_] []),
          (interleave_step [] [_]), (interleave_step [_] []),
          (interleave_step [_] []), (interleave_step [] [_]).
    apply interleave_done. repeat constructor.
  - exists st. split; [exact E | apply H45; reflexivity].
Defined.

(** C9.  When the background loop of [/api/send-messages] (either
    revision) completes, every message of the list has reached exactly
    one terminal outcome, in list order, each of them one increment of
    [successCount] or [failCount]; so the two counters add up to the
    length of the list.  The loop does complete when every element is an
    object whose [number] is a string. *)
Theorem send_messages_counts_every_message (env : oracle) (messages : list (option msg)) :
  (forall st,
     SendMessagesV1.loop env messages dstate0 = (Some tt, st) \/
     SendMessages.loop env messages dstate0 = (Some tt, st) ->
     terminals (trace st) = seq 0 (length messages) /\
     successCount st + failCount st = length messages) /\
  (well_formed messages ->
   (exists st, SendMessagesV1.loop env messages dstate0 = (Some tt, st)) /\
   (exists st, SendMessages.loop env messages dstate0 = (Some tt, st))).
Proof.
  split.
  - intros st [E | E].
    + by apply (v1_loop_partial env).
    + split; [by apply (batched_terminals env) |].
      by eapply (batched_loop_partial terminal id env messages st), E;
        auto using quiet_terminal.
  - intros Hwf. split.
    + destruct (v1_loop_total env messages Hwf) as (st & E & _). by exists st.
    + destruct (batched_loop_total terminal id env messages) as (st & E & _);
        auto using quiet_terminal.
      by exists st.
Qed.

Lemma send_messages_counts_every_message_witness :
  let messages := [Some (plain "+15551234567"); Some (ticket "15551234567");
                   Some (plain "abc")] in
  let st := (SendMessagesV1.loop encoder_hangs messages dstate0).2 in
  terminals (trace st) = [0; 1; 2] /\ successCount st + failCount st = 3.
Proof.
  intros messages st.
  destruct (send_messages_counts_every_message encoder_hangs messages) as [H _].
  apply (H st). left. vm_compute. reflexivity.
Defined.

(** C3.  [/api/send-messages] does not pass a canonical address through:
    it appends the routing domain a second time, and the provider is
    called with that address.  [/api/send-bulk-qr] leaves it unchanged. *)
Theorem canonical_target_is_suffixed_again :
  formatNumber "15551234567@c.us" = "15551234567@c.us@c.us" /\
  SendMessagesV1.handler always_ok true [Some (plain "15551234567@c.us")]
  = (202, DState 1 0 [SendText 0 "15551234567@c.us@c.us" "hi"; Delivered 0] 1 0 0) /\
  SendMessages.handler always_ok true [Some (plain "15551234567@c.us")]
  = (202, DState 1 0 [SendText 0 "15551234567@c.us@c.us" "hi"; Delivered 0] 1 0 0) /\
  SendBulkQr.handler always_ok true [Some (plain "15551234567@c.us")]
  = (202, DState 1 0 [SendText 0 "15551234567@c.us" "hi"; Delivered 0] 1 0 0).
Proof. repeat split. Qed.

(** C4.  [/api/send-messages] does not check the address: a target that
    fails the digit pattern after normalisation is still handed to the
    provider, and counted as delivered when the provider accepts it.
    [/api/send-bulk-qr] counts it as failed without a send. *)
Theorem invalid_target_is_still_sent :
  match_number_pattern (formatNumber "abc") = false /\
  SendMessagesV1.handler always_ok true [Some (plain "abc")]
  = (202, DState 1 0 [SendText 0 "abc@c.us" "hi"; Delivered 0] 1 0 0) /\
  SendMessages.handler always_ok true [Some (plain "abc")]
  = (202, DState 1 0 [SendText 0 "abc@c.us" "hi"; Delivered 0] 1 0 0) /\
  SendBulkQr.handler always_ok true [Some (plain "abc")]
  = (202, DState 0 1 [Failed 0] 0 0 0).
Proof. repeat split. Qed.

(** C8, as the code has it.  For a message that carries attachment data,
    when no encoder call gives an image in time (5000 ms in [server.js],
    8000 ms in the later revision):
    - [/api/send-messages] (both revisions) calls the encoder once and
      sends the text body alone, a second time if the first send throws;
    - [/api/send-bulk-qr] makes two delivery attempts 3000 ms apart, each
      with two encoder calls 2000 ms apart, and then sends the text body
      alone, once.
    The message is counted as failed only when the text send throws. *)
Theorem encode_failure_falls_back_to_text (env : oracle) (i : nat) (m : msg)
    (formattedNumber : string) (st : dstate) :
  truthy (qrData m) = true ->
  let text := SendText i formattedNumber (message m) in
  let resend :=
    match sendMessage_outcome env (sends st) with
    | SendThrows => [text; outcome_of i (sendMessage_outcome env (S (sends st)))]
    | _ => [Delivered i]
    end in
  ((forall n, encodes st <= n -> encoder_fails env 5000 n) ->
   trace (deliver env 5000 i m formattedNumber st).2
     = trace st ++ [Encode i; text] ++ resend) /\
  ((forall n, encodes st <= n -> encoder_fails env 8000 n) ->
   trace (deliver env 8000 i m formattedNumber st).2
     = trace st ++ [Encode i; text] ++ resend /\
   trace (SendBulkQr.attempts_while env SendBulkQr.MAX_ATTEMPTS i m formattedNumber
            false 0 st).2
     = trace st ++ [Encode i; Sleep 2000; Encode i; Sleep 3000;
                    Encode i; Sleep 2000; Encode i; text;
                    outcome_of i (sendMessage_outcome env (sends st))]).
Proof.
  intros Hq text resend. split; [| split].
  - intros Hf. apply deliver_encode_fails; [done | by apply Hf].
  - apply deliver_encode_fails; [done | by apply H].
  - by apply qr_encode_fails.
Qed.

Lemma encode_failure_falls_back_to_text_witness :
  trace (deliver encoder_hangs 5000 0 (ticket "15551234567") "15551234567@c.us" dstate0).2
    = [Encode 0; SendText 0 "15551234567@c.us" "hi"; Delivered 0] /\
  trace (deliver encoder_hangs 8000 0 (ticket "15551234567") "15551234567@c.us" dstate0).2
    = [Encode 0; SendText 0 "15551234567@c.us" "hi"; Delivered 0] /\
  trace (SendBulkQr.attempts_while encoder_hangs 2 0 (ticket "15551234567")
           "15551234567@c.us" false 0 dstate0).2
    = [Encode 0; Sleep 2000; Encode 0; Sleep 3000; Encode 0; Sleep 2000; Encode 0;
       SendText 0 "15551234567@c.us" "hi"; Delivered 0].
Proof.
  destruct (encode_failure_falls_back_to_text encoder_hangs 0 (ticket "15551234567")
              "15551234567@c.us" dstate0) as [H5 H8].
  - reflexivity.
  - split; [apply H5 | apply H8]; intros n _; exact I.
Defined.

(** C8 as stated fails: with an encoder that never answers, the encoder
    is not called twice (one retry) for the message; [/api/send-bulk-qr]
    calls it four times and [/api/send-messages] once. *)
Lemma encode_is_not_retried_once :
  encode_calls 0 (trace (SendBulkQr.handler encoder_hangs true
                           [Some (ticket "15551234567")]).2) = 4 /\
  encode_calls 0 (trace (SendMessagesV1.handler encoder_hangs true
                           [Some (ticket "15551234567")]).2) = 1 /\
  encode_calls 0 (trace (SendMessages.handler encoder_hangs true
                           [Some (ticket "15551234567")]).2) = 1.
Proof. repeat split. Qed.

(** ** Invariants of the event loop *)

(** Walk down a handler: case analysis on its tests, assignments to
    variables the invariant does not read are skipped, and functions
    already known to keep the invariant are stepped over. *)
Ltac is_assignment s :=
  lazymatch s with
  | set_qrCodeData => idtac | set_isLoggedIn => idtac | set_loggedInNumber => idtac
  | set_loggedInName => idtac | set_profilePictureUrl => idtac
  | set_connectionState => idtac | set_client => idtac
  | set_isClientDestroying => idtac | set_reconnectionTimer => idtac
  | set_monitoringTimer => idtac | set_connectionCheckTimer => idtac
  | set_lastConnectionAttempt => idtac | set_reconnectionAttempts => idtac
  | set_lastKnownState => idtac | set_lastActiveTimestamp => idtac
  | set_qrGenerationTime => idtac | set_qrAttempts => idtac
  | set_qrAutoRefresh => idtac | set_now => idtac | set_timers => idtac
  | set_tasks => idtac | set_nextId => idtac | set_clientsCreated => idtac
  | set_responses => idtac | suspend => idtac | clearTimer => idtac
  | respond => idtac | setTimer => idtac
  end.

Ltac skip_assignment I :=
  lazymatch goal with
  | |- I (?s ?v ?w) =>
      is_assignment s;
      let Hs := fresh "Hs" in
      assert (forall w0, I w0 -> I (s v w0)) as Hs
        by (let a := fresh in let b := fresh in intros a b; exact b);
      apply Hs; clear Hs
  end.

Ltac unfold_handler f :=
  lazymatch f with
  | handleDisconnection => unfold handleDisconnection
  | initializeWhatsAppClient => unfold initializeWhatsAppClient
  | initialize_failed => unfold initialize_failed
  | startMonitoring => unfold startMonitoring
  | start_connection_check => unfold start_connection_check
  | destroyClient_begin => unfold destroyClient_begin
  | destroyClient_finally => unfold destroyClient_finally
  | after => unfold after
  | await_destroyClient => unfold await_destroyClient
  | clear_timers => unfold clear_timers
  | qr_tail => unfold qr_tail
  | monitor => unfold monitor
  | checkActiveConnection => unfold checkActiveConnection
  | fire => unfold fire
  | on_event => unfold on_event
  | on_qr => unfold on_qr
  | on_authenticated => unfold on_authenticated
  | on_auth_failure => unfold on_auth_failure
  | on_ready => unfold on_ready
  | on_change_state => unfold on_change_state
  | on_change_battery => unfold on_change_battery
  | logout_rest => unfold logout_rest
  | get_ping => unfold get_ping
  | post_generate_qr => unfold post_generate_qr
  | post_toggle_qr_auto_refresh => unfold post_toggle_qr_auto_refresh
  | get_status => unfold get_status
  | status_response => unfold status_response
  | post_reset => unfold post_reset
  | post_logout => unfold post_logout
  end.

Ltac walk_with I custom :=
  repeat first
    [ match goal with H : I ?w |- I ?w => exact H end
    | custom ()
    | match goal with
      | |- I (if ?b then _ else _) => destruct b eqn:?
      | |- I (match ?x with _ => _ end) => destruct x eqn:?
      end
    | skip_assignment I
    | match goal with |- I (?f ?w) => apply (preserves (I := I) (f := f)) end
    | match goal with
      | |- I (?f ?w) => unfold_handler f
      | |- I (?f _ ?w) => unfold_handler f
      end
    | progress cbv beta zeta ].

Ltac walk I := walk_with I ltac:(fun _ => fail).

Ltac preserve I f := intros ? ?; unfold f; walk I.

Section responses.

Lemma respond_200 path success status text :
  Preserves all_200 (respond (Response path 200 success status text)).
Proof.
  intros w H. unfold all_200, respond. simpl.
  apply Forall_app. split; [done | by repeat constructor].
Qed.

#[local] Existing Instance respond_200.

Lemma dispatch_200 r : Preserves all_200 (dispatch r).
Proof. intros w H. destruct r; unfold dispatch; simpl; walk all_200. Qed.

#[local] Existing Instance dispatch_200.

Lemma resume_200 k r w w' : all_200 w -> resume k r w = Some w' -> all_200 w'.
Proof.
  intros H E. destruct k, r; simpl in E; try discriminate; injection E as <-;
    unfold status_response; walk all_200.
Qed.

Lemma step_200 w te : all_200 w -> all_200 (step w te).
Proof.
  intros H. unfold step. cbv zeta. destruct te as [t []]; cbn [fst snd].
  - walk all_200.
  - walk all_200.
  - walk all_200.
  - destruct (tasks (set_now t w) !! id) as [k|] eqn:Ek; [| walk all_200].
    destruct (resume k r _) as [w'|] eqn:Er; [| walk all_200].
    eapply resume_200; [| exact Er]. walk all_200.
  - walk all_200.
Qed.

Lemma run_200 evs : all_200 (run evs).
Proof.
  unfold run, run_from.
  assert (all_200 initial_world) as H by constructor.
  revert H. generalize initial_world.
  induction evs as [|e evs IH]; intros w H; simpl; [done |].
  apply IH, step_200, H.
Qed.

End responses.

(** *** The values of [connectionState] *)

Section states.

(** [P]: the values that the provider has reported. *)
Context (P : string -> Prop).

Lemma state_ok_assigned v w :
  bool_decide (v ∈ assigned_states) = true -> state_ok P (set_connectionState v w).
Proof. intros H. left. by apply bool_decide_eq_true in H. Qed.

Ltac assign_state _ :=
  lazymatch goal with
  | |- state_ok P (set_connectionState _ _) => apply state_ok_assigned; reflexivity
  end.

Lemma dispatch_state r w : state_ok P w -> state_ok P (dispatch r w).
Proof.
  intros H. destruct r; unfold dispatch; simpl; walk_with (state_ok P) assign_state.
Qed.

(** Only the connection check stores what the provider returns. *)
Lemma resume_state k r w w' :
  (forall s, k = AwaitCheckState -> r = FulfilledWith s -> P s) ->
  state_ok P w -> resume k r w = Some w' -> state_ok P w'.
Proof.
  intros Hr H E. destruct k, r; simpl in E; try discriminate; injection E as <-;
    try (walk_with (state_ok P) assign_state; fail).
  walk_with (state_ok P) assign_state.
  right. simpl. by apply Hr.
Qed.

Lemma step_state w te :
  (forall s, s ∈ check_reply w te -> P s) ->
  state_ok P w -> state_ok P (step w te).
Proof.
  intros Hr H. unfold step. cbv zeta. unfold check_reply in Hr.
  destruct te as [t []]; cbn [fst snd] in *.
  - walk_with (state_ok P) assign_state.
  - walk_with (state_ok P) assign_state.
  - walk_with (state_ok P) assign_state.
  - change (tasks (set_now t w)) with (tasks w).
    destruct (tasks w !! id) as [k|] eqn:Ek; [| walk (state_ok P)].
    destruct (resume k r _) as [w'|] eqn:Er; [| walk (state_ok P)].
    eapply resume_state; [| | exact Er]; [| walk (state_ok P)].
    intros s -> ->. apply Hr. by left.
  - by apply dispatch_state; walk (state_ok P).
Qed.

Lemma check_reply_reported w te s :
  s ∈ check_reply w te -> s ∈ reported [te].
Proof.
  unfold check_reply, reported. destruct te as [t []]; simpl; try done.
  destruct r; simpl; try done.
  destruct (tasks w !! id) as [[]|]; simpl; intros H;
    (done || by apply elem_of_nil in H).
Qed.

Lemma run_from_state evs : forall w,
  (forall s, s ∈ reported evs -> P s) ->
  state_ok P w -> state_ok P (run_from w evs).
Proof.
  induction evs as [|te evs IH]; intros w Hr H; [done |].
  simpl. apply IH.
  - intros s Hs. apply Hr. unfold reported. simpl.
    destruct te as [t []]; simpl; try done. destruct r; simpl; try done. by right.
  - apply step_state; [| done].
    intros s Hs. apply Hr. apply check_reply_reported in Hs.
    unfold reported in *. simpl in *.
    destruct (match te.2 with Settle _ (FulfilledWith s0) => Some s0 | _ => None end);
      [| by apply elem_of_nil in Hs].
    apply elem_of_cons in Hs as [-> | Hs]; [by left | by apply elem_of_nil in Hs].
Qed.

Lemma run_from_checked evs : forall w,
  (forall s, s ∈ check_replies w evs -> P s) ->
  state_ok P w -> state_ok P (run_from w evs).
Proof.
  induction evs as [|te evs IH]; intros w Hr H; [done |].
  simpl in *. apply IH.
  - intros s Hs. apply Hr, elem_of_app. by right.
  - apply step_state; [| done].
    intros s Hs. apply Hr, elem_of_app. by left.
Qed.

End states.

Lemma run_state evs :
  connectionState (run evs) ∈ assigned_states \/
  connectionState (run evs) ∈ reported evs.
Proof.
  apply (run_from_state (fun s => s ∈ reported evs) evs initial_world); [done |].
  left. by apply (bool_decide_unpack _).
Qed.

Lemma run_checked evs :
  connectionState (run evs) ∈ assigned_states \/
  connectionState (run evs) ∈ check_replies initial_world evs.
Proof.
  apply (run_from_checked (fun s => s ∈ check_replies initial_world evs) evs
           initial_world); [done |].
  left. by apply (bool_decide_unpack _).
Qed.

(** *** No second client within the minimum interval *)

Section interval.

Context (t1 : Z) (c : nat).

Lemma initializeWhatsAppClient_interval :
  Preserves (within_interval t1 c) initializeWhatsAppClient.
Proof.
  intros w H. unfold initializeWhatsAppClient.
  destruct (is_some (client w) || isClientDestroying w); [done |].
  destruct (now w - lastConnectionAttempt w <? MIN_RECONNECT_INTERVAL)%Z eqn:E; [done |].
  apply Z.ltb_ge in E. destruct H as (H1 & _ & H3). lia.
Qed.

#[local] Existing Instance initializeWhatsAppClient_interval.

Lemma dispatch_interval r w : within_interval t1 c w -> within_interval t1 c (dispatch r w).
Proof. intros H. destruct r; unfold dispatch; simpl; walk (within_interval t1 c). Qed.

Lemma resume_interval k r w w' :
  within_interval t1 c w -> resume k r w = Some w' -> within_interval t1 c w'.
Proof.
  intros H E. destruct k, r; simpl in E; try discriminate; injection E as <-;
    walk (within_interval t1 c).
Qed.

Lemma step_interval w te :
  (te.1 - t1 < MIN_RECONNECT_INTERVAL)%Z ->
  within_interval t1 c w -> within_interval t1 c (step w te).
Proof.
  intros Ht H.
  assert (within_interval t1 c (set_now te.1 w)) as H'.
  { destruct H as (H1 & H2 & _). by repeat split. }
  clear H. unfold step. cbv zeta. destruct te as [t []]; cbn [fst snd] in *.
  - walk (within_interval t1 c).
  - walk (within_interval t1 c).
  - walk (within_interval t1 c).
  - destruct (tasks (set_now t w) !! id) as [k|] eqn:Ek; [| done].
    destruct (resume k r _) as [w'|] eqn:Er; [| done].
    eapply resume_interval; [| exact Er]. walk (within_interval t1 c).
  - by apply dispatch_interval.
Qed.

Lemma run_from_interval evs : forall w,
  Forall (fun te => (te.1 - t1 < MIN_RECONNECT_INTERVAL)%Z) evs ->
  within_interval t1 c w -> within_interval t1 c (run_from w evs).
Proof.
  induction evs as [|te evs IH]; intros w Hall H; [done |].
  apply Forall_cons in Hall as [Ht Hall].
  simpl. apply IH; [done |]. by apply step_interval.
Qed.

End interval.

(** After a call that created a client at [t1], no event that arrives
    less than [MIN_RECONNECT_INTERVAL] later creates another one. *)
Lemma no_second_client w t1 evs :
  let w1 := initializeWhatsAppClient (set_now t1 w) in
  created_between w w1 = 1 ->
  Forall (fun te => (te.1 - t1 < MIN_RECONNECT_INTERVAL)%Z) evs ->
  clientsCreated (run_from w1 evs) = clientsCreated w1.
Proof.
  intros w1 Hc Hall.
  assert (within_interval t1 (clientsCreated w1) w1) as H.
  { subst w1. unfold created_between, initializeWhatsAppClient in *.
    destruct (is_some (client (set_now t1 w)) || isClientDestroying (set_now t1 w)).
    { cbn in Hc. lia. }
    destruct (now (set_now t1 w) - lastConnectionAttempt (set_now t1 w)
                <? MIN_RECONNECT_INTERVAL)%Z.
    { cbn in Hc. lia. }
    repeat split. cbn. unfold MIN_RECONNECT_INTERVAL. lia. }
  by destruct (run_from_interval t1 (clientsCreated w1) evs w1 Hall H) as (_ & ? & _).
Qed.

(** *** The reconnection timer *)

(** Read the fields of a world that is written out as assignments. *)
Ltac fields :=
  cbv [set_qrCodeData set_isLoggedIn set_loggedInNumber set_loggedInName
       set_profilePictureUrl set_connectionState set_client set_isClientDestroying
       set_reconnectionTimer set_monitoringTimer set_connectionCheckTimer
       set_lastConnectionAttempt set_reconnectionAttempts set_lastKnownState
       set_lastActiveTimestamp set_qrGenerationTime set_qrAttempts set_qrAutoRefresh
       set_now set_timers set_tasks set_nextId set_clientsCreated set_responses
       qrCodeData isLoggedIn loggedInNumber loggedInName profilePictureUrl
       connectionState client isClientDestroying reconnectionTimer monitoringTimer
       connectionCheckTimer lastConnectionAttempt reconnectionAttempts lastKnownState
       lastActiveTimestamp qrGenerationTime qrAttempts qrAutoRefresh now timers tasks
       nextId clientsCreated responses setTimer clearTimer suspend respond].

(** Case analysis on the variables that the tests read. *)
Ltac case_fields :=
  fields;
  repeat (match goal with
          | |- context [match ?x with _ => _ end] => is_var x; destruct x
          end; fields).

Lemma ok_next tm n r m c : timers_ok tm n r m c -> timers_ok tm (S n) r m c.
Proof.
  intros (H1 & H2 & H3 & H4 & H5). repeat split; try done.
  intros id Hid. apply H5. lia.
Qed.

Lemma ok_insert tm n r m c t :
  is_reconnection t = false ->
  timers_ok tm n r m c -> timers_ok (<[n := t]> tm) (S n) r m c.
Proof.
  intros Ht (H1 & H2 & H3 & H4 & H5).
  assert (tm !! n = None) as Hn by (apply H5; lia).
  repeat split.
  - intros id t' Hl Hr. apply lookup_insert_Some in Hl as [[<- <-] | [Hne Hl]];
      [congruence | eauto].
  - intros id Hid. destruct (H2 id Hid) as (t' & Hl & Hr). exists t'. split; [| done].
    rewrite lookup_insert_ne; [done | congruence].
  - intros id Hid. rewrite lookup_insert_ne; [eauto |]. specialize (H3 id Hid). congruence.
  - intros id Hid. rewrite lookup_insert_ne; [eauto |]. specialize (H4 id Hid). congruence.
  - intros id Hid. rewrite lookup_insert_ne; [| lia]. apply H5. lia.
Qed.

Lemma ok_new_reconnection tm n m c t :
  is_reconnection t = true ->
  timers_ok tm n None m c -> timers_ok (<[n := t]> tm) (S n) (Some n) m c.
Proof.
  intros Ht (H1 & H2 & H3 & H4 & H5).
  assert (tm !! n = None) as Hn by (apply H5; lia).
  repeat split.
  - intros id t' Hl Hr. apply lookup_insert_Some in Hl as [[<- <-] | [Hne Hl]]; [done |].
    by specialize (H1 id t' Hl Hr).
  - intros id [= <-]. exists t. by rewrite lookup_insert_eq.
  - intros id Hid. rewrite lookup_insert_ne; [eauto |]. specialize (H3 id Hid). congruence.
  - intros id Hid. rewrite lookup_insert_ne; [eauto |]. specialize (H4 id Hid). congruence.
  - intros id Hid. rewrite lookup_insert_ne; [| lia]. apply H5. lia.
Qed.

(** Deleting a timer keeps the handles that do not name it. *)
Lemma ok_delete tm n r m c id :
  r <> Some id -> m <> Some id -> c <> Some id ->
  (forall t, tm !! id = Some t -> is_reconnection t = false) ->
  timers_ok tm n r m c -> timers_ok (delete id tm) n r m c.
Proof.
  intros Hr Hm Hc Ht (H1 & H2 & H3 & H4 & H5). repeat split.
  - intros id' t' Hl' Hr'. apply lookup_delete_Some in Hl' as [Hne Hl']. eauto.
  - intros id' Hid. destruct (H2 id' Hid) as (t & Hl' & Hr'). exists t. split; [| done].
    rewrite lookup_delete_ne; [done | congruence].
  - intros id' Hid. rewrite lookup_delete_ne; [eauto | congruence].
  - intros id' Hid. rewrite lookup_delete_ne; [eauto | congruence].
  - intros id' Hid. apply lookup_delete_None. right. by apply H5.
Qed.

Lemma ok_clear_reconnection tm n m c id :
  timers_ok tm n (Some id) m c -> timers_ok (delete id tm) n None m c.
Proof.
  intros (H1 & H2 & H3 & H4 & H5).
  destruct (H2 id eq_refl) as (t & Hl & Hr).
  repeat split.
  - intros id' t' Hl' Hr'. apply lookup_delete_Some in Hl' as [Hne Hl'].
    specialize (H1 id' t' Hl' Hr'). congruence.
  - done.
  - intros id' Hid. specialize (H3 id' Hid).
    rewrite lookup_delete_ne; [done |]. intros <-. rewrite Hl in H3.
    injection H3 as ->. done.
  - intros id' Hid. specialize (H4 id' Hid).
    rewrite lookup_delete_ne; [done |]. intros <-. rewrite Hl in H4.
    injection H4 as ->. done.
  - intros id' Hid. apply lookup_delete_None. right. by apply H5.
Qed.

Lemma ok_clear_monitor tm n r c id :
  timers_ok tm n r (Some id) c -> timers_ok (delete id tm) n r None c.
Proof.
  intros (H1 & H2 & H3 & H4 & H5).
  pose proof (H3 id eq_refl) as Hl.
  repeat split.
  - intros id' t' Hl' Hr'. apply lookup_delete_Some in Hl' as [Hne Hl']. eauto.
  - intros id' Hid. destruct (H2 id' Hid) as (t & Hl' & Hr). exists t. split; [| done].
    rewrite lookup_delete_ne; [done |]. intros <-. rewrite Hl in Hl'.
    injection Hl' as <-. done.
  - done.
  - intros id' Hid. specialize (H4 id' Hid).
    rewrite lookup_delete_ne; [done |]. intros <-. congruence.
  - intros id' Hid. apply lookup_delete_None. right. by apply H5.
Qed.

Lemma ok_clear_check tm n r m id :
  timers_ok tm n r m (Some id) -> timers_ok (delete id tm) n r m None.
Proof.
  intros (H1 & H2 & H3 & H4 & H5).
  pose proof (H4 id eq_refl) as Hl.
  repeat split.
  - intros id' t' Hl' Hr'. apply lookup_delete_Some in Hl' as [Hne Hl']. eauto.
  - intros id' Hid. destruct (H2 id' Hid) as (t & Hl' & Hr). exists t. split; [| done].
    rewrite lookup_delete_ne; [done |]. intros <-. rewrite Hl in Hl'.
    injection Hl' as <-. done.
  - intros id' Hid. specialize (H3 id' Hid).
    rewrite lookup_delete_ne; [done |]. intros <-. congruence.
  - done.
  - intros id' Hid. apply lookup_delete_None. right. by apply H5.
Qed.

Lemma ok_new_monitor tm n r c :
  timers_ok tm n r None c -> timers_ok (<[n := MonitorTick]> tm) (S n) r (Some n) c.
Proof.
  intros H. apply (ok_insert tm n r None c MonitorTick) in H as (H1 & H2 & H3 & H4 & H5);
    [| done].
  repeat split; try done. intros id [= <-]. by rewrite lookup_insert_eq.
Qed.

Lemma ok_new_check tm n r m :
  timers_ok tm n r m None -> timers_ok (<[n := ConnectionCheck]> tm) (S n) r m (Some n).
Proof.
  intros H. apply (ok_insert tm n r m None ConnectionCheck) in H as (H1 & H2 & H3 & H4 & H5);
    [| done].
  repeat split; try done. intros id [= <-]. by rewrite lookup_insert_eq.
Qed.

(** A one-shot timer that is none of the three kept ones fires. *)
Lemma ok_fired tm n r m c id d :
  tm !! id = Some (Reinitialize d) ->
  timers_ok tm n r m c -> timers_ok (delete id tm) n r m c.
Proof.
  intros Hl H. pose proof H as (H1 & H2 & H3 & H4 & H5).
  apply ok_delete; [| | | | done].
  - intros ->. destruct (H2 id eq_refl) as (t & Hl' & Hr).
    rewrite Hl in Hl'. by injection Hl' as <-.
  - intros ->. specialize (H3 id eq_refl). congruence.
  - intros ->. specialize (H4 id eq_refl). congruence.
  - intros t Ht. rewrite Hl in Ht. by injection Ht as <-.
Qed.

Section timers.

Lemma suspend_timers k : Preserves timers_inv (suspend k).
Proof. intros []. unfold timers_inv. fields. apply ok_next. Qed.

#[local] Existing Instance suspend_timers.

Lemma setTimer_timers d : Preserves timers_inv (setTimer (Reinitialize d)).
Proof. intros []. unfold timers_inv. fields. by apply ok_insert. Qed.

#[local] Existing Instance setTimer_timers.

Lemma handleDisconnection_timers : Preserves timers_inv handleDisconnection.
Proof.
  intros []. unfold timers_inv, handleDisconnection. case_fields.
  all: intros Hinv; eauto using ok_clear_check, ok_new_reconnection.
Qed.

#[local] Existing Instance handleDisconnection_timers.

Lemma new_reconnection_timers w t :
  is_reconnection t = true -> reconnectionTimer w = None ->
  timers_inv w -> timers_inv (set_reconnectionTimer (Some (nextId w)) (setTimer t w)).
Proof.
  destruct w. unfold timers_inv. fields. intros Ht ->. by apply ok_new_reconnection.
Qed.

Lemma initialize_failed_timers : Preserves timers_inv initialize_failed.
Proof.
  intros w H. apply handleDisconnection_timers in H. revert H.
  unfold initialize_failed. cbv zeta. generalize (handleDisconnection w). clear w.
  intros w H. destruct (reconnectionTimer w) as [r|] eqn:E; [exact H |].
  by apply new_reconnection_timers.
Qed.

#[local] Existing Instance initialize_failed_timers.

Lemma startMonitoring_timers : Preserves timers_inv startMonitoring.
Proof.
  intros []. unfold timers_inv, startMonitoring. case_fields.
  all: intros Hinv; eauto using ok_clear_monitor, ok_new_monitor.
Qed.

#[local] Existing Instance startMonitoring_timers.

Lemma start_connection_check_timers :
  Preserves timers_inv start_connection_check.
Proof.
  intros []. unfold timers_inv, start_connection_check. case_fields.
  all: intros Hinv; eauto using ok_clear_check, ok_new_check.
Qed.

#[local] Existing Instance start_connection_check_timers.

Lemma clear_timers_timers : Preserves timers_inv clear_timers.
Proof.
  intros []. unfold timers_inv, clear_timers. case_fields.
  all: intros Hinv;
    eauto using ok_clear_monitor, ok_clear_check, ok_clear_reconnection.
Qed.

#[local] Existing Instance clear_timers_timers.

Lemma dispatch_timers r w : timers_inv w -> timers_inv (dispatch r w).
Proof. intros H. destruct r; unfold dispatch; simpl; walk timers_inv. Qed.

Lemma resume_timers k r w w' :
  timers_inv w -> resume k r w = Some w' -> timers_inv w'.
Proof.
  intros H E. destruct k, r; simpl in E; try discriminate; injection E as <-;
    walk timers_inv.
Qed.

Lemma fired_reconnection_timers w id t :
  timers_inv w -> timers w !! id = Some t -> is_reconnection t = true ->
  timers_inv (set_reconnectionTimer None (clearTimer id w)).
Proof.
  destruct w. unfold timers_inv. fields. intros H Hl Ht.
  apply ok_clear_reconnection. pose proof H as (H1 & _).
  by rewrite (H1 id t Hl Ht) in H.
Qed.

Lemma fired_timers w id d :
  timers_inv w -> timers w !! id = Some (Reinitialize d) ->
  timers_inv (clearTimer id w).
Proof.
  destruct w. unfold timers_inv. fields. intros H Hl. by eapply ok_fired.
Qed.

Lemma fire_timers w id t :
  timers_inv w -> timers w !! id = Some t ->
  timers_inv (fire t (if is_interval t then w else clearTimer id w)).
Proof.
  intros H Hl. destruct t; cbn [is_interval].
  - pose proof (fired_reconnection_timers w id _ H Hl eq_refl) as H'.
    unfold fire. walk timers_inv.
  - pose proof (fired_reconnection_timers w id _ H Hl eq_refl) as H'.
    unfold fire. walk timers_inv.
  - pose proof (fired_timers w id _ H Hl) as H'.
    unfold fire. walk timers_inv.
  - unfold fire. walk timers_inv.
  - unfold fire. walk timers_inv.
Qed.

Lemma step_timers w te : timers_inv w -> timers_inv (step w te).
Proof.
  intros H.
  assert (timers_inv (set_now te.1 w)) as H' by exact H.
  clear H. revert H'. unfold step. cbv zeta. generalize (set_now te.1 w). clear w.
  intros w H. destruct te as [t []]; cbn [fst snd] in *.
  - walk timers_inv.
  - walk timers_inv.
  - destruct (timers w !! id) as [tm|] eqn:E; [| done]. by apply fire_timers.
  - destruct (tasks w !! id) as [k|] eqn:Ek; [| done].
    destruct (resume k r _) as [w'|] eqn:Er; [| done].
    eapply resume_timers; [| exact Er]. walk timers_inv.
  - by apply dispatch_timers.
Qed.

Lemma run_timers evs : timers_inv (run evs).
Proof.
  unfold run, run_from.
  assert (timers_inv initial_world) as H.
  { repeat split; done. }
  revert H. generalize initial_world.
  induction evs as [|e evs IH]; intros w H; simpl; [done |].
  apply IH, step_timers, H.
Qed.

End timers.

(** ** The claims on the supervisor's functions *)

(** C5.  [destroyClient] is idempotent: a second call after the first
    has finished leaves the whole state, and so the client handle, the
    login flag, the connection state and the identity fields, as the
    first call left it; and a call made while a teardown is in progress
    returns at once without changing anything. *)
Theorem destroyClient_idempotent (w : world) (k : after_destroy) :
  destroyClient (destroyClient w) = destroyClient w /\
  (isClientDestroying w = true ->
   destroyClient_guard w = false /\
   destroyClient w = w /\
   await_destroyClient k w = after k w).
Proof.
  split.
  - unfold destroyClient, destroyClient_guard.
    destruct (is_some (client w) && negb (isClientDestroying w)) eqn:E.
    + reflexivity.
    + by rewrite E.
  - intros H.
    assert (destroyClient_guard w = false) as Hg.
    { unfold destroyClient_guard. rewrite H. apply andb_false_r. }
    unfold destroyClient, await_destroyClient. by rewrite Hg.
Qed.

Lemma destroyClient_idempotent_witness :
  destroyClient (destroyClient tearing_down) = destroyClient tearing_down /\
  destroyClient_guard tearing_down = false /\
  destroyClient tearing_down = tearing_down /\
  await_destroyClient QrBurst tearing_down = after QrBurst tearing_down.
Proof.
  destruct (destroyClient_idempotent tearing_down QrBurst) as [H1 H2].
  split; [exact H1 | apply H2]. vm_compute. reflexivity.
Defined.

(** What the first call leaves behind. *)
Lemma destroyClient_end_state w :
  destroyClient_guard w = true ->
  let w' := destroyClient w in
  client w' = None /\ isClientDestroying w' = false /\ isLoggedIn w' = false /\
  connectionState w' = "DISCONNECTED" /\ profilePictureUrl w' = "" /\
  loggedInName w' = "".
Proof.
  intros H. unfold destroyClient. rewrite H. by repeat split.
Qed.

(** C6.  [initializeWhatsAppClient] does nothing at all when a client
    exists, when a teardown is in progress, or when the last attempt is
    less than [MIN_RECONNECT_INTERVAL] old; so of two calls closer
    together than that interval at most one creates a client, and when
    the first one does, the second changes neither the client nor the
    connection state.  More generally, once a call has created a client,
    no event that arrives within the interval creates another one. *)
Theorem second_start_is_refused (w : world) (t1 t2 : Z) :
  (t2 - t1 < MIN_RECONNECT_INTERVAL)%Z ->
  let w1 := initializeWhatsAppClient (set_now t1 w) in
  let w2 := initializeWhatsAppClient (set_now t2 w1) in
  (is_some (client w) || isClientDestroying w = true ->
   initializeWhatsAppClient w = w) /\
  ((now w - lastConnectionAttempt w < MIN_RECONNECT_INTERVAL)%Z ->
   initializeWhatsAppClient w = w) /\
  created_between w w2 <= 1 /\
  (created_between w w1 = 1 ->
   w2 = set_now t2 w1 /\ lastConnectionAttempt w1 = t1 /\
   forall evs,
     Forall (fun te : Z * event => (te.1 - t1 < MIN_RECONNECT_INTERVAL)%Z) evs ->
     clientsCreated (run_from w1 evs) = clientsCreated w1).
Proof.
  intros Ht w1 w2. split; [| split; [| split]].
  - intros H. unfold initializeWhatsAppClient. by rewrite H.
  - intros H. unfold initializeWhatsAppClient.
    destruct (is_some (client w) || isClientDestroying w); [done |].
    apply Z.ltb_lt in H. by rewrite H.
  - subst w1 w2. unfold created_between, initializeWhatsAppClient, MIN_RECONNECT_INTERVAL in *.
    simpl.
    destruct (is_some (client w) || isClientDestroying w) eqn:E1; simpl.
    + rewrite E1. simpl. lia.
    + destruct (t1 - lastConnectionAttempt w <? 30000)%Z eqn:E2; simpl.
      * rewrite E1. destruct (t2 - lastConnectionAttempt w <? 30000)%Z; simpl; lia.
      * lia.
  - intros Hc.
    assert (w2 = set_now t2 w1 /\ lastConnectionAttempt w1 = t1) as [H2 H1].
    { revert Hc. subst w1 w2.
      unfold created_between, initializeWhatsAppClient, MIN_RECONNECT_INTERVAL in *.
      simpl.
      destruct (is_some (client w) || isClientDestroying w) eqn:E1; simpl; [lia |].
      destruct (t1 - lastConnectionAttempt w <? 30000)%Z eqn:E2; simpl; [lia |].
      intros _. done. }
    split; [exact H2 | split; [exact H1 |]].
    intros evs Hall. by apply (no_second_client w t1 evs).
Qed.

Lemma second_start_is_refused_witness :
  let w1 := initializeWhatsAppClient (set_now t0 initial_world) in
  let w2 := initializeWhatsAppClient (set_now (t0 + 5000) w1) in
  let evs := [ (t0 + 1000, Emit Disconnected); (t0 + 6000, Fire 1) ]%Z in
  created_between initial_world w2 <= 1 /\
  w2 = set_now (t0 + 5000) w1 /\ lastConnectionAttempt w1 = t0 /\
  clientsCreated (run_from w1 evs) = clientsCreated w1.
Proof.
  intros w1 w2 evs.
  destruct (second_start_is_refused initial_world t0 (t0 + 5000)) as (_ & _ & H1 & H2).
  - vm_compute. reflexivity.
  - destruct H2 as (Ha & Hb & Hc); [vm_compute; reflexivity |].
    refine (conj H1 (conj Ha (conj Hb (Hc evs _)))).
    repeat constructor.
Defined.

(** C7.  When the liveness query of [checkActiveConnection] or of the
    monitor fails, nothing changes as long as the last successful check
    is at most 30 seconds old; the disconnection handler runs exactly
    when it is older.  In particular a failure that comes within 30
    seconds of a successful check is ignored. *)
Theorem transient_check_failure_is_tolerated (w : world) (error_message state : string)
    (t : Z) :
  ((now w - lastActiveTimestamp w <= 30000)%Z ->
   resume AwaitCheckState (Rejected error_message) w = Some w /\
   resume AwaitMonitorState (Rejected error_message) w = Some w) /\
  ((30000 < now w - lastActiveTimestamp w)%Z ->
   resume AwaitCheckState (Rejected error_message) w = Some (handleDisconnection w) /\
   resume AwaitMonitorState (Rejected error_message) w = Some (handleDisconnection w)) /\
  ((t - now w <= 30000)%Z ->
   forall w1, resume AwaitCheckState (FulfilledWith state) w = Some w1 ->
   resume AwaitCheckState (Rejected error_message) (set_now t w1) = Some (set_now t w1)).
Proof.
  split; [| split].
  - intros H. simpl.
    destruct (30000 <? now w - lastActiveTimestamp w)%Z eqn:E; [| done].
    apply Z.ltb_lt in E. lia.
  - intros H. simpl. apply Z.ltb_lt in H. by rewrite H.
  - intros H w1 E. simpl in E. injection E as <-.
    assert (forall w', lastActiveTimestamp (handleDisconnection w') = lastActiveTimestamp w') as Hd.
    { intros w'. unfold handleDisconnection. simpl.
      destruct (connectionCheckTimer w'); simpl; by destruct (reconnectionTimer w'). }
    assert (forall x, now (set_now t x) = t) as Hn by done.
    assert (forall x, lastActiveTimestamp (set_now t x) = lastActiveTimestamp x)
      as Hl by done.
    cbn [resume]. rewrite Hn, Hl.
    match goal with
    | |- context [lastActiveTimestamp ?x] =>
        assert (lastActiveTimestamp x = now w) as ->
    end.
    { destruct (String.eqb state "CONNECTED"); [done |].
      destruct (String.eqb state "DISCONNECTED"); [by rewrite Hd | done]. }
    destruct (30000 <? t - now w)%Z eqn:E; [apply Z.ltb_lt in E; lia | done].
Qed.

Lemma transient_check_failure_is_tolerated_witness :
  let late := set_now (t0 + 32300) checked in
  let later := set_now (t0 + 60000) checked in
  resume AwaitCheckState (Rejected "timeout") late = Some late /\
  resume AwaitMonitorState (Rejected "timeout") late = Some late /\
  resume AwaitCheckState (Rejected "timeout") later = Some (handleDisconnection later) /\
  resume AwaitMonitorState (Rejected "timeout") later = Some (handleDisconnection later).
Proof.
  intros late later.
  destruct (transient_check_failure_is_tolerated late "timeout" "CONNECTED" 0) as (H1 & _ & _).
  destruct (transient_check_failure_is_tolerated later "timeout" "CONNECTED" 0) as (_ & H2 & _).
  destruct H1 as [H1 H1']; [vm_compute; discriminate |].
  destruct H2 as [H2 H2']; [vm_compute; reflexivity |].
  exact (conj H1 (conj H1' (conj H2 H2'))).
Defined.

(** C10.  [/ping] answers every request with status 200.  A request to
    [GET /ping] runs the handler of [/ping].  When the session is not
    connected the handler answers at once with [success: false];
    otherwise it waits for [client.getState()], and when that settles it
    answers [success: true] if the call resolved and [success: false]
    with status text ["ERROR"] if it threw.  In every run of the server,
    every response that the supervisor's routes have sent carries status
    200. *)
Theorem ping_always_answers_200 (w : world) (t t' : Z) (state error_message : string) :
  let requested := step w (t, Request GET_ping) in
  (dispatch GET_ping w = get_ping w /\ requested = get_ping (set_now t w)) /\
  (connected w = false ->
   requested
   = respond (Response "/ping" 200 false (connectionState w) "WhatsApp not connected")
             (set_now t w)) /\
  (connected w = true ->
   requested = suspend AwaitPingState (set_now t w) /\
   responses requested = responses w /\
   responses (step requested (t', Settle (nextId w) (FulfilledWith state)))
   = responses w ++ [Response "/ping" 200 true state "Connection active"] /\
   responses (step requested (t', Settle (nextId w) (Rejected error_message)))
   = responses w ++
       [Response "/ping" 200 false "ERROR" ("Failed to check state: " +:+ error_message)]) /\
  (exists w', resume AwaitPingState (FulfilledWith state) w = Some w' /\
     responses w' = responses w ++ [Response "/ping" 200 true state "Connection active"]) /\
  (exists w', resume AwaitPingState (Rejected error_message) w = Some w' /\
     responses w' = responses w ++
       [Response "/ping" 200 false "ERROR" ("Failed to check state: " +:+ error_message)]) /\
  (forall evs r, r ∈ responses (run evs) -> res_code r = 200).
Proof.
  cbv zeta.
  assert (step w (t, Request GET_ping) = get_ping (set_now t w)) as -> by reflexivity.
  unfold connected, get_ping.
  split; [by split |]. split; [| split; [| split; [| split]]].
  - intros H.
    change (isLoggedIn (set_now t w)) with (isLoggedIn w).
    change (client (set_now t w)) with (client w).
    destruct (isLoggedIn w), (is_some (client w)); done.
  - intros H.
    change (isLoggedIn (set_now t w)) with (isLoggedIn w).
    change (client (set_now t w)) with (client w).
    destruct (isLoggedIn w), (is_some (client w)); try done.
    cbn [negb orb].
    destruct w as [q l ln lnm pp cs cl dcl rt mt ct lca ra lks lat qgt qa qar
                   nw tm tk nid cc rs].
    unfold step. cbn [fst snd]. fields. rewrite lookup_insert_eq. cbn [resume].
    by fields.
  - eexists. split; reflexivity.
  - eexists. split; reflexivity.
  - intros evs r Hr. pose proof (run_200 evs) as H.
    unfold all_200 in H. rewrite Forall_forall in H. by apply H.
Qed.

Lemma ping_always_answers_200_witness :
  responses (step tearing_down (t0 + 2000, Request GET_ping)%Z)
  = [Response "/ping" 200 false "INITIALIZING" "WhatsApp not connected"] /\
  responses (step (step checked (t0 + 20000, Request GET_ping)%Z)
                  (t0 + 20100, Settle (nextId checked) (FulfilledWith "CONNECTED"))%Z)
  = [Response "/ping" 200 true "CONNECTED" "Connection active"] /\
  responses (step (step checked (t0 + 20000, Request GET_ping)%Z)
                  (t0 + 20100, Settle (nextId checked) (Rejected "timeout"))%Z)
  = [Response "/ping" 200 false "ERROR" "Failed to check state: timeout"].
Proof.
  destruct (ping_always_answers_200 tearing_down (t0 + 2000) 0 "" "") as (_ & H1 & _).
  destruct (ping_always_answers_200 checked (t0 + 20000) (t0 + 20100)
              "CONNECTED" "timeout") as (_ & _ & H2 & _).
  split.
  - rewrite H1; [| vm_compute; reflexivity]. vm_compute. reflexivity.
  - destruct H2 as (_ & _ & H3 & H4); [vm_compute; reflexivity |].
    split; [exact H3 | exact H4].
Defined.

(** ** The connection state and the reconnection timer *)

(** The reconnection timers are counted by the handle. *)
Lemma pending_of_handle tm n r m c :
  timers_ok tm n r m c ->
  size (filter (fun kt : nat * timer => is_reconnection kt.2 = true) tm)
  = if is_some r then 1 else 0.
Proof.
  intros (H1 & H2 & _). destruct r as [id|].
  - destruct (H2 id eq_refl) as (t & Hl & Ht).
    replace (filter _ tm) with ({[ id := t ]} : gmap nat timer);
      [apply map_size_singleton |].
    apply map_eq. intros i. symmetry.
    destruct (decide (i = id)) as [->|Hne].
    + rewrite lookup_singleton_eq. by apply map_lookup_filter_Some.
    + rewrite lookup_singleton_ne; [| done].
      apply map_lookup_filter_None. right. intros t' Hl' Ht'.
      specialize (H1 i t' Hl' Ht'). congruence.
  - replace (filter _ tm) with (∅ : gmap nat timer); [apply map_size_empty |].
    apply map_eq. intros i. symmetry. rewrite lookup_empty.
    apply map_lookup_filter_None. right. intros t' Hl' Ht'.
    specialize (H1 i t' Hl' Ht'). congruence.
Qed.

Lemma pending_reconnections_handle w :
  timers_inv w ->
  pending_reconnections w = if is_some (reconnectionTimer w) then 1 else 0.
Proof. apply pending_of_handle. Qed.

Lemma handleDisconnection_handle w :
  is_some (reconnectionTimer (handleDisconnection w)) = true.
Proof.
  destruct w. unfold handleDisconnection. case_fields. all: done.
Qed.

Lemma handleDisconnection_state w :
  connectionState (handleDisconnection w) = "DISCONNECTED".
Proof.
  destruct w. unfold handleDisconnection. case_fields. all: done.
Qed.

(** The timers kept in the handle are among those that restart the
    client. *)
Lemma pending_reconnections_restarts w :
  pending_reconnections w <= pending_restarts w.
Proof.
  apply map_subseteq_size, map_filter_subseteq_ext.
  intros id t _ Ht. simpl in *. by destruct t.
Qed.

(** [destroyClient] arms no timer and leaves the handle alone. *)
Lemma destroyClient_timers w :
  destroyClient_guard w = true ->
  connectionState (destroyClient w) = "DISCONNECTED" /\
  timers (destroyClient w) = timers w /\
  reconnectionTimer (destroyClient w) = reconnectionTimer w.
Proof. intros H. unfold destroyClient. by rewrite H. Qed.

(** C1, as amended.  For every sequence of events of the event loop
    (start-up, provider events, timer firings, settled provider calls and
    HTTP requests):
    - the connection state is one of the ten literals the code assigns,
      or a state that [client.getState()] returned to
      [checkActiveConnection] earlier in the run;
    - at most one timer is pending for the [reconnectionTimer] handle
      (the callbacks of [handleDisconnection] and of the [catch] around
      [client.initialize()]), and one is pending exactly when the handle
      is set;
    - right after [handleDisconnection] has run, the state is
      DISCONNECTED and exactly one such timer is pending.
    The restart timers that other handlers arm with a bare [setTimeout]
    are not kept in the handle, and several can be pending at once (three
    of them, beside the one of the handle, after three authentication
    failures).
    [destroyClient] sets the state to DISCONNECTED too, arms no timer and
    leaves the handle as it is, so the state can be DISCONNECTED with no
    restart timer of either kind pending. *)
Theorem supervisor_state_and_reconnection_timer (evs : list (Z * event)) :
  (connectionState (run evs) ∈ assigned_states \/
   connectionState (run evs) ∈ check_replies initial_world evs) /\
  (pending_reconnections (run evs) <= 1 /\
   (pending_reconnections (run evs) = 1 <->
    is_some (reconnectionTimer (run evs)) = true) /\
   pending_reconnections (run evs) <= pending_restarts (run evs)) /\
  (connectionState (handleDisconnection (run evs)) = "DISCONNECTED" /\
   pending_reconnections (handleDisconnection (run evs)) = 1) /\
  (exists evs', pending_reconnections (run evs') = 1 /\
                pending_restarts (run evs') = 4) /\
  (destroyClient_guard (run evs) = true ->
   connectionState (destroyClient (run evs)) = "DISCONNECTED" /\
   timers (destroyClient (run evs)) = timers (run evs) /\
   reconnectionTimer (destroyClient (run evs)) = reconnectionTimer (run evs)) /\
  (exists evs', connectionState (run evs') = "DISCONNECTED" /\
                pending_restarts (run evs') = 0).
Proof.
  pose proof (run_timers evs) as Hinv.
  pose proof (pending_reconnections_handle _ Hinv) as Hp.
  split; [apply run_checked |].
  split; [split; [| split] |].
  - rewrite Hp. destruct (is_some (reconnectionTimer (run evs))); lia.
  - rewrite Hp. destruct (is_some (reconnectionTimer (run evs))); split; (done || lia).
  - apply pending_reconnections_restarts.
  - split; [split; [apply handleDisconnection_state |] |].
    + pose proof (handleDisconnection_handle (run evs)) as Hh.
      rewrite pending_reconnections_handle; [by rewrite Hh |].
      by apply handleDisconnection_timers.
    + split; [| split; [apply destroyClient_timers |]].
      * exists auth_failure_events. split; vm_compute; reflexivity.
      * exists burst_events. split; vm_compute; reflexivity.
Qed.

Lemma supervisor_state_and_reconnection_timer_witness :
  connectionState (destroyClient (run [ (t0, Boot) ])) = "DISCONNECTED" /\
  timers (destroyClient (run [ (t0, Boot) ])) = timers (run [ (t0, Boot) ]) /\
  reconnectionTimer (destroyClient (run [ (t0, Boot) ])) = None.
Proof.
  destruct (supervisor_state_and_reconnection_timer [ (t0, Boot) ])
    as (_ & _ & _ & _ & H & _).
  destruct H as (H1 & H2 & H3); [vm_compute; reflexivity |].
  split; [exact H1 |]. split; [exact H2 |]. rewrite H3. vm_compute. reflexivity.
Defined.

(** C1 as stated does not hold.  A connection check stores the
    provider's own state string, which is none of the nine enumerated
    values.  After six QR codes in a row the client is torn down, which
    sets the state to DISCONNECTED; the restart fires 3 seconds later,
    inside the minimum interval between connection attempts, and is
    refused: the state is DISCONNECTED and no timer that would restart
    the client is pending.  After three authentication failures the
    state is DISCONNECTED and four such timers are pending. *)
Lemma state_outside_enumeration_and_no_pending_timer :
  (connectionState (run opening_events) = "OPENING" /\
   connectionState (run opening_events) ∉ enumerated_states) /\
  (connectionState (run burst_events) = "DISCONNECTED" /\
   reconnectionTimer (run burst_events) = None /\
   pending_reconnections (run burst_events) = 0 /\
   pending_restarts (run burst_events) = 0) /\
  (connectionState (run auth_failure_events) = "DISCONNECTED" /\
   pending_restarts (run auth_failure_events) = 4).
Proof.
  assert (connectionState (run opening_events) = "OPENING") as E
    by (vm_compute; reflexivity).
  split; [split; [exact E |] |].
  - rewrite E. unfold enumerated_states. intros H.
    repeat (apply elem_of_cons in H as [H | H]; [discriminate |]).
    by apply elem_of_nil in H.
  - repeat split; vm_compute; reflexivity.
Qed.

(** * Further properties of the code *)

(** ** Normalisation of targets *)

Lemma string_prefix_refl p : String.prefix p p = true.
Proof. induction p as [|c p IH]; simpl; [done |]. by destruct (ascii_dec c c). Qed.

Lemma includes_unfold p c t :
  includes p (String c t) = String.prefix p (String c t) || includes p t.
Proof. reflexivity. Qed.

Lemma includes_suffix p s : includes p (s +:+ p) = true.
Proof.
  induction s as [|c s IH].
  - change (EmptyString +:+ p) with p.
    destruct p as [|a p]; [done |]. rewrite includes_unfold, string_prefix_refl. done.
  - change (String c s +:+ p) with (String c (s +:+ p)).
    rewrite includes_unfold, IH. apply orb_true_r.
Qed.

Lemma length_app_string (a b : string) :
  String.length (a +:+ b) = String.length a + String.length b.
Proof. induction a as [|c a IH]; simpl; [done | by rewrite IH]. Qed.

(** X1.  The normalisation of [/api/send-bulk-qr] is idempotent: its
    result always contains the routing domain, so normalising it again
    changes nothing. *)
Theorem formatNumberQr_idempotent (s : string) :
  includes "@c.us" (formatNumberQr s) = true /\
  formatNumberQr (formatNumberQr s) = formatNumberQr s.
Proof.
  assert (includes "@c.us" (formatNumberQr s) = true) as H.
  { unfold formatNumberQr. destruct (includes "@c.us" s) eqn:E; [done |].
    destruct (startsWith "+" s); apply includes_suffix. }
  split; [exact H |].
  generalize dependent (formatNumberQr s). intros a Ha.
  unfold formatNumberQr. by rewrite Ha.
Qed.

(** X2.  The normalisation of [/api/send-messages] and [/api/send-bulk]
    has no fixed point: the result is at least four characters longer
    than the target, so no target at all, canonical or not, is passed
    through unchanged, and normalising twice never gives the same as
    normalising once. *)
Theorem formatNumber_never_passes_through (s : string) :
  String.length s + 4 <= String.length (formatNumber s) /\
  formatNumber s <> s /\
  formatNumber (formatNumber s) <> formatNumber s.
Proof.
  assert (forall a, String.length a + 4 <= String.length (formatNumber a)) as Hlen.
  { intros a. unfold formatNumber. destruct (startsWith "+" a).
    - rewrite length_app_string. destruct a; simpl; lia.
    - rewrite length_app_string. simpl. lia. }
  assert (forall a, formatNumber a <> a) as Hne.
  { intros a E. pose proof (Hlen a) as H. rewrite E in H. lia. }
  split; [apply Hlen | split; apply Hne].
Qed.

(** *** The pattern [/^\d+@c\.us$/] *)

Lemma digits_then_cus_unfold s :
  digits_then_cus s
  = String.eqb s "@c.us" ||
    match s with
    | EmptyString => false
    | String c t => is_digit c && digits_then_cus t
    end.
Proof. by destruct s. Qed.

Lemma digits_then_cus_shape s :
  digits_then_cus s = true -> exists d, all_digits d = true /\ s = d +:+ "@c.us".
Proof.
  induction s as [|c t IH]; intros H; rewrite digits_then_cus_unfold in H.
  - done.
  - apply orb_true_iff in H as [H | H].
    + apply String.eqb_eq in H. by exists EmptyString.
    + apply andb_true_iff in H as [Hc Ht].
      destruct (IH Ht) as (d & Hd & ->).
      exists (String c d). split; [simpl; by rewrite Hc, Hd | done].
Qed.

Lemma digits_then_cus_digits d :
  all_digits d = true -> digits_then_cus (d +:+ "@c.us") = true.
Proof.
  induction d as [|c d IH]; intros H; [done |].
  simpl in H. apply andb_true_iff in H as [Hc Hd].
  change (String c d +:+ "@c.us") with (String c (d +:+ "@c.us")).
  rewrite digits_then_cus_unfold, Hc, (IH Hd). apply orb_true_r.
Qed.

Lemma match_number_pattern_shape a :
  match_number_pattern a = true <->
  exists d, d <> EmptyString /\ all_digits d = true /\ a = d +:+ "@c.us".
Proof.
  split.
  - destruct a as [|c t]; [done |]. simpl. intros H.
    apply andb_true_iff in H as [Hc Ht].
    destruct (digits_then_cus_shape t Ht) as (d & Hd & ->).
    exists (String c d). repeat split; [done | simpl; by rewrite Hc, Hd].
  - intros (d & Hne & Hd & ->). destruct d as [|c d]; [done |].
    simpl in Hd. apply andb_true_iff in Hd as [Hc Hd].
    change (String c d +:+ "@c.us") with (String c (d +:+ "@c.us")).
    simpl. by rewrite Hc, digits_then_cus_digits.
Qed.

Lemma prefix_cons a p c t :
  String.prefix (String a p) (String c t)
  = if ascii_dec a c then String.prefix p t else false.
Proof. reflexivity. Qed.

Lemma digits_no_domain d : all_digits d = true -> includes "@c.us" d = false.
Proof.
  induction d as [|c d IH]; intros H; [done |].
  simpl in H. apply andb_true_iff in H as [Hc Hd].
  rewrite includes_unfold, (IH Hd), orb_false_r.
  change "@c.us" with (String "@"%char "c.us"). rewrite prefix_cons.
  destruct (ascii_dec "@"%char c) as [e | ?]; [| done].
  exfalso. clear -Hc e. subst c. by vm_compute in Hc.
Qed.

Lemma digits_no_plus d : all_digits d = true -> startsWith "+" d = false.
Proof.
  destruct d as [|c d]; [done |]. intros H. simpl in H.
  apply andb_true_iff in H as [Hc _]. unfold startsWith.
  change "+" with (String "+"%char EmptyString). rewrite prefix_cons.
  destruct (ascii_dec "+"%char c) as [e | ?]; [| done].
  exfalso. clear -Hc e. subst c. by vm_compute in Hc.
Qed.

(** X3.  [/api/send-bulk-qr] accepts a target exactly when it normalises
    to a non-empty run of ASCII digits followed by ["@c.us"].  The three
    spellings of a number (bare digits, with a leading [+], already
    suffixed) are accepted and give the same address; every address it
    accepts has that shape; a [number] that is not a string is rejected. *)
Theorem validNumberQr_accepts_digits :
  (forall d, d <> EmptyString -> all_digits d = true ->
     validNumberQr (JStr d) = Some (d +:+ "@c.us") /\
     validNumberQr (JStr ("+" +:+ d)) = Some (d +:+ "@c.us") /\
     validNumberQr (JStr (d +:+ "@c.us")) = Some (d +:+ "@c.us")) /\
  (forall n a, validNumberQr n = Some a ->
     exists d, d <> EmptyString /\ all_digits d = true /\ a = d +:+ "@c.us") /\
  validNumberQr JOther = None.
Proof.
  split; [| split; [| done]].
  - intros d Hne Hd.
    assert (match_number_pattern (d +:+ "@c.us") = true) as Hm
      by (apply match_number_pattern_shape; eauto).
    pose proof (digits_no_domain d Hd) as Hi.
    pose proof (digits_no_plus d Hd) as Hp.
    destruct (formatNumberQr_plus d Hp Hi) as [E1 E2].
    unfold validNumberQr. rewrite E1, E2, Hm.
    rewrite formatNumberQr_canonical by done. by rewrite Hm.
  - intros [s|] a; simpl; [| done].
    destruct (match_number_pattern (formatNumberQr s)) eqn:E; [| done].
    intros [= <-]. by apply match_number_pattern_shape.
Qed.

Lemma validNumberQr_accepts_digits_witness :
  validNumberQr (JStr "15551234567") = Some "15551234567@c.us" /\
  validNumberQr (JStr "+15551234567") = Some "15551234567@c.us" /\
  validNumberQr (JStr "15551234567@c.us") = Some "15551234567@c.us" /\
  exists d, d <> EmptyString /\ all_digits d = true /\ "15551234567@c.us" = d +:+ "@c.us".
Proof.
  destruct validNumberQr_accepts_digits as (H1 & H2 & _).
  destruct (H1 "15551234567") as (Ha & Hb & Hc); [done | reflexivity |].
  refine (conj Ha (conj Hb (conj Hc (H2 (JStr "15551234567") _ _)))).
  reflexivity.
Defined.

(** ** A job ends at the first element it cannot read *)

Lemma prefix_length_le ok messages : prefix_length ok messages <= length messages.
Proof.
  induction messages as [|[m|] rest IH]; simpl; [lia | | lia].
  destruct (ok m); simpl; lia.
Qed.

Lemma prefix_length_lookup ok messages : forall i,
  i < prefix_length ok messages ->
  exists m, messages !! i = Some (Some m) /\ ok m = true.
Proof.
  induction messages as [|[m|] rest IH]; simpl; intros i Hi; [lia | | lia].
  destruct (ok m) eqn:Hok; [| lia].
  destruct i as [|i]; simpl; [eauto |]. apply IH. lia.
Qed.

Lemma prefix_length_stop ok messages :
  prefix_length ok messages < length messages ->
  messages !! prefix_length ok messages = Some None \/
  exists m, messages !! prefix_length ok messages = Some (Some m) /\ ok m = false.
Proof.
  induction messages as [|[m|] rest IH]; simpl; intros Hlt; [lia | | by left].
  destruct (ok m) eqn:Hok; simpl; [apply IH; lia | eauto].
Qed.

(** The prefix is the longest one. *)
Lemma prefix_length_first ok messages k :
  (forall i, i < k -> exists m, messages !! i = Some (Some m) /\ ok m = true) ->
  (k = length messages \/ messages !! k = Some None \/
   exists m, messages !! k = Some (Some m) /\ ok m = false) ->
  prefix_length ok messages = k.
Proof.
  revert k. induction messages as [|e rest IH]; intros k Hbefore Hk.
  - destruct k as [|k]; [done |].
    destruct (Hbefore 0 ltac:(lia)) as (m & Hm & _). done.
  - destruct k as [|k].
    + simpl. destruct Hk as [Hk | [Hk | (m & Hk & Hok)]]; [done | |].
      * simpl in Hk. by injection Hk as ->.
      * simpl in Hk. injection Hk as ->. by rewrite Hok.
    + destruct (Hbefore 0 ltac:(lia)) as (m & Hm & Hok).
      simpl in Hm. injection Hm as ->. simpl. rewrite Hok. f_equal.
      apply IH.
      * intros i Hi. apply (Hbefore (S i)). lia.
      * destruct Hk as [Hk | Hk]; [left; simpl in Hk; lia | by right].
Qed.

Lemma prefix_length_all ok messages :
  prefix_length ok messages = length messages <->
  Forall (fun e => match e with Some m => ok m = true | None => False end) messages.
Proof.
  induction messages as [|[m|] rest IH]; simpl.
  - split; [constructor | done].
  - pose proof (prefix_length_le ok rest) as Hle.
    destruct (ok m) eqn:Hok.
    + rewrite Forall_cons, <- IH. split; [intros [= ->]; by split | intros [_ ->]; done].
    + split; [done |]. intros [H _]%Forall_cons. congruence.
  - split; [done |]. by intros [H _]%Forall_cons.
Qed.

(** No element is [null]. *)
Lemma objects_before_all messages :
  objects_before messages = length messages <-> Forall is_Some messages.
Proof.
  unfold objects_before. rewrite prefix_length_all.
  apply Forall_iff. by intros [m|]; split; try done; intros [? ?].
Qed.

(** Every element is an object whose number is a string. *)
Lemma strings_before_all messages :
  strings_before messages = length messages <-> well_formed messages.
Proof.
  unfold strings_before, well_formed. rewrite prefix_length_all.
  apply Forall_iff. intros [m|]; [| done]. by destruct (number m).
Qed.

Lemma items_app t1 t2 : items (t1 ++ t2) = items t1 ++ items t2.
Proof. unfold items. apply omap_app. Qed.

Lemma terminals_app t1 t2 : terminals (t1 ++ t2) = terminals t1 ++ terminals t2.
Proof. unfold terminals. apply omap_app. Qed.

(** A pause after [m] changes nothing that [runs_up_to] sees. *)
Lemma runs_up_to_pause start k (m : D unit) (pause : bool) ms st :
  runs_up_to (Some tt) start k m st ->
  runs_up_to (Some tt) start k (m ;; if pause then sleep ms else mret tt) st.
Proof.
  intros (st1 & e1 & E1 & T1 & O1 & C1 & I1).
  unfold runs_up_to, mbind, D_bind. rewrite E1. destruct pause; simpl.
  - eexists _, (e1 ++ [Sleep ms]). split; [reflexivity |]. simpl.
    rewrite T1, app_assoc, terminals_app, items_app, O1, !app_nil_r.
    repeat split; done.
  - by exists st1, e1.
Qed.

Lemma runs_up_to_thrown {A} start k (m : D unit) (f : D A) st :
  runs_up_to None start k m st ->
  runs_up_to None start k (m ;; f) st.
Proof.
  intros (st1 & e1 & E1 & H). exists st1, e1.
  unfold mbind, D_bind. by rewrite E1.
Qed.

Section up_to.
Context (body : nat -> D unit) (k : nat).
Context (Hsettles : forall i, i < k -> settles_as terminal i (body i)).
Context (Habout : forall i, emits_about i (body i)).

(** The messages from [start] to the end of the range are settled in
    order when [k] is the end of the range; otherwise [body k] throws at
    once and the loop ends there. *)
Lemma for_range_up_to n : forall start st,
  start <= k <= start + n ->
  (k < start + n -> forall s, body k s = (None, s)) ->
  runs_up_to (if decide (k = start + n) then Some tt else None) start k
    (for_range n start body) st.
Proof.
  unfold runs_up_to.
  induction n as [|n IH]; intros start st Hk Hthrow.
  - assert (k = start) as -> by lia. rewrite decide_True by lia.
    exists st, []. rewrite Nat.sub_diag, app_nil_r. repeat split; (done || lia).
  - simpl. unfold mbind, D_bind.
    destruct (decide (start = k)) as [-> | Hne].
    + rewrite Hthrow by lia. rewrite decide_False by lia.
      exists st, []. rewrite Nat.sub_diag, app_nil_r. repeat split; (done || lia).
    + destruct (Hsettles start ltac:(lia) st) as ([] & st1 & e1 & E1 & T1 & O1 & C1).
      destruct (Habout start st) as (e1' & T1' & I1).
      rewrite E1 in T1'. simpl in T1'. rewrite T1 in T1'.
      apply app_inv_head in T1'. subst e1'.
      destruct (IH (S start) st1) as (st2 & e2 & E2 & T2 & O2 & C2 & I2); [lia | |].
      { intros Hlt. apply Hthrow. lia. }
      rewrite E1. replace (start + S n) with (S start + n) by lia.
      exists st2, (e1 ++ e2). split; [exact E2 |].
      rewrite T2, T1, app_assoc, terminals_app, items_app.
      unfold terminals at 1. rewrite O1, O2.
      replace (k - start) with (S (k - S start)) by lia.
      repeat split; [lia |].
      apply Forall_app. split; [| done].
      eapply Forall_impl; [exact I1 |]. intros j ->. lia.
Qed.

End up_to.

Section batches.
Context (batch : nat -> D unit) (step stop k : nat).
Context (Hstep : 0 < step) (Hk : k <= stop).
Context (Hfull : forall b st, b < stop -> Nat.min (b + step) stop <= k ->
           runs_up_to (Some tt) b (Nat.min (b + step) stop) (batch b) st).
Context (Hlast : forall b st, b <= k < Nat.min (b + step) stop ->
           runs_up_to None b k (batch b) st).

Lemma for_step_up_to fuel : forall start st,
  start <= k \/ k = stop /\ stop <= start ->
  stop - start <= fuel ->
  runs_up_to (if decide (k = stop) then Some tt else None) start k
    (for_step fuel start stop step batch) st.
Proof.
  assert (forall start st, stop <= start -> k = stop ->
            runs_up_to (if decide (k = stop) then Some tt else None) start k
              (mret tt) st) as Hend.
  { intros start st Hs ->. rewrite decide_True by done.
    exists st, []. replace (stop - start) with 0 by lia. rewrite app_nil_r.
    repeat split; (done || lia). }
  unfold runs_up_to in *.
  induction fuel as [|fuel IH]; intros start st Hs Hfuel.
  - simpl. apply Hend; lia.
  - simpl. destruct (start <? stop)%nat eqn:Hlt;
      [apply Nat.ltb_lt in Hlt | apply Nat.ltb_ge in Hlt; apply Hend; lia].
    unfold mbind, D_bind.
    destruct (decide (Nat.min (start + step) stop <= k)) as [Hle | Hgt].
    + destruct (Hfull start st Hlt Hle) as (st1 & e1 & E1 & T1 & O1 & C1 & I1).
      rewrite E1.
      destruct (IH (start + step) st1) as (st2 & e2 & E2 & T2 & O2 & C2 & I2); [lia | lia |].
      exists st2, (e1 ++ e2). split; [exact E2 |].
      rewrite T2, T1, app_assoc, terminals_app, items_app, O1, O2.
      split; [done |]. split; [| split].
      * destruct (decide (start + step <= stop)) as [H1 | H1].
        -- rewrite Nat.min_l by lia.
           replace (start + step - start) with step by lia.
           rewrite <- seq_app. f_equal. lia.
        -- rewrite Nat.min_r in * by lia.
           replace (k - (start + step)) with 0 by lia. rewrite app_nil_r. f_equal. lia.
      * lia.
      * apply Forall_app. split; [| done].
        eapply Forall_impl; [exact I1 |]. intros j Hj. simpl in Hj. lia.
    + destruct (Hlast start st ltac:(lia)) as (st1 & e1 & E1 & H1).
      rewrite E1. rewrite decide_False by lia. by exists st1, e1.
Qed.

End batches.

(** A batch: the messages from [b] to [e], then a pause when more
    follow. *)
Lemma batch_up_to (body : nat -> D unit) (b e k : nat) (pause : bool) (ms : Z) st :
  b <= k <= e ->
  (forall i, i < k -> settles_as terminal i (body i)) ->
  (forall i, emits_about i (body i)) ->
  (k < e -> forall s, body k s = (None, s)) ->
  runs_up_to (if decide (k = e) then Some tt else None) b k
    (for_range (e - b) b body ;; if pause then sleep ms else mret tt) st.
Proof.
  intros Hk Hs Ha Ht.
  pose proof (for_range_up_to body k Hs Ha (e - b) b st ltac:(lia)) as H.
  replace (b + (e - b)) with e in H by lia. specialize (H Ht).
  destruct (decide (k = e)).
  - by apply runs_up_to_pause.
  - by apply runs_up_to_thrown.
Qed.

(** What [runs_up_to] says of a whole job. *)
Lemma runs_up_to_job {A} (r : option A) k (m : D A) :
  runs_up_to r 0 k m dstate0 ->
  exists st,
    m dstate0 = (r, st) /\
    terminals (trace st) = seq 0 k /\
    successCount st + failCount st = k /\
    Forall (fun j => j < k) (items (trace st)).
Proof.
  intros (st & ext & E & T & O & C & I). exists st. simpl in T. subst ext.
  rewrite Nat.sub_0_r in *. unfold counted in C. simpl in C.
  repeat split; (done || lia).
Qed.

(** No action about a message, so no call for it. *)
Lemma no_items_no_calls k t i :
  Forall (fun j => j < k) (items t) -> k <= i ->
  send_calls i t = 0 /\ encode_calls i t = 0.
Proof.
  intros H Hi. unfold send_calls, encode_calls.
  induction t as [|a t IH]; [done |].
  unfold items in H. simpl in H.
  assert (is_send i a = false /\ is_encode i a = false /\
          Forall (fun j => j < k) (items t)) as (Hs & He & Ht).
  { destruct a; simpl in *; try apply Forall_cons in H as [Hj H];
      repeat split; try done;
      destruct (Nat.eqb_spec i i0); try done; lia. }
  destruct (IH Ht) as [IH1 IH2].
  rewrite !filter_cons, decide_False, decide_False by (by rewrite ?Hs, ?He).
  done.
Qed.

(** ** [/api/send-bulk-qr]: every message is settled once *)

Section qr_settles.
Context {X : Type} (obs : action -> option X) (x : X) (env : oracle) (i : nat).
Context (Hq : quiet obs) (Hd : obs (Delivered i) = Some x) (Hf : obs (Failed i) = Some x).
Context (Hs2 : obs (Sleep 2000) = None) (Hs3 : obs (Sleep 3000) = None).

(** One round either settles the message, or, when it is not the last
    round, fails without an outcome; it never throws. *)
Lemma qr_attempt_settles m f attempts st :
  exists success st' ext,
    SendBulkQr.attempt env i m f attempts st = (Some success, st') /\
    trace st' = trace st ++ ext /\
    ((success = true \/ SendBulkQr.MAX_ATTEMPTS <= attempts) /\
     omap obs ext = [x] /\ counted st' = S (counted st)
     \/
     (success = false /\ attempts < SendBulkQr.MAX_ATTEMPTS) /\
     omap obs ext = [] /\ counted st' = counted st).
Proof.
  assert (forall a b c, obs (SendMedia a b c) = None) as Hm
    by (intros; by apply quiet_none).
  assert (forall a b c, obs (SendText a b c) = None) as Ht
    by (intros; by apply quiet_none).
  assert (forall a, obs (Encode a) = None) as He
    by (intros; by apply quiet_none).
  unfold SendBulkQr.attempt, SendBulkQr.qr_while, SendBulkQr.MAX_ATTEMPTS.
  unfold_D.
  destruct (2 <=? attempts)%nat eqn:Ha;
    [apply Nat.leb_le in Ha | apply Nat.leb_gt in Ha];
    (destruct (truthy (qrData m)); simpl; case_outcomes;
     (eexists _, _, _; split; [reflexivity |];
      split; [simpl; rewrite <- ?app_assoc; reflexivity |];
      simpl; rewrite ?Hm, ?Ht, ?He, ?Hs2, ?Hs3, ?Hd, ?Hf; unfold counted; simpl;
      first [ left; split; [by auto | split; [reflexivity | lia]]
            | right; split; [by auto | split; [reflexivity | lia]] ])).
Qed.

Lemma qr_attempts_settle m f :
  settles_as obs x (SendBulkQr.attempts_while env SendBulkQr.MAX_ATTEMPTS i m f false 0).
Proof.
  intros st. unfold SendBulkQr.MAX_ATTEMPTS at 1. simpl.
  change (0 <? SendBulkQr.MAX_ATTEMPTS)%nat with true. cbv iota.
  destruct (qr_attempt_settles m f 1 st) as (s1 & st1 & e1 & E1 & T1 & H1).
  unfold mbind, D_bind. rewrite E1.
  destruct H1 as [([-> | H1] & O1 & C1) | ((-> & _) & O1 & C1)].
  - exists tt, st1, e1. done.
  - unfold SendBulkQr.MAX_ATTEMPTS in H1. lia.
  - change (negb false && (1 <? SendBulkQr.MAX_ATTEMPTS)%nat) with true. cbv iota.
    destruct (qr_attempt_settles m f 2 st1) as (s2 & st2 & e2 & E2 & T2 & H2).
    rewrite E2.
    destruct H2 as [(_ & O2 & C2) | ((_ & H2) & _)];
      [| unfold SendBulkQr.MAX_ATTEMPTS in H2; lia].
    exists tt, st2, (e1 ++ e2). split; [done |].
    rewrite T2, T1, app_assoc, omap_app, O1, O2. split; [done |]. split; [done | lia].
Qed.

End qr_settles.

Lemma qr_body_settles {X} (obs : action -> option X) (x : X) env messages e i m :
  quiet obs -> obs (Delivered i) = Some x -> obs (Failed i) = Some x ->
  obs (Sleep 2000) = None -> obs (Sleep 3000) = None ->
  messages !! i = Some (Some m) ->
  settles_as obs x (SendBulkQr.body env messages e i).
Proof.
  intros Hq Hd Hf Hs2 Hs3 Hm st. unfold SendBulkQr.body, item. rewrite Hm.
  cbv [mbind mret D_bind D_ret].
  destruct (validNumberQr (number m)) as [f|].
  - destruct (qr_attempts_settle obs x env i Hq Hd Hf Hs2 Hs3 m f st)
      as ([] & st1 & e1 & E1 & T1 & O1 & C1).
    rewrite E1.
    destruct (i <? e - 1)%nat; simpl.
    + eexists tt, _, (e1 ++ [Sleep _]). split; [reflexivity |]. simpl.
      rewrite T1, app_assoc, omap_app, O1. simpl.
      unfold SendBulkQr.MESSAGE_DELAY. rewrite Hs3. repeat split; done.
    + exists tt, st1, e1. done.
  - eexists tt, _, [Failed i]. split; [reflexivity |]. simpl. rewrite Hf.
    repeat split. unfold counted. simpl. lia.
Qed.

Lemma qr_loop_total {X} (obs : action -> option X) (x : nat -> X) env messages :
  quiet obs ->
  (forall i, obs (Delivered i) = Some (x i)) ->
  (forall i, obs (Failed i) = Some (x i)) ->
  obs (Sleep 2000) = None -> obs (Sleep 3000) = None ->
  Forall is_Some messages ->
  exists st,
    SendBulkQr.loop env messages dstate0 = (Some tt, st) /\
    omap obs (trace st)
      = expected x (omap obs [Sleep SendBulkQr.SUB_BATCH_DELAY])
          (length messages) 0 (length messages) SendBulkQr.BATCH_SIZE /\
    successCount st + failCount st = length messages.
Proof.
  intros Hq Hd Hf Hs2 Hs3 Hobj.
  destruct (for_step_total obs x (omap obs [Sleep SendBulkQr.SUB_BATCH_DELAY])
              (SendBulkQr.subBatch env messages) SendBulkQr.BATCH_SIZE (length messages)
              ltac:(unfold SendBulkQr.BATCH_SIZE; lia)) with
    (fuel := length messages) (start := 0) (st := dstate0)
    as (st & ext & E & T & O & C); [| lia |].
  - intros b st Hb subBatchEnd. unfold SendBulkQr.subBatch. fold subBatchEnd.
    destruct (for_range_total obs x (SendBulkQr.body env messages subBatchEnd)
                (subBatchEnd - b) b st) as (st1 & e1 & E1 & T1 & O1 & C1).
    { intros i Hi.
      destruct (lookup_lt_is_Some_2 messages i ltac:(lia)) as [e He].
      rewrite Forall_lookup in Hobj. destruct (Hobj i e He) as [m ->].
      eapply qr_body_settles; eauto. }
    unfold mbind, mret, D_bind, D_ret. rewrite E1.
    destruct (subBatchEnd <? length messages)%nat; simpl.
    + eexists _, (e1 ++ [Sleep _]). split; [reflexivity |]. simpl.
      rewrite T1, app_assoc, omap_app, O1. done.
    + exists st1, e1. rewrite app_nil_r. done.
  - exists st. split; [exact E |]. simpl in T. rewrite T, O.
    split; [done |]. unfold counted in C. simpl in C. lia.
Qed.

Lemma qr_subBatch_sorted env messages b st :
  sorted_below b (trace st) ->
  sorted_below (b + SendBulkQr.BATCH_SIZE)
    (trace (SendBulkQr.subBatch env messages b st).2).
Proof.
  intros Hst. unfold SendBulkQr.subBatch.
  set (subBatchEnd := Nat.min _ _).
  pose proof (for_range_sorted (SendBulkQr.body env messages subBatchEnd)
                (subBatchEnd - b) b st
                (emits_qr_body env messages subBatchEnd) Hst) as H1.
  unfold mbind, D_bind.
  destruct (for_range _ _ _ st) as [[[]|] st1]; simpl in *.
  - assert (sorted_below (b + SendBulkQr.BATCH_SIZE) (trace st1)) as H2.
    { eapply sorted_below_weaken; [| exact H1]. subst subBatchEnd. lia. }
    destruct (_ <? _)%nat; [by apply sorted_below_sleep | done].
  - eapply sorted_below_weaken; [| exact H1]. subst subBatchEnd. lia.
Qed.

Lemma qr_loop_in_order env messages :
  batches_in_order SendBulkQr.BATCH_SIZE
    (trace (SendBulkQr.loop env messages dstate0).2).
Proof.
  apply sorted_batches.
  destruct (for_step_sorted (SendBulkQr.subBatch env messages) SendBulkQr.BATCH_SIZE
              (length messages) 0 (length messages) dstate0) as [k [Hk _]].
  - intros b st _. apply qr_subBatch_sorted.
  - split; constructor.
  - exact Hk.
Qed.

(** A [null] element cannot be destructured: the error leaves the loop
    before anything is done about the message. *)
Lemma qr_body_throws env messages e k s :
  messages !! k = Some None -> SendBulkQr.body env messages e k s = (None, s).
Proof. intros Hk. unfold SendBulkQr.body, item. by rewrite Hk. Qed.

Lemma qr_loop_up_to env messages :
  runs_up_to (if decide (objects_before messages = length messages)
              then Some tt else None) 0 (objects_before messages)
    (SendBulkQr.loop env messages) dstate0.
Proof.
  set (k := objects_before messages).
  assert (k <= length messages) as Hk by apply prefix_length_le.
  assert (forall e i, i < k -> settles_as terminal i (SendBulkQr.body env messages e i))
    as Hs.
  { intros e i Hi. destruct (prefix_length_lookup _ messages i Hi) as (m & Hm & _).
    eapply qr_body_settles; eauto using quiet_terminal. }
  assert (forall e, k < length messages ->
            forall s, SendBulkQr.body env messages e k s = (None, s)) as Ht.
  { intros e Hlt s. apply qr_body_throws.
    destruct (prefix_length_stop _ messages Hlt) as [H | (m & _ & H)]; done. }
  apply for_step_up_to; [unfold SendBulkQr.BATCH_SIZE; lia | done | | | lia | lia].
  - intros b st Hb Hle. unfold SendBulkQr.subBatch.
    pose proof (batch_up_to
                  (SendBulkQr.body env messages
                     (Nat.min (b + SendBulkQr.BATCH_SIZE) (length messages)))
                  b (Nat.min (b + SendBulkQr.BATCH_SIZE) (length messages))
                  (Nat.min (b + SendBulkQr.BATCH_SIZE) (length messages))
                  (Nat.min (b + SendBulkQr.BATCH_SIZE) (length messages)
                   <? length messages)%nat
                  SendBulkQr.SUB_BATCH_DELAY st) as H.
    rewrite decide_True in H by done. apply H; [lia | | | lia].
    + intros i Hi. apply Hs. lia.
    + intros i. apply emits_qr_body.
  - intros b st Hb. unfold SendBulkQr.subBatch.
    pose proof (batch_up_to
                  (SendBulkQr.body env messages
                     (Nat.min (b + SendBulkQr.BATCH_SIZE) (length messages)))
                  b (Nat.min (b + SendBulkQr.BATCH_SIZE) (length messages)) k
                  (Nat.min (b + SendBulkQr.BATCH_SIZE) (length messages)
                   <? length messages)%nat
                  SendBulkQr.SUB_BATCH_DELAY st) as H.
    rewrite decide_False in H by lia. apply H; [lia | | |].
    + intros i Hi. by apply Hs.
    + intros i. apply emits_qr_body.
    + intros _. apply Ht. lia.
Qed.




(** ** Properties of every action of a trace *)

Section only.
Context {A B : Type} (P : action -> Prop).

Lemma only_ret (a : A) : emits_only P (mret a : D A).
Proof. by intros st H. Qed.

Lemma only_throw : emits_only P (throw : D A).
Proof. by intros st H. Qed.

Lemma only_bind (m : D A) (f : A -> D B) :
  emits_only P m -> (forall a, emits_only P (f a)) -> emits_only P (m ≫= f).
Proof.
  intros Hm Hf st H. specialize (Hm st H). unfold mbind, D_bind.
  destruct (m st) as [[a|] st1]; simpl in *; [by apply Hf | done].
Qed.

Lemma only_try (m h : D A) :
  emits_only P m -> emits_only P h -> emits_only P (try_catch m h).
Proof.
  intros Hm Hh st H. specialize (Hm st H). unfold try_catch.
  destruct (m st) as [[a|] st1]; simpl in *; [done | by apply Hh].
Qed.

End only.

Lemma only_sleep P ms : P (Sleep ms) -> emits_only P (sleep ms).
Proof. intros Hp st H. simpl. apply Forall_app. by repeat constructor. Qed.

Lemma only_succeed P i : P (Delivered i) -> emits_only P (succeed i).
Proof. intros Hp st H. simpl. apply Forall_app. by repeat constructor. Qed.

Lemma only_fail P i : P (Failed i) -> emits_only P (fail i).
Proof. intros Hp st H. simpl. apply Forall_app. by repeat constructor. Qed.

Lemma only_sendMessage P env a : P a -> emits_only P (sendMessage env a).
Proof.
  intros Hp st H. unfold sendMessage.
  destruct (sendMessage_outcome env (sends st)); simpl;
    apply Forall_app; by repeat constructor.
Qed.

Lemma only_random P env : emits_only P (random env).
Proof. by intros st H. Qed.

Lemma only_generateQRCode P env timeout i q :
  P (Encode i) -> emits_only P (generateQRCode env timeout i q).
Proof.
  intros Hp st H. unfold generateQRCode. destruct (negb (truthy q)); [done |].
  destruct (toBuffer_outcome env (encodes st)); simpl; try destruct (_ <? _)%Z; simpl;
    apply Forall_app; by repeat constructor.
Qed.

Lemma only_as_string P n : emits_only P (as_string n).
Proof. destruct n; [apply only_ret | apply only_throw]. Qed.

Lemma only_item P messages j : emits_only P (item messages j).
Proof.
  unfold item. destruct (messages !! j) as [[m|]|];
    [apply only_ret | apply only_throw ..].
Qed.

Create HintDb only.
#[export] Hint Resolve only_ret only_throw only_sleep only_succeed only_fail
  only_sendMessage only_random only_generateQRCode only_as_string only_item : only.

Ltac keeps :=
  repeat first
    [ progress intros
    | progress cbv zeta
    | apply only_bind
    | apply only_try
    | match goal with
      | |- emits_only _ (if ?b then _ else _) => destruct b
      | |- emits_only _ (match ?x with _ => _ end) => destruct x
      end
    | solve [eauto with only] ].

(** The loops keep what every iteration keeps. *)
Lemma only_for_range P body n start :
  (forall j, emits_only P (body j)) -> emits_only P (for_range n start body).
Proof.
  intros Hbody st H.
  apply (for_range_invariant (fun s => Forall P (trace s))); [| done].
  intros j s. apply Hbody.
Qed.

Lemma only_for_step P body fuel start stop step :
  (forall j, emits_only P (body j)) -> emits_only P (for_step fuel start stop step body).
Proof.
  intros Hbody st H.
  apply (for_step_invariant (fun s => Forall P (trace s))); [| done].
  intros j s. apply Hbody.
Qed.

Lemma only_qr_attempts P env i m f :
  P (Encode i) -> P (SendMedia i f (message m)) -> P (SendText i f (message m)) ->
  P (Delivered i) -> P (Failed i) -> (forall ms, P (Sleep ms)) ->
  emits_only P (SendBulkQr.attempts_while env SendBulkQr.MAX_ATTEMPTS i m f false 0).
Proof.
  intros He Hm Ht Hd Hf Hs.
  unfold SendBulkQr.MAX_ATTEMPTS, SendBulkQr.attempts_while, SendBulkQr.attempt,
    SendBulkQr.qr_while.
  keeps.
Qed.

Lemma only_qr_loop P env messages :
  (forall j e, emits_only P (SendBulkQr.body env messages e j)) ->
  (forall ms, P (Sleep ms)) ->
  emits_only P (SendBulkQr.loop env messages).
Proof.
  intros Hbody Hs. unfold SendBulkQr.loop. apply only_for_step.
  intros b. unfold SendBulkQr.subBatch. cbv zeta.
  apply only_bind; [by apply only_for_range |].
  intros []. destruct (_ <? _)%nat; [by apply only_sleep | apply only_ret].
Qed.

(** *** [/api/send-bulk-qr]: what is sent, and to whom *)

Lemma well_addressed_qr_body env messages e j :
  emits_only well_addressed (SendBulkQr.body env messages e j).
Proof.
  unfold SendBulkQr.body. apply only_bind; [apply only_item |]. intros m.
  destruct (validNumberQr (number m)) as [f|] eqn:Hv; [| by apply only_fail].
  assert (match_number_pattern f = true) as Hf.
  { revert Hv. destruct (number m) as [s|]; simpl; [| done].
    destruct (match_number_pattern (formatNumberQr s)) eqn:E; [| done].
    by intros [= <-]. }
  apply only_bind; [by apply only_qr_attempts |].
  intros []. destruct (_ <? _)%nat; [by apply only_sleep | apply only_ret].
Qed.

Lemma only_failed_qr_body env messages e i m j :
  messages !! i = Some (Some m) -> validNumberQr (number m) = None ->
  emits_only (only_failed i) (SendBulkQr.body env messages e j).
Proof.
  intros Hm Hv. destruct (decide (j = i)) as [-> | Hji].
  - intros st H. rewrite (qr_invalid_number env messages e i m st Hm Hv). simpl.
    apply Forall_app. split; [done | by repeat constructor].
  - assert (forall a, item_of a = Some j \/ item_of a = None -> only_failed i a) as Hp.
    { intros a [Ha | Ha] Hi; rewrite Ha in Hi; congruence. }
    unfold SendBulkQr.body. apply only_bind; [apply only_item |]. intros m'.
    destruct (validNumberQr (number m')) as [f|]; [| apply only_fail, Hp; by left].
    apply only_bind;
      [apply only_qr_attempts; intros; apply Hp; simpl; by auto |].
    intros []. destruct (_ <? _)%nat; [| apply only_ret].
    apply only_sleep, Hp. by right.
Qed.

Lemma try_catch_state (job : D unit) st :
  (try_catch job (mret tt) st).2 = (job st).2.
Proof. unfold try_catch. by destruct (job st) as [[[]|] st1]. Qed.

Lemma filter_none {A} (P : A -> Prop) `{forall a, Decision (P a)} (l : list A) :
  Forall (fun a => ~ P a) l -> length (filter P l) = 0.
Proof.
  induction 1 as [|a l Ha Hl IH]; [done |]. by rewrite filter_cons_False.
Qed.

(** X6.  Every call that [/api/send-bulk-qr] makes to the provider is
    addressed to a non-empty run of digits followed by ["@c.us"],
    whatever the request holds and whatever the provider and the encoder
    do. *)
Theorem send_bulk_qr_is_well_addressed (env : oracle) (connected : bool)
    (messages : list (option msg)) :
  Forall well_addressed (trace (SendBulkQr.handler env connected messages).2) /\
  forall i to body,
    SendText i to body ∈ trace (SendBulkQr.handler env connected messages).2 \/
    SendMedia i to body ∈ trace (SendBulkQr.handler env connected messages).2 ->
    exists d, d <> EmptyString /\ all_digits d = true /\ to = d +:+ "@c.us".
Proof.
  assert (Forall well_addressed (trace (SendBulkQr.handler env connected messages).2))
    as H.
  { unfold SendBulkQr.handler, accept.
    destruct (negb connected); [constructor |].
    destruct (length messages =? 0)%nat; [constructor |].
    cbn [snd]. rewrite try_catch_state.
    apply only_qr_loop; [| done | constructor].
    intros j e. apply well_addressed_qr_body. }
  split; [exact H |].
  intros i to body Hin. rewrite Forall_forall in H.
  apply match_number_pattern_shape.
  destruct Hin as [Hin | Hin]; exact (H _ Hin).
Qed.

Lemma send_bulk_qr_is_well_addressed_witness :
  exists d, d <> EmptyString /\ all_digits d = true /\
            "15551234567@c.us" = d +:+ "@c.us".
Proof.
  destruct (send_bulk_qr_is_well_addressed always_ok true [Some (plain "+15551234567")])
    as [_ H].
  apply (H 0 "15551234567@c.us" "hi"). left. vm_compute. by left.
Defined.



(** ** [/api/send-messages]: an element that cannot be read ends the job *)

(** [messages[k]] is [null], or its [number] is not a string: the
    destructuring, or the call of [number.startsWith], throws before
    anything is done about the message. *)
Lemma v1_body_throws env messages k s :
  strings_before messages < length messages ->
  k = strings_before messages ->
  SendMessagesV1.body env messages k s = (None, s).
Proof.
  intros Hlt ->. unfold SendMessagesV1.body, item, strings_before in *.
  destruct (prefix_length_stop _ messages Hlt) as [-> | (m & -> & Hn)]; [done |].
  cbv [mbind mret D_bind D_ret]. by destruct (number m).
Qed.

Lemma batched_body_throws env messages e k s :
  strings_before messages < length messages ->
  k = strings_before messages ->
  SendMessages.body env messages e k s = (None, s).
Proof.
  intros Hlt ->. unfold SendMessages.body, item, strings_before in *.
  destruct (prefix_length_stop _ messages Hlt) as [-> | (m & -> & Hn)]; [done |].
  cbv [mbind mret D_bind D_ret]. by destruct (number m).
Qed.

Lemma strings_before_lookup messages i :
  i < strings_before messages ->
  exists m, messages !! i = Some (Some m) /\ is_string (number m).
Proof.
  intros Hi. destruct (prefix_length_lookup _ messages i Hi) as (m & Hm & Hn).
  exists m. split; [done |]. by destruct (number m).
Qed.

Lemma v1_loop_up_to env messages :
  runs_up_to (if decide (strings_before messages = length messages)
              then Some tt else None) 0 (strings_before messages)
    (SendMessagesV1.loop env messages) dstate0.
Proof.
  pose proof (prefix_length_le (fun m => match number m with
                                         | JStr _ => true | JOther => false end)
                messages) as Hk.
  fold (strings_before messages) in Hk.
  apply (for_range_up_to (SendMessagesV1.body env messages) (strings_before messages)).
  - intros i Hi. destruct (strings_before_lookup messages i Hi) as (m & Hm & Hn).
    eapply v1_body_settles; eauto using quiet_terminal.
  - intros i. apply emits_v1_body.
  - lia.
  - intros Hlt s. apply v1_body_throws; [lia | done].
Qed.

Lemma batched_loop_up_to env messages :
  runs_up_to (if decide (strings_before messages = length messages)
              then Some tt else None) 0 (strings_before messages)
    (SendMessages.loop env messages) dstate0.
Proof.
  set (k := strings_before messages).
  assert (k <= length messages) as Hk by apply prefix_length_le.
  assert (forall e i, i < k -> settles_as terminal i (SendMessages.body env messages e i))
    as Hs.
  { intros e i Hi. destruct (strings_before_lookup messages i Hi) as (m & Hm & Hn).
    eapply batched_body_settles; eauto using quiet_terminal. }
  apply for_step_up_to; [unfold SendMessages.BATCH_SIZE; lia | done | | | lia | lia].
  - intros b st Hb Hle. unfold SendMessages.batch.
    pose proof (batch_up_to
                  (SendMessages.body env messages
                     (Nat.min (b + SendMessages.BATCH_SIZE) (length messages)))
                  b (Nat.min (b + SendMessages.BATCH_SIZE) (length messages))
                  (Nat.min (b + SendMessages.BATCH_SIZE) (length messages))
                  (Nat.min (b + SendMessages.BATCH_SIZE) (length messages)
                   <? length messages)%nat
                  SendMessages.BATCH_DELAY st) as H.
    rewrite decide_True in H by done. apply H; [lia | | | lia].
    + intros i Hi. apply Hs. lia.
    + intros i. apply emits_batched_body.
  - intros b st Hb. unfold SendMessages.batch.
    pose proof (batch_up_to
                  (SendMessages.body env messages
                     (Nat.min (b + SendMessages.BATCH_SIZE) (length messages)))
                  b (Nat.min (b + SendMessages.BATCH_SIZE) (length messages)) k
                  (Nat.min (b + SendMessages.BATCH_SIZE) (length messages)
                   <? length messages)%nat
                  SendMessages.BATCH_DELAY st) as H.
    rewrite decide_False in H by lia. apply H; [lia | | |].
    + intros i Hi. by apply Hs.
    + intros i. apply emits_batched_body.
    + intros _ s. apply batched_body_throws; [lia | done].
Qed.

Lemma accepted_state handler_loop messages :
  messages <> [] ->
  accept true messages handler_loop = (202, (handler_loop dstate0).2).
Proof.
  intros Hne. unfold accept. simpl. destruct messages; [done |]. simpl.
  by rewrite try_catch_state.
Qed.

(** X8.  In [/api/send-messages] (both revisions) the first element
    that is [null], or whose [number] is not a string, ends the whole
    job: the request is still answered 202, the messages before that
    element are settled once each and in order, and nothing is done
    about that element or a later one: no action of the trace is about
    it, so it is neither encoded, nor sent, nor counted.  The job
    completes when there is no such element, that is, when the request
    is well formed. *)
Theorem send_messages_stops_at_non_string_number (env : oracle)
    (messages : list (option msg)) :
  messages <> [] ->
  (strings_before messages = length messages <-> well_formed messages) /\
  (exists st,
     SendMessagesV1.loop env messages dstate0
     = (if decide (strings_before messages = length messages) then Some tt else None,
        st) /\
     SendMessagesV1.handler env true messages = (202, st) /\
     terminals (trace st) = seq 0 (strings_before messages) /\
     successCount st + failCount st = strings_before messages /\
     (forall i, strings_before messages <= i ->
        (i ∉ items (trace st)) /\
        send_calls i (trace st) = 0 /\ encode_calls i (trace st) = 0)) /\
  (exists st,
     SendMessages.loop env messages dstate0
     = (if decide (strings_before messages = length messages) then Some tt else None,
        st) /\
     SendMessages.handler env true messages = (202, st) /\
     terminals (trace st) = seq 0 (strings_before messages) /\
     successCount st + failCount st = strings_before messages /\
     (forall i, strings_before messages <= i ->
        (i ∉ items (trace st)) /\
        send_calls i (trace st) = 0 /\ encode_calls i (trace st) = 0)).
Proof.
  intros Hne. split; [apply strings_before_all |]. split.
  - destruct (runs_up_to_job _ _ _ (v1_loop_up_to env messages))
      as (st & E & T & C & I).
    exists st. split; [exact E |].
    split; [unfold SendMessagesV1.handler; rewrite accepted_state by done;
            by rewrite E |].
    repeat split; try done.
    + intros Hin. rewrite Forall_forall in I. specialize (I i Hin). simpl in I. lia.
    + by apply (no_items_no_calls (strings_before messages)).
    + by apply (no_items_no_calls (strings_before messages)).
  - destruct (runs_up_to_job _ _ _ (batched_loop_up_to env messages))
      as (st & E & T & C & I).
    exists st. split; [exact E |].
    split; [unfold SendMessages.handler; rewrite accepted_state by done;
            by rewrite E |].
    repeat split; try done.
    + intros Hin. rewrite Forall_forall in I. specialize (I i Hin). simpl in I. lia.
    + by apply (no_items_no_calls (strings_before messages)).
    + by apply (no_items_no_calls (strings_before messages)).
Qed.

Lemma send_messages_stops_at_non_string_number_witness :
  let messages :=
    [Some (plain "15551234567"); Some (Msg JOther "hi" None);
     Some (plain "15551234568")] in
  let dropped := [Some (ticket "15551234567"); None; Some (plain "15551234568")] in
  (exists st,
     SendMessagesV1.loop always_ok messages dstate0 = (None, st) /\
     SendMessagesV1.handler always_ok true messages = (202, st) /\
     terminals (trace st) = [0] /\
     successCount st + failCount st = 1 /\
     send_calls 1 (trace st) = 0 /\ send_calls 2 (trace st) = 0) /\
  (exists st,
     SendMessages.loop always_ok dropped dstate0 = (None, st) /\
     SendMessages.handler always_ok true dropped = (202, st) /\
     terminals (trace st) = [0] /\
     successCount st + failCount st = 1 /\
     send_calls 1 (trace st) = 0 /\ send_calls 2 (trace st) = 0).
Proof.
  intros messages dropped.
  destruct (send_messages_stops_at_non_string_number always_ok messages)
    as (_ & (st & E & H & T & C & N) & _); [done |].
  destruct (send_messages_stops_at_non_string_number always_ok dropped)
    as (_ & _ & (st' & E' & H' & T' & C' & N')); [done |].
  split.
  - exists st. destruct (N 1) as (_ & N1 & _); [vm_compute; lia |].
    destruct (N 2) as (_ & N2 & _); [vm_compute; lia |]. done.
  - exists st'. destruct (N' 1) as (_ & N1 & _); [vm_compute; lia |].
    destruct (N' 2) as (_ & N2 & _); [vm_compute; lia |]. done.
Defined.

(** ** [/api/send-bulk]: every schedule settles the messages once *)

Lemma task_trace_string outcome messages batchStart i m n :
  messages !! i = Some (Some m) -> number m = JStr n ->
  SendBulk.task_trace outcome messages batchStart i
  = Sleep (Z.of_nat (i - batchStart) * SendBulk.MESSAGE_DELAY)
      :: retried_once outcome i (formatNumber n) (message m).
Proof.
  intros Hm Hn. unfold SendBulk.task_trace, SendBulk.task, retried_once.
  rewrite Hm. unfold SendBulk.MAX_RETRIES, SendBulk.sendMessageWithRetry.
  rewrite Hn. unfold_D. simpl.
  destruct (outcome i 0); simpl; try done; by destruct (outcome i 1).
Qed.

Lemma task_trace_other outcome messages batchStart i m :
  messages !! i = Some (Some m) -> number m = JOther ->
  SendBulk.task_trace outcome messages batchStart i
  = [Sleep (Z.of_nat (i - batchStart) * SendBulk.MESSAGE_DELAY); Sleep 700; Failed i].
Proof.
  intros Hm Hn. unfold SendBulk.task_trace, SendBulk.task.
  rewrite Hm. unfold SendBulk.MAX_RETRIES, SendBulk.sendMessageWithRetry.
  rewrite Hn. by unfold_D.
Qed.

Lemma task_trace_terminal outcome messages batchStart i m :
  messages !! i = Some (Some m) ->
  terminals (SendBulk.task_trace outcome messages batchStart i) = [i].
Proof.
  intros Hm.
  destruct (number m) as [n|] eqn:Hn.
  - rewrite (task_trace_string _ _ _ _ m n) by done. unfold retried_once.
    destruct (outcome i 0); try done; by destruct (outcome i 1).
  - by rewrite (task_trace_other _ _ _ _ m).
Qed.

Lemma send_calls_nil j : send_calls j [] = 0.
Proof. done. Qed.

Lemma send_calls_cons j a t :
  send_calls j (a :: t) = (if is_send j a then 1 else 0) + send_calls j t.
Proof.
  unfold send_calls. rewrite filter_cons.
  destruct (is_send j a); by case_decide.
Qed.

Lemma send_calls_app j t1 t2 :
  send_calls j (t1 ++ t2) = send_calls j t1 + send_calls j t2.
Proof. unfold send_calls. by rewrite filter_app, length_app. Qed.

Lemma task_trace_sends outcome messages batchStart i j :
  send_calls j (SendBulk.task_trace outcome messages batchStart i) <= 2 /\
  (j <> i -> send_calls j (SendBulk.task_trace outcome messages batchStart i) = 0).
Proof.
  split.
  - destruct (messages !! i) as [[m|]|] eqn:Hm;
      [| unfold SendBulk.task_trace; rewrite Hm, send_calls_nil; lia ..].
    destruct (number m) as [n|] eqn:Hn.
    + rewrite (task_trace_string _ _ _ _ m n) by done. unfold retried_once.
      destruct (outcome i 0); try destruct (outcome i 1);
        rewrite !send_calls_cons, send_calls_nil; simpl; destruct (j =? i)%nat; lia.
    + rewrite (task_trace_other _ _ _ _ m) by done.
      rewrite !send_calls_cons, send_calls_nil. simpl. lia.
  - intros Hne. apply filter_none. apply Forall_forall. intros a Ha Hs.
    pose proof (task_trace_about outcome messages batchStart i) as Hall.
    rewrite Forall_forall in Hall.
    assert (item_of a = Some j) as Hj
      by (destruct a; simpl in *; try done; apply Nat.eqb_eq in Hs; by subst).
    assert (j = i); [| done].
    apply Hall, items_elem_of. eauto.
Qed.

Lemma concat_all_nil {A} (ls : list (list A)) :
  Forall (fun l => l = []) ls -> concat ls = [].
Proof. induction 1 as [|l ls -> _ IH]; [done | by simpl]. Qed.

(** A schedule is a rearrangement of the actions of the tasks. *)
Lemma interleave_Permutation {A} (ls : list (list A)) t :
  interleave ls t -> t ≡ₚ concat ls.
Proof.
  induction 1 as [ls Hnil | ls1 ls2 a l t Hi IH].
  - by rewrite concat_all_nil.
  - rewrite concat_app in *. simpl in *. rewrite IH.
    by rewrite (Permutation_middle (concat ls1) (l ++ concat ls2) a).
Qed.

Lemma interleave_elem_of_iff {A} (ls : list (list A)) t a :
  interleave ls t -> a ∈ t <-> exists l, l ∈ ls /\ a ∈ l.
Proof.
  intros Hi. rewrite (interleave_Permutation ls t Hi).
  rewrite list_elem_of_In, in_concat. split.
  - intros (l & Hl & Ha). exists l. by rewrite !list_elem_of_In.
  - intros (l & Hl & Ha). exists l. by rewrite <- !list_elem_of_In.
Qed.

Section send_bulk.
Context (outcome : nat -> nat -> send_outcome) (messages : list (option msg)).

Lemma task_trace_delivered batchStart i j :
  Delivered i ∈ SendBulk.task_trace outcome messages batchStart j <->
  j = i /\ acknowledged outcome messages i.
Proof.
  split.
  - intros Hin.
    assert (j = i) as ->.
    { pose proof (task_trace_about outcome messages batchStart j) as Hall.
      rewrite Forall_forall in Hall. symmetry. apply Hall, items_elem_of. eauto. }
    split; [done |].
    destruct (messages !! i) as [[m|]|] eqn:Hm;
      [| unfold SendBulk.task_trace in Hin; rewrite Hm in Hin;
         by apply elem_of_nil in Hin ..].
    destruct (number m) as [n|] eqn:Hn.
    + rewrite (task_trace_string _ _ _ _ m n) in Hin by done.
      unfold retried_once in Hin.
      exists m, n. split; [done |]. split; [done |].
      destruct (outcome i 0); [by left | |];
        (destruct (outcome i 1); [by right | |]);
        repeat (apply elem_of_cons in Hin as [Hin | Hin]; [discriminate |]);
        by apply elem_of_nil in Hin.
    + rewrite (task_trace_other _ _ _ _ m) in Hin by done.
      repeat (apply elem_of_cons in Hin as [Hin | Hin]; [discriminate |]).
      by apply elem_of_nil in Hin.
  - intros [-> (m & n & Hm & Hn & Hok)].
    rewrite (task_trace_string _ _ _ _ m n) by done. unfold retried_once.
    destruct (outcome i 0) eqn:E0.
    + do 2 right. by left.
    + destruct Hok as [? | ->]; [done |]. do 4 right. by left.
    + destruct Hok as [? | ->]; [done |]. do 4 right. by left.
Qed.

Lemma tasks_terminals batchStart n : forall b,
  (forall i, b <= i < b + n -> messages !! i <> Some None) ->
  b + n <= length messages ->
  terminals (concat (map (SendBulk.task_trace outcome messages batchStart) (seq b n)))
  = seq b n.
Proof.
  induction n as [|n IH]; intros b Hobj Hb; [done |]. simpl.
  unfold terminals in *. rewrite omap_app, IH; [| intros i Hi; apply Hobj; lia | lia].
  fold (terminals (SendBulk.task_trace outcome messages batchStart b)).
  destruct (lookup_lt_is_Some_2 messages b ltac:(lia)) as [[m|] Hm].
  - by rewrite (task_trace_terminal _ _ _ _ m).
  - by destruct (Hobj b ltac:(lia)).
Qed.

Lemma tasks_sends batchStart i n : forall b,
  send_calls i (concat (map (SendBulk.task_trace outcome messages batchStart) (seq b n)))
    <= 2 /\
  (~ (b <= i < b + n) ->
   send_calls i (concat (map (SendBulk.task_trace outcome messages batchStart) (seq b n)))
     = 0).
Proof.
  induction n as [|n IH]; intros b; [by rewrite send_calls_nil; split; [lia |] |].
  simpl. rewrite send_calls_app.
  destruct (IH (S b)) as [H1 H2].
  destruct (task_trace_sends outcome messages batchStart b i) as [H3 H4].
  destruct (decide (i = b)) as [-> | Hne].
  - rewrite H2 by lia. split; lia.
  - rewrite H4 by done. split; [lia |]. intros Hi. rewrite H2; lia.
Qed.

(** The creation of the promises throws at the first [null] element. *)
Lemma thrown_at_first b e k0 :
  SendBulk.thrown_at messages b e = Some k0 ->
  forall i, b <= i < k0 -> messages !! i <> Some None.
Proof.
  unfold SendBulk.thrown_at. generalize (e - b) as n. intros n. revert b.
  induction n as [|n IH]; intros b Hf i Hi Hn; [done |]. simpl in Hf.
  destruct (SendBulk.is_null messages b) eqn:Hb.
  - injection Hf as <-. lia.
  - destruct (decide (i = b)) as [-> | Hne].
    + unfold SendBulk.is_null in Hb. by rewrite Hn in Hb.
    + apply (IH (S b) Hf i); [lia | done].
Qed.

Lemma objects_before_null k0 :
  messages !! k0 = Some None ->
  (forall i, i < k0 -> messages !! i <> Some None) ->
  objects_before messages = k0.
Proof.
  intros Hk Hobj. apply prefix_length_first; [| by right; left].
  intros i Hi.
  destruct (lookup_lt_is_Some_2 messages i) as [[m|] Hm].
  - apply lookup_lt_Some in Hk. lia.
  - eauto.
  - by destruct (Hobj i Hi).
Qed.

Lemma objects_before_ge e :
  e <= length messages ->
  (forall i, i < e -> messages !! i <> Some None) ->
  e <= objects_before messages.
Proof.
  intros He Hobj.
  destruct (decide (e <= objects_before messages)) as [Hle | Hgt]; [done |].
  destruct (prefix_length_stop (fun _ => true) messages) as [Hn | (m & _ & ?)];
    [unfold objects_before in *; lia | | done].
  destruct (Hobj (objects_before messages) ltac:(lia)). exact Hn.
Qed.

Lemma objects_before_object i :
  i < objects_before messages -> messages !! i <> Some None.
Proof.
  intros Hi. destruct (prefix_length_lookup _ messages i Hi) as (m & -> & _). done.
Qed.

(** What a schedule of the tasks of [b .. b + n) shows. *)
Lemma batch_settles b n t :
  interleave (map (SendBulk.task_trace outcome messages b) (seq b n)) t ->
  (forall i, b <= i < b + n -> messages !! i <> Some None) ->
  b + n <= length messages ->
  terminals t ≡ₚ seq b n /\
  (forall i, send_calls i t <= 2 /\ (~ (b <= i < b + n) -> send_calls i t = 0)) /\
  (forall i, Delivered i ∈ t <-> b <= i < b + n /\ acknowledged outcome messages i).
Proof.
  intros Hi Hobj Hlen.
  pose proof (interleave_Permutation _ _ Hi) as Hp. split; [| split].
  - unfold terminals. rewrite Hp.
    fold (terminals (concat (map (SendBulk.task_trace outcome messages b) (seq b n)))).
    by rewrite tasks_terminals.
  - intros i.
    assert (send_calls i t
            = send_calls i (concat (map (SendBulk.task_trace outcome messages b)
                                        (seq b n)))) as ->.
    { unfold send_calls. by rewrite Hp. }
    apply tasks_sends.
  - intros i. rewrite (interleave_elem_of_iff _ _ _ Hi). split.
    + intros (l & Hl & Hin).
      apply list_elem_of_In, in_map_iff in Hl as (j & <- & Hj).
      apply in_seq in Hj.
      apply task_trace_delivered in Hin as [-> Hack]. split; [lia | done].
    + intros [Hbi Hack].
      exists (SendBulk.task_trace outcome messages b i). split.
      * apply list_elem_of_In, in_map, in_seq. lia.
      * by apply task_trace_delivered.
Qed.

Lemma job_settles batchStart t :
  SendBulk.job outcome messages batchStart t ->
  Nat.min batchStart (length messages) <= objects_before messages ->
  terminals t ≡ₚ seq batchStart (objects_before messages - batchStart) /\
  (forall i, send_calls i t <= 2 /\
             (i < batchStart \/ objects_before messages <= i -> send_calls i t = 0)) /\
  (forall i, Delivered i ∈ t <->
             batchStart <= i < objects_before messages /\
             acknowledged outcome messages i).
Proof.
  pose proof (prefix_length_le (fun _ => true) messages) as Hle.
  fold (objects_before messages) in Hle.
  induction 1 as [b Hb | b t rest Hb batchEnd Hth Hi Hjob IH | b k0 t Hb batchEnd Hth Hi];
    intros Hk.
  - replace (objects_before messages - b) with 0 by lia. split; [done |].
    split; [intros i; rewrite send_calls_nil; split; lia |].
    intros i. split; [by intros ?%elem_of_nil | lia].
  - assert (forall i, b <= i < b + (batchEnd - b) -> messages !! i <> Some None) as Hobj.
    { intros i Hbi. apply (thrown_at_none messages b batchEnd); [done | lia]. }
    assert (batchEnd <= objects_before messages) as Hend.
    { apply objects_before_ge; [subst batchEnd; lia |].
      intros i Hie. destruct (decide (i < b)) as [Hlt | Hge].
      - apply objects_before_object. lia.
      - apply Hobj. lia. }
    destruct IH as (IH1 & IH2 & IH3);
      [subst batchEnd; unfold SendBulk.MESSAGE_BATCH_SIZE in *; lia |].
    destruct (batch_settles b (batchEnd - b) t Hi Hobj ltac:(subst batchEnd; lia))
      as (B1 & B2 & B3).
    set (pause := if (batchEnd <? length messages)%nat
                  then [Sleep SendBulk.BATCH_DELAY] else []).
    assert (terminals pause = []) as Hpt by (subst pause; by destruct (_ <? _)%nat).
    assert (forall i, send_calls i pause = 0) as Hps
      by (intros i; subst pause; by destruct (_ <? _)%nat).
    assert (forall i, Delivered i ∉ pause) as Hpd.
    { intros i Hin. subst pause. destruct (_ <? _)%nat.
      - apply elem_of_cons in Hin as [? | Hin]; [done | by apply elem_of_nil in Hin].
      - by apply elem_of_nil in Hin. }
    unfold SendBulk.MESSAGE_BATCH_SIZE in *.
    split; [| split].
    + rewrite !terminals_app, Hpt, IH1, B1. simpl.
      destruct (decide (b + 8 <= length messages)) as [H8 | H8].
      * replace (batchEnd - b) with 8 by (subst batchEnd; lia).
        rewrite <- seq_app. by replace (8 + (objects_before messages - (b + 8)))
          with (objects_before messages - b) by (subst batchEnd; lia).
      * replace (objects_before messages - (b + 8)) with 0 by lia.
        replace (batchEnd - b) with (objects_before messages - b)
          by (subst batchEnd; lia).
        by rewrite app_nil_r.
    + intros i. rewrite !send_calls_app, Hps.
      destruct (B2 i) as [H1 H2]. destruct (IH2 i) as [H3 H4].
      destruct (decide (i < b + 8)) as [Hlt | Hge].
      * rewrite H4 by (left; lia). split; [lia |].
        intros Hib. rewrite H2; [lia |]. subst batchEnd. lia.
      * rewrite H2 by (subst batchEnd; lia). split; [lia |].
        intros Hib. rewrite H4; [lia |]. right. lia.
    + intros i. rewrite !elem_of_app, IH3, B3. split.
      * intros [[Hbi Hack] | [Hin | [Hbi Hack]]].
        -- split; [lia | done].
        -- by destruct (Hpd i).
        -- split; [lia | done].
      * intros [Hbi Hack].
        destruct (decide (i < batchEnd)) as [Hlt | Hge].
        -- left. split; [lia | done].
        -- do 2 right. split; [| done]. subst batchEnd. lia.
  - apply thrown_at_range in Hth as Hr. destruct Hr as [Hr Hnull].
    assert (objects_before messages = k0) as Hk0.
    { apply objects_before_null; [done |].
      intros i Hik. destruct (decide (i < b)) as [Hlt | Hge].
      - apply objects_before_object. lia.
      - apply (thrown_at_first b batchEnd k0 Hth). lia. }
    rewrite Hk0 in *.
    destruct (batch_settles b (k0 - b) t Hi) as (B1 & B2 & B3).
    { intros i Hbi. apply (thrown_at_first b batchEnd k0 Hth). lia. }
    { subst batchEnd. lia. }
    split; [exact B1 |]. split.
    + intros i. destruct (B2 i) as [H1 H2]. split; [done |].
      intros Hib. apply H2. lia.
    + intros i. rewrite B3. split; intros [Hbi Hack]; (split; [lia | done]).
Qed.

End send_bulk.



(** ** The effort spent on one message is bounded *)

Lemma encode_calls_nil j : encode_calls j [] = 0.
Proof. done. Qed.

Lemma encode_calls_cons j a t :
  encode_calls j (a :: t) = (if is_encode j a then 1 else 0) + encode_calls j t.
Proof.
  unfold encode_calls. rewrite filter_cons.
  destruct (is_encode j a); by case_decide.
Qed.

Lemma encode_calls_app j t1 t2 :
  encode_calls j (t1 ++ t2) = encode_calls j t1 + encode_calls j t2.
Proof. unfold encode_calls. by rewrite filter_app, length_app. Qed.

Lemma calls_of_others i j ext :
  Forall (fun j' => j' = j) (items ext) -> i <> j ->
  send_calls i ext = 0 /\ encode_calls i ext = 0.
Proof.
  intros Hall Hne. rewrite Forall_forall in Hall.
  split; apply filter_none; apply Forall_forall; intros a Ha Hs;
    (assert (item_of a = Some i) as Hi
       by (destruct a; simpl in *; try done; apply Nat.eqb_eq in Hs; by subst));
    apply Hne, Hall, items_elem_of; eauto.
Qed.

Section bounded.
Context (c : nat -> list action -> nat) (K : nat).
Context (c_nil : forall i, c i [] = 0).
Context (c_app : forall i t1 t2, c i (t1 ++ t2) = c i t1 + c i t2).
Context (c_sleep : forall i ms, c i [Sleep ms] = 0).
Context (c_others : forall i j ext,
           Forall (fun j' => j' = j) (items ext) -> i <> j -> c i ext = 0).

Lemma spent_weaken k k' st : k <= k' -> spent c K k st -> spent c K k' st.
Proof. intros Hk H i. destruct (H i) as [H1 H2]. split; [done |]. intros. apply H2. lia. Qed.

Lemma spent_step {A} j (m : D A) st :
  emits_about j m -> adds_at_most (c j) K m ->
  spent c K j st -> spent c K (S j) (m st).2.
Proof.
  intros Hm Hb Hst i. destruct (Hm st) as (ext & E & Hext).
  destruct (Hb st) as (ext' & E' & Hk).
  assert (ext' = ext) as -> by (rewrite E in E'; by apply app_inv_head in E').
  rewrite E, c_app. destruct (Hst i) as [H1 H2].
  destruct (decide (i = j)) as [-> | Hne].
  - rewrite H2 by lia. split; lia.
  - rewrite (c_others i j ext) by done. split; [lia |]. intros. rewrite H2; lia.
Qed.

Lemma spent_sleep k ms st : spent c K k st -> spent c K k (sleep ms st).2.
Proof.
  intros H i. simpl. rewrite c_app, c_sleep. destruct (H i). split; [lia |].
  intros. rewrite H1; lia.
Qed.

Lemma for_range_spent body n : forall start st,
  (forall j, emits_about j (body j)) ->
  (forall j, adds_at_most (c j) K (body j)) ->
  spent c K start st -> spent c K (start + n) (for_range n start body st).2.
Proof.
  induction n as [|n IH]; intros start st He Hb Hst; simpl.
  - by rewrite Nat.add_0_r.
  - unfold mbind, D_bind.
    pose proof (spent_step start (body start) st (He start) (Hb start) Hst) as H1.
    destruct (body start st) as [[[]|] st1]; simpl in *.
    + replace (start + S n) with (S start + n) by lia. by apply IH.
    + eapply spent_weaken; [| exact H1]. lia.
Qed.

Lemma for_step_spent body step fuel : forall start stop st,
  (forall b st, spent c K b st -> spent c K (b + step) (body b st).2) ->
  spent c K start st ->
  exists k, spent c K k (for_step fuel start stop step body st).2.
Proof.
  induction fuel as [|fuel IH]; intros start stop st Hbody Hst; simpl.
  - by exists start.
  - destruct (start <? stop)%nat; [| by exists start].
    unfold mbind, D_bind. pose proof (Hbody start st Hst) as H1.
    destruct (body start st) as [[[]|] st1]; simpl in *.
    + by apply IH.
    + by exists (start + step).
Qed.

(** A batch of the kind all three batched routes have. *)
Lemma batch_spent body (pause : D unit) step stop b st :
  (forall j, emits_about j (body j)) ->
  (forall j, adds_at_most (c j) K (body j)) ->
  (forall k s, spent c K k s -> spent c K k (pause s).2) ->
  spent c K b st ->
  let batchEnd := Nat.min (b + step) stop in
  spent c K (b + step) ((for_range (batchEnd - b) b body ;; pause) st).2.
Proof.
  intros He Hb Hp Hst batchEnd.
  pose proof (for_range_spent body (batchEnd - b) b st He Hb Hst) as H1.
  unfold mbind, D_bind.
  destruct (for_range _ _ _ st) as [[[]|] st1]; simpl in *.
  - apply Hp. eapply spent_weaken; [| exact H1]. subst batchEnd. lia.
  - eapply spent_weaken; [| exact H1]. subst batchEnd. lia.
Qed.

End bounded.

Section adds.
Context (c : list action -> nat).
Context (c_app : forall t1 t2, c (t1 ++ t2) = c t1 + c t2).

Lemma c_nil_0 : c [] = 0.
Proof. pose proof (c_app [] []) as H. simpl in H. lia. Qed.

Lemma adds_weaken {A} K K' (m : D A) :
  K <= K' -> adds_at_most c K m -> adds_at_most c K' m.
Proof. intros Hk H st. destruct (H st) as (ext & E & Hc). exists ext. split; [done | lia]. Qed.

Lemma adds_nothing {A} (m : D A) :
  (forall st, trace (m st).2 = trace st) -> adds_at_most c 0 m.
Proof. intros H st. exists []. rewrite app_nil_r, c_nil_0. by split; [apply H |]. Qed.

Lemma adds_one {A} (m : D A) a K :
  (forall st, trace (m st).2 = trace st ++ [a]) -> c [a] <= K -> adds_at_most c K m.
Proof. intros H Hk st. exists [a]. by split; [apply H |]. Qed.

Lemma adds_bind {A B} K1 K2 (m : D A) (f : A -> D B) :
  adds_at_most c K1 m -> (forall a, adds_at_most c K2 (f a)) ->
  adds_at_most c (K1 + K2) (m ≫= f).
Proof.
  intros Hm Hf st. destruct (Hm st) as (e1 & E1 & C1).
  unfold mbind, D_bind. destruct (m st) as [[a|] st1]; simpl in *.
  - destruct (Hf a st1) as (e2 & E2 & C2).
    exists (e1 ++ e2). rewrite E2, E1, app_assoc, c_app. split; [done | lia].
  - exists e1. split; [done | lia].
Qed.

Lemma adds_try {A} K1 K2 (m h : D A) :
  adds_at_most c K1 m -> adds_at_most c K2 h ->
  adds_at_most c (K1 + K2) (try_catch m h).
Proof.
  intros Hm Hh st. destruct (Hm st) as (e1 & E1 & C1).
  unfold try_catch. destruct (m st) as [[a|] st1]; simpl in *.
  - exists e1. split; [done | lia].
  - destruct (Hh st1) as (e2 & E2 & C2).
    exists (e1 ++ e2). rewrite E2, E1, app_assoc, c_app. split; [done | lia].
Qed.

Lemma adds_item messages j : adds_at_most c 0 (item messages j).
Proof.
  apply adds_nothing. intros st. unfold item.
  by destruct (messages !! j) as [[m|]|].
Qed.

Lemma adds_as_string n : adds_at_most c 0 (as_string n).
Proof. apply adds_nothing. intros st. by destruct n. Qed.

Lemma adds_sleep ms : c [Sleep ms] = 0 -> adds_at_most c 0 (sleep ms).
Proof. intros H. apply (adds_one _ (Sleep ms)); [done | lia]. Qed.

Lemma adds_ret {A} (a : A) : adds_at_most c 0 (mret a : D A).
Proof. by apply adds_nothing. Qed.

End adds.

(** *** [/api/send-messages] *)

Lemma deliver_effort env timeout i m f :
  adds_at_most (send_calls i) 2 (deliver env timeout i m f) /\
  adds_at_most (encode_calls i) 1 (deliver env timeout i m f).
Proof.
  split; intros st; unfold_D; destruct (truthy (qrData m)); simpl; case_outcomes;
    (eexists; split; [simpl; rewrite <- ?app_assoc; reflexivity |]);
    cbn [app];
    rewrite ?send_calls_cons, ?send_calls_nil, ?encode_calls_cons, ?encode_calls_nil;
    simpl; rewrite ?Nat.eqb_refl; lia.
Qed.

Ltac adds_none capp :=
  first [ apply adds_item, capp | apply adds_as_string, capp | apply adds_ret, capp
        | by apply adds_sleep | apply adds_nothing; [apply capp | done] ].

Lemma v1_body_effort env messages i :
  adds_at_most (send_calls i) 2 (SendMessagesV1.body env messages i) /\
  adds_at_most (encode_calls i) 1 (SendMessagesV1.body env messages i).
Proof.
  split; unfold SendMessagesV1.body.
  - apply (adds_bind _ (send_calls_app i) 0 2); [adds_none (send_calls_app i) |].
    intros m. apply (adds_bind _ (send_calls_app i) 0 2); [adds_none (send_calls_app i) |].
    intros n. cbv zeta. apply (adds_bind _ (send_calls_app i) 2 0);
      [apply deliver_effort |].
    intros []. destruct (_ <? _)%nat; [| adds_none (send_calls_app i)].
    apply (adds_bind _ (send_calls_app i) 0 0); [adds_none (send_calls_app i) |].
    intros r. adds_none (send_calls_app i).
  - apply (adds_bind _ (encode_calls_app i) 0 1); [adds_none (encode_calls_app i) |].
    intros m. apply (adds_bind _ (encode_calls_app i) 0 1);
      [adds_none (encode_calls_app i) |].
    intros n. cbv zeta. apply (adds_bind _ (encode_calls_app i) 1 0);
      [apply deliver_effort |].
    intros []. destruct (_ <? _)%nat; [| adds_none (encode_calls_app i)].
    apply (adds_bind _ (encode_calls_app i) 0 0); [adds_none (encode_calls_app i) |].
    intros r. adds_none (encode_calls_app i).
Qed.

Lemma batched_body_effort env messages e i :
  adds_at_most (send_calls i) 2 (SendMessages.body env messages e i) /\
  adds_at_most (encode_calls i) 1 (SendMessages.body env messages e i).
Proof.
  split; unfold SendMessages.body.
  - apply (adds_bind _ (send_calls_app i) 0 2); [adds_none (send_calls_app i) |].
    intros m. apply (adds_bind _ (send_calls_app i) 0 2); [adds_none (send_calls_app i) |].
    intros n. cbv zeta. apply (adds_bind _ (send_calls_app i) 2 0);
      [apply deliver_effort |].
    intros []. destruct (_ <? _)%nat; adds_none (send_calls_app i).
  - apply (adds_bind _ (encode_calls_app i) 0 1); [adds_none (encode_calls_app i) |].
    intros m. apply (adds_bind _ (encode_calls_app i) 0 1);
      [adds_none (encode_calls_app i) |].
    intros n. cbv zeta. apply (adds_bind _ (encode_calls_app i) 1 0);
      [apply deliver_effort |].
    intros []. destruct (_ <? _)%nat; adds_none (encode_calls_app i).
Qed.

Lemma accept_state connected messages (job : D unit) :
  (accept connected messages job).2 = dstate0 \/
  (accept connected messages job).2 = (job dstate0).2.
Proof.
  unfold accept. destruct (negb connected); [by left |].
  destruct (length messages =? 0)%nat; [by left |].
  right. apply try_catch_state.
Qed.

Section effort.
Context (c : nat -> list action -> nat) (K : nat).
Context (c_nil : forall i, c i [] = 0).
Context (c_app : forall i t1 t2, c i (t1 ++ t2) = c i t1 + c i t2).
Context (c_sleep : forall i ms, c i [Sleep ms] = 0).
Context (c_others : forall i j ext,
           Forall (fun j' => j' = j) (items ext) -> i <> j -> c i ext = 0).

Lemma spent_nothing : spent c K 0 dstate0.
Proof. intros i. simpl. rewrite c_nil. split; lia. Qed.

Lemma pause_spent (b : bool) ms k s :
  spent c K k s -> spent c K k ((if b then sleep ms else mret tt) s).2.
Proof. intros H. destruct b; [by apply spent_sleep | done]. Qed.

Lemma v1_loop_effort env messages i :
  (forall j, adds_at_most (c j) K (SendMessagesV1.body env messages j)) ->
  c i (trace (SendMessagesV1.loop env messages dstate0).2) <= K.
Proof.
  intros Hb.
  pose proof (for_range_spent c K c_app c_others (SendMessagesV1.body env messages)
                (length messages) 0 dstate0 (emits_v1_body env messages) Hb
                spent_nothing) as H.
  by destruct (H i).
Qed.

Lemma batched_loop_effort env messages i :
  (forall e j, adds_at_most (c j) K (SendMessages.body env messages e j)) ->
  c i (trace (SendMessages.loop env messages dstate0).2) <= K.
Proof.
  intros Hb.
  destruct (for_step_spent c K (SendMessages.batch env messages) SendMessages.BATCH_SIZE
              (length messages) 0 (length messages) dstate0) as [k H].
  - intros b st Hst. unfold SendMessages.batch.
    apply (batch_spent c K c_app c_others); auto using emits_batched_body.
    intros k s. apply pause_spent.
  - apply spent_nothing.
  - by destruct (H i).
Qed.

Lemma qr_loop_effort env messages i :
  (forall e j, adds_at_most (c j) K (SendBulkQr.body env messages e j)) ->
  c i (trace (SendBulkQr.loop env messages dstate0).2) <= K.
Proof.
  intros Hb.
  destruct (for_step_spent c K (SendBulkQr.subBatch env messages) SendBulkQr.BATCH_SIZE
              (length messages) 0 (length messages) dstate0) as [k H].
  - intros b st Hst. unfold SendBulkQr.subBatch.
    apply (batch_spent c K c_app c_others); auto using emits_qr_body.
    intros k s. apply pause_spent.
  - apply spent_nothing.
  - by destruct (H i).
Qed.

End effort.

Lemma send_calls_others i j ext :
  Forall (fun j' => j' = j) (items ext) -> i <> j -> send_calls i ext = 0.
Proof. intros H Hne. by destruct (calls_of_others i j ext H Hne). Qed.

Lemma encode_calls_others i j ext :
  Forall (fun j' => j' = j) (items ext) -> i <> j -> encode_calls i ext = 0.
Proof. intros H Hne. by destruct (calls_of_others i j ext H Hne). Qed.

(** X10.  [/api/send-messages] (both revisions) calls the provider at
    most twice and the encoder at most once for any one message,
    whatever the request holds and whatever the provider and the encoder
    do; two sends are reached when the first one throws. *)
Theorem send_messages_effort_is_bounded (env : oracle) (connected : bool)
    (messages : list (option msg)) (i : nat) :
  send_calls i (trace (SendMessagesV1.handler env connected messages).2) <= 2 /\
  encode_calls i (trace (SendMessagesV1.handler env connected messages).2) <= 1 /\
  send_calls i (trace (SendMessages.handler env connected messages).2) <= 2 /\
  encode_calls i (trace (SendMessages.handler env connected messages).2) <= 1 /\
  send_calls 0 (trace (SendMessagesV1.handler two_sends_throw true
                         [Some (ticket "15551234567")]).2) = 2.
Proof.
  unfold SendMessagesV1.handler, SendMessages.handler.
  repeat split.
  - destruct (accept_state connected messages (SendMessagesV1.loop env messages))
      as [-> | ->];
      [change (trace dstate0) with (@nil action);
       rewrite ?send_calls_nil, ?encode_calls_nil; lia |].
    apply (v1_loop_effort send_calls 2 send_calls_nil send_calls_app send_calls_others).
    intros j. apply v1_body_effort.
  - destruct (accept_state connected messages (SendMessagesV1.loop env messages))
      as [-> | ->];
      [change (trace dstate0) with (@nil action);
       rewrite ?send_calls_nil, ?encode_calls_nil; lia |].
    apply (v1_loop_effort encode_calls 1 encode_calls_nil encode_calls_app
             encode_calls_others).
    intros j. apply v1_body_effort.
  - destruct (accept_state connected messages (SendMessages.loop env messages))
      as [-> | ->];
      [change (trace dstate0) with (@nil action);
       rewrite ?send_calls_nil, ?encode_calls_nil; lia |].
    apply (batched_loop_effort send_calls 2 send_calls_nil send_calls_app (fun _ _ => eq_refl)
             send_calls_others).
    intros e j. apply batched_body_effort.
  - destruct (accept_state connected messages (SendMessages.loop env messages))
      as [-> | ->];
      [change (trace dstate0) with (@nil action);
       rewrite ?send_calls_nil, ?encode_calls_nil; lia |].
    apply (batched_loop_effort encode_calls 1 encode_calls_nil encode_calls_app (fun _ _ => eq_refl)
             encode_calls_others).
    intros e j. apply batched_body_effort.
Qed.

(** *** [/api/send-bulk-qr] *)

Lemma qr_attempt_effort env i m f attempts :
  adds_at_most (send_calls i) (if (2 <=? attempts)%nat then 2 else 1)
    (SendBulkQr.attempt env i m f attempts) /\
  adds_at_most (encode_calls i) 2 (SendBulkQr.attempt env i m f attempts).
Proof.
  split; intros st;
    unfold SendBulkQr.attempt, SendBulkQr.qr_while, SendBulkQr.MAX_ATTEMPTS;
    unfold_D; destruct (2 <=? attempts)%nat; destruct (truthy (qrData m));
    simpl; case_outcomes;
    (eexists; split; [simpl; rewrite <- ?app_assoc; reflexivity |]);
    cbn [app];
    rewrite ?send_calls_cons, ?send_calls_nil, ?encode_calls_cons, ?encode_calls_nil;
    simpl; rewrite ?Nat.eqb_refl; lia.
Qed.

Lemma attempts_while_unfold env i m f :
  SendBulkQr.attempts_while env SendBulkQr.MAX_ATTEMPTS i m f false 0
  = SendBulkQr.attempt env i m f 1 ≫= fun success : bool =>
      if negb success && (1 <? 2)%nat
      then SendBulkQr.attempt env i m f 2 ≫= fun _ : bool => mret tt
      else mret tt.
Proof. reflexivity. Qed.

Lemma qr_attempts_effort env i m f :
  adds_at_most (send_calls i) 3
    (SendBulkQr.attempts_while env SendBulkQr.MAX_ATTEMPTS i m f false 0) /\
  adds_at_most (encode_calls i) 4
    (SendBulkQr.attempts_while env SendBulkQr.MAX_ATTEMPTS i m f false 0).
Proof.
  rewrite attempts_while_unfold. split.
  - apply (adds_bind _ (send_calls_app i) 1 2);
      [apply (qr_attempt_effort env i m f 1) |].
    intros success. destruct (negb success && _);
      [| apply (adds_weaken _ 0); [lia | adds_none (send_calls_app i)]].
    apply (adds_bind _ (send_calls_app i) 2 0);
      [apply (qr_attempt_effort env i m f 2) |].
    intros s. adds_none (send_calls_app i).
  - apply (adds_bind _ (encode_calls_app i) 2 2);
      [apply (qr_attempt_effort env i m f 1) |].
    intros success. destruct (negb success && _);
      [| apply (adds_weaken _ 0); [lia | adds_none (encode_calls_app i)]].
    apply (adds_bind _ (encode_calls_app i) 2 0);
      [apply (qr_attempt_effort env i m f 2) |].
    intros s. adds_none (encode_calls_app i).
Qed.

Lemma qr_body_effort env messages e i :
  adds_at_most (send_calls i) 3 (SendBulkQr.body env messages e i) /\
  adds_at_most (encode_calls i) 4 (SendBulkQr.body env messages e i).
Proof.
  split; unfold SendBulkQr.body.
  - apply (adds_bind _ (send_calls_app i) 0 3); [adds_none (send_calls_app i) |].
    intros m. destruct (validNumberQr (number m)) as [f|].
    + apply (adds_bind _ (send_calls_app i) 3 0); [apply qr_attempts_effort |].
      intros []. destruct (_ <? _)%nat; adds_none (send_calls_app i).
    + apply (adds_one _ _ (Failed i)); [done |].
      rewrite ?send_calls_cons, ?send_calls_nil, ?encode_calls_cons, ?encode_calls_nil.
      simpl. lia.
  - apply (adds_bind _ (encode_calls_app i) 0 4); [adds_none (encode_calls_app i) |].
    intros m. destruct (validNumberQr (number m)) as [f|].
    + apply (adds_bind _ (encode_calls_app i) 4 0); [apply qr_attempts_effort |].
      intros []. destruct (_ <? _)%nat; adds_none (encode_calls_app i).
    + apply (adds_one _ _ (Failed i)); [done |].
      rewrite ?send_calls_cons, ?send_calls_nil, ?encode_calls_cons, ?encode_calls_nil.
      simpl. lia.
Qed.

(** X11.  [/api/send-bulk-qr] calls the provider at most three times
    and the encoder at most four times for any one message, whatever the
    request holds and whatever the provider and the encoder do; both
    bounds are reached. *)
Theorem send_bulk_qr_effort_is_bounded (env : oracle) (connected : bool)
    (messages : list (option msg)) (i : nat) :
  send_calls i (trace (SendBulkQr.handler env connected messages).2) <= 3 /\
  encode_calls i (trace (SendBulkQr.handler env connected messages).2) <= 4 /\
  send_calls 0 (trace (SendBulkQr.handler two_sends_throw true
                         [Some (ticket "15551234567")]).2) = 3 /\
  encode_calls 0 (trace (SendBulkQr.handler encoder_hangs true
                           [Some (ticket "15551234567")]).2) = 4.
Proof.
  unfold SendBulkQr.handler. repeat split.
  - destruct (accept_state connected messages (SendBulkQr.loop env messages))
      as [-> | ->];
      [change (trace dstate0) with (@nil action);
       rewrite ?send_calls_nil, ?encode_calls_nil; lia |].
    apply (qr_loop_effort send_calls 3 send_calls_nil send_calls_app (fun _ _ => eq_refl)
             send_calls_others).
    intros e j. apply qr_body_effort.
  - destruct (accept_state connected messages (SendBulkQr.loop env messages))
      as [-> | ->];
      [change (trace dstate0) with (@nil action);
       rewrite ?send_calls_nil, ?encode_calls_nil; lia |].
    apply (qr_loop_effort encode_calls 4 encode_calls_nil encode_calls_app (fun _ _ => eq_refl)
             encode_calls_others).
    intros e j. apply qr_body_effort.
Qed.

(** ** [/api/send-messages] in [server.js]: the pauses between messages *)

Lemma pauses_app t1 t2 : pauses (t1 ++ t2) = pauses t1 ++ pauses t2.
Proof. apply omap_app. Qed.

Lemma deliver_no_pause env timeout i m f st :
  exists st1,
    deliver env timeout i m f st = (Some tt, st1) /\
    pauses (trace st1) = pauses (trace st).
Proof.
  unfold_D. destruct (truthy (qrData m)); simpl; case_outcomes;
    (eexists; split; [reflexivity |]); simpl;
    rewrite ?pauses_app; simpl; by rewrite ?app_nil_r.
Qed.

Lemma v1_body_pause env messages i m st :
  (forall n, 0 <= random300 env n < 300)%Z ->
  messages !! i = Some (Some m) -> is_string (number m) ->
  exists st1 ps,
    SendMessagesV1.body env messages i st = (Some tt, st1) /\
    pauses (trace st1) = pauses (trace st) ++ ps /\
    length ps = (if (i <? length messages - 1)%nat then 1 else 0) /\
    Forall (fun ms => 600 <= ms <= 899)%Z ps.
Proof.
  intros Hr Hm Hn. unfold SendMessagesV1.body, item. rewrite Hm.
  cbv [mbind mret D_bind D_ret as_string].
  destruct (number m) as [n|]; [| done].
  destruct (deliver_no_pause env 5000 i m (formatNumber n) st) as (st1 & E1 & P1).
  rewrite E1. destruct (i <? length messages - 1)%nat.
  - unfold random, sleep, emit. simpl.
    eexists _, [_]. split; [reflexivity |]. simpl.
    rewrite pauses_app, P1. split; [done |]. split; [done |].
    repeat constructor; specialize (Hr (randoms st1)); lia.
  - exists st1, []. rewrite app_nil_r. by repeat split.
Qed.

Lemma v1_range_pauses env messages :
  (forall n, 0 <= random300 env n < 300)%Z -> well_formed messages ->
  forall n start st, start + n <= length messages ->
  exists st' ps,
    for_range n start (SendMessagesV1.body env messages) st = (Some tt, st') /\
    pauses (trace st') = pauses (trace st) ++ ps /\
    length ps = Nat.min (start + n) (length messages - 1)
                - Nat.min start (length messages - 1) /\
    Forall (fun ms => 600 <= ms <= 899)%Z ps.
Proof.
  intros Hr Hwf. induction n as [|n IH]; intros start st Hn; simpl.
  - exists st, []. rewrite app_nil_r, Nat.add_0_r, Nat.sub_diag. by repeat split.
  - destruct (well_formed_lookup messages start Hwf ltac:(lia)) as (m & Hm & Hs).
    destruct (v1_body_pause env messages start m st Hr Hm Hs)
      as (st1 & p1 & E1 & P1 & L1 & F1).
    destruct (IH (S start) st1 ltac:(lia)) as (st2 & p2 & E2 & P2 & L2 & F2).
    exists st2, (p1 ++ p2). unfold mbind, D_bind. rewrite E1, E2, P2, P1.
    split; [done |]. split; [by rewrite app_assoc |].
    split; [| by apply Forall_app].
    rewrite length_app, L1, L2.
    destruct (start <? length messages - 1)%nat eqn:E;
      [apply Nat.ltb_lt in E | apply Nat.ltb_ge in E]; lia.
Qed.

(** X12.  When [Math.random] stays within its range and every element
    is an object whose [number] is a string, the job of [/api/send-messages] in [server.js] pauses
    once between two consecutive messages and not after the last one:
    [N - 1] pauses for [N] messages, each of 600 to 899 ms. *)
Theorem send_messages_pauses_between_messages (env : oracle) (messages : list (option msg)) :
  (forall n, 0 <= random300 env n < 300)%Z -> well_formed messages ->
  exists st,
    SendMessagesV1.loop env messages dstate0 = (Some tt, st) /\
    length (pauses (trace st)) = length messages - 1 /\
    Forall (fun ms => 600 <= ms <= 899)%Z (pauses (trace st)).
Proof.
  intros Hr Hwf.
  destruct (v1_range_pauses env messages Hr Hwf (length messages) 0 dstate0)
    as (st & ps & E & P & L & F); [lia |].
  exists st. split; [exact E |]. simpl in P. rewrite P.
  split; [rewrite L; lia | exact F].
Qed.

Lemma send_messages_pauses_between_messages_witness :
  let messages := [Some (plain "+15551234567"); Some (ticket "15551234567"); Some (plain "abc")] in
  exists st,
    SendMessagesV1.loop encoder_hangs messages dstate0 = (Some tt, st) /\
    length (pauses (trace st)) = 2 /\
    Forall (fun ms => 600 <= ms <= 899)%Z (pauses (trace st)).
Proof.
  intros messages.
  apply (send_messages_pauses_between_messages encoder_hangs messages).
  - intros n. simpl. lia.
  - repeat constructor.
Defined.

(** ** Disconnections *)

Lemma handleDisconnection_twice (w : world) :
  handleDisconnection (handleDisconnection w) = handleDisconnection w.
Proof.
  destruct w as [q l ln lnm pp cs cl dcl rt mt ct lca ra lks lat qgt qa qar
                 nw tm tk nid cc rs].
  destruct ct as [c|], rt as [r|]; unfold handleDisconnection; fields; reflexivity.
Qed.

Lemma handleDisconnection_lastKnownState s (w : world) :
  handleDisconnection (set_lastKnownState s w)
  = set_lastKnownState s (handleDisconnection w).
Proof.
  destruct w as [q l ln lnm pp cs cl dcl rt mt ct lca ra lks lat qgt qa qar
                 nw tm tk nid cc rs].
  destruct ct as [c|], rt as [r|]; unfold handleDisconnection; fields; reflexivity.
Qed.

(** X13.  [handleDisconnection] is idempotent: a second disconnection
    that arrives before the reconnection timer has fired changes nothing,
    whether it comes as a ['disconnected'] event or as a ['change_state']
    event with state DISCONNECTED (which only records the state). *)
Theorem handleDisconnection_idempotent (w : world) :
  handleDisconnection (handleDisconnection w) = handleDisconnection w /\
  on_event Disconnected (on_event Disconnected w) = on_event Disconnected w /\
  on_event (ChangeState "DISCONNECTED") (on_event Disconnected w)
  = set_lastKnownState (Some "DISCONNECTED") (on_event Disconnected w).
Proof.
  split; [apply handleDisconnection_twice |].
  split; [apply handleDisconnection_twice |].
  unfold on_event, on_change_state. cbv zeta.
  change (String.eqb "DISCONNECTED" "DISCONNECTED") with true. cbv iota.
  by rewrite handleDisconnection_lastKnownState, handleDisconnection_twice.
Qed.

(** ** No session before the provider is ready *)

Section logged_out.

Lemma logged_out_assigned w : logged_out (set_isLoggedIn false w).
Proof. reflexivity. Qed.

Ltac log_out _ :=
  lazymatch goal with
  | |- logged_out (set_isLoggedIn false _) => apply logged_out_assigned
  end.

Lemma dispatch_logged_out r w : logged_out w -> logged_out (dispatch r w).
Proof.
  intros H. destruct r; unfold dispatch; simpl; walk_with logged_out log_out.
Qed.

Lemma resume_logged_out k r w w' :
  logged_out w -> resume k r w = Some w' -> logged_out w'.
Proof.
  intros H E. destruct k, r; simpl in E; try discriminate; injection E as <-;
    unfold status_response; walk_with logged_out log_out.
Qed.

Lemma step_logged_out w te :
  not_ready te -> logged_out w -> logged_out (step w te).
Proof.
  intros Hte H. unfold step. cbv zeta.
  destruct te as [t [| e | id | id r | r]]; cbn [fst snd].
  - walk_with logged_out log_out.
  - destruct e; [| | | by destruct Hte | | |]; walk_with logged_out log_out.
  - walk_with logged_out log_out.
  - destruct (tasks (set_now t w) !! id) as [k|] eqn:Ek;
      [| walk_with logged_out log_out].
    destruct (resume k r _) as [w'|] eqn:Er; [| walk_with logged_out log_out].
    eapply resume_logged_out; [| exact Er]. walk_with logged_out log_out.
  - by apply dispatch_logged_out; walk_with logged_out log_out.
Qed.

Lemma run_from_logged_out evs : forall w,
  Forall not_ready evs -> logged_out w -> logged_out (run_from w evs).
Proof.
  unfold run_from. induction evs as [|e evs IH]; intros w Hall H; simpl; [done |].
  apply Forall_cons in Hall as [He Hall]. by apply IH, step_logged_out.
Qed.

End logged_out.

(** X14.  Until the provider has emitted ['ready'], nobody is logged
    in, whatever else happens (QR codes, authentication, timers, settled
    calls, requests): the bulk routes answer 403 without touching the
    provider and [/ping] answers that WhatsApp is not connected. *)
Theorem no_session_before_ready (evs : list (Z * event)) (env : oracle)
    (messages : list (option msg)) :
  Forall not_ready evs ->
  isLoggedIn (run evs) = false /\
  connected (run evs) = false /\
  SendMessagesV1.handler env (connected (run evs)) messages = (403, dstate0) /\
  SendMessages.handler env (connected (run evs)) messages = (403, dstate0) /\
  SendBulkQr.handler env (connected (run evs)) messages = (403, dstate0) /\
  get_ping (run evs)
  = respond (Response "/ping" 200 false (connectionState (run evs))
               "WhatsApp not connected") (run evs).
Proof.
  intros Hall.
  assert (isLoggedIn (run evs) = false) as H
    by (by apply (run_from_logged_out evs initial_world)).
  assert (connected (run evs) = false) as Hc by (unfold connected; by rewrite H).
  split; [exact H |]. split; [exact Hc |].
  unfold SendMessagesV1.handler, SendMessages.handler, SendBulkQr.handler, get_ping.
  by rewrite Hc, H.
Qed.

Lemma no_session_before_ready_witness :
  let evs := [ (t0, Boot); (t0 + 1000, Emit (Qr "2@abc"));
               (t0 + 1100, Settle 2 (FulfilledWith "data:image/png;base64,AAAA"));
               (t0 + 9000, Emit Authenticated) ]%Z in
  isLoggedIn (run evs) = false /\
  SendBulkQr.handler always_ok (connected (run evs)) [Some (plain "15551234567")]
  = (403, dstate0).
Proof.
  intros evs.
  destruct (no_session_before_ready evs always_ok [Some (plain "15551234567")])
    as (H1 & _ & _ & _ & H2 & _).
  - repeat constructor.
  - exact (conj H1 H2).
Defined.

(** ** Timers do not revive a dropped session *)

Lemma initializeWhatsAppClient_refused w :
  is_some (client w) = true -> initializeWhatsAppClient w = w.
Proof. intros H. unfold initializeWhatsAppClient. by rewrite H. Qed.

Lemma fire_idle c state n t w :
  idle_with_client c state n w -> idle_with_client c state n (fire t w).
Proof.
  destruct w as [q l ln lnm pp cs cl dcl rt mt ct lca ra lks lat qgt qa qar
                 nw tm tk nid cc rs].
  unfold idle_with_client. cbn [client isLoggedIn connectionState clientsCreated
                                  qrCodeData qrAutoRefresh].
  intros (-> & Hc & -> & -> & -> & Hq).
  destruct c as [x|]; [clear Hc | discriminate].
  destruct t; unfold fire, monitor, checkActiveConnection.
  - cbv zeta. rewrite initializeWhatsAppClient_refused by (by destruct (_ <? _)%nat).
    destruct (_ <? _)%nat; by fields.
  - by rewrite initializeWhatsAppClient_refused.
  - by rewrite initializeWhatsAppClient_refused.
  - fields. cbn [negb andb is_some].
    assert (negb (String.eqb q EmptyString) && true && qar
              && (QR_MAX_AGE <? nw - qgt)%Z = false) as ->
      by (destruct Hq as [-> | ->]; [done | by destruct (negb _)]).
    done.
  - by fields.
Qed.

Lemma timers_idle c state n tm w :
  idle_with_client c state n w -> idle_with_client c state n (set_timers tm w).
Proof. by destruct w. Qed.

Lemma now_idle c state n t w :
  idle_with_client c state n w -> idle_with_client c state n (set_now t w).
Proof. by destruct w. Qed.

Lemma step_idle c state n w te :
  is_fire te -> idle_with_client c state n w -> idle_with_client c state n (step w te).
Proof.
  intros Hte H. unfold step. cbv zeta.
  destruct te as [t [| e | id | id r | r]]; try by destruct Hte.
  cbn [fst snd].
  destruct (timers (set_now t w) !! id) as [tm|]; [| by apply now_idle].
  apply fire_idle. destruct (is_interval tm); [by apply now_idle |].
  unfold clearTimer. by apply timers_idle, now_idle.
Qed.

(** X15.  While the client object exists and nobody is logged in (and
    the monitor has no QR code to refresh), the timers of the server
    change nothing that matters: whichever timers fire, and however
    often, the connection state, the client and the number of clients
    created stay as they are.  So after a disconnection neither the
    reconnection timer nor the monitor restarts the session. *)
Theorem timers_do_not_revive_a_dropped_session (w : world) (evs : list (Z * event)) :
  is_some (client w) = true -> isLoggedIn w = false ->
  qrCodeData w = EmptyString \/ qrAutoRefresh w = false ->
  Forall is_fire evs ->
  connectionState (run_from w evs) = connectionState w /\
  client (run_from w evs) = client w /\
  isLoggedIn (run_from w evs) = false /\
  clientsCreated (run_from w evs) = clientsCreated w.
Proof.
  intros Hc Hl Hq Hall.
  assert (idle_with_client (client w) (connectionState w) (clientsCreated w)
            (run_from w evs)) as (H1 & _ & H2 & H3 & H4 & _).
  { assert (idle_with_client (client w) (connectionState w) (clientsCreated w) w) as H
      by done.
    revert H. generalize (client w) (connectionState w) (clientsCreated w).
    intros c s n. clear Hc Hl Hq. revert w. unfold run_from.
    induction evs as [|e evs IH]; intros w H; simpl; [done |].
    apply Forall_cons in Hall as [He Hall]. by apply IH, step_idle. }
  done.
Qed.

Lemma timers_do_not_revive_a_dropped_session_witness :
  let evs := [ (t0 + 45000, Fire 5); (t0 + 60000, Fire 1); (t0 + 120000, Fire 1) ]%Z in
  connectionState (run_from (run dropped_events) evs) = "DISCONNECTED" /\
  client (run_from (run dropped_events) evs) = Some 0 /\
  isLoggedIn (run_from (run dropped_events) evs) = false /\
  clientsCreated (run_from (run dropped_events) evs) = 1.
Proof.
  intros evs.
  apply (timers_do_not_revive_a_dropped_session (run dropped_events) evs).
  - vm_compute. reflexivity.
  - vm_compute. reflexivity.
  - left. vm_compute. reflexivity.
  - repeat constructor.
Defined.

(** ** The silence window *)

Lemma failure_within_window w t error_message :
  (t - lastActiveTimestamp w <= 30000)%Z ->
  resume AwaitCheckState (Rejected error_message) (set_now t w) = Some (set_now t w) /\
  resume AwaitMonitorState (Rejected error_message) (set_now t w) = Some (set_now t w).
Proof.
  intros H. cbn [resume].
  assert (now (set_now t w) = t) as -> by done.
  assert (lastActiveTimestamp (set_now t w) = lastActiveTimestamp w) as -> by done.
  destruct (30000 <? t - lastActiveTimestamp w)%Z eqn:E; [| done].
  apply Z.ltb_lt in E. lia.
Qed.

(** X16.  Every successful state query restarts the 30-second silence
    window, not only the connection check itself: after [/ping],
    [/status] or the monitor has got a state from the provider, or after
    a battery event, a liveness query that fails within the next 30
    seconds is ignored. *)
Theorem every_successful_query_restarts_the_window (w : world)
    (state stored error_message : string) (t : Z) :
  (t - now w <= 30000)%Z ->
  forall w1,
    resume AwaitPingState (FulfilledWith state) w = Some w1 \/
    resume (AwaitStatusState stored) (FulfilledWith state) w = Some w1 \/
    resume AwaitMonitorState (FulfilledWith state) w = Some w1 \/
    on_event ChangeBattery w = w1 ->
    lastActiveTimestamp w1 = now w /\
    resume AwaitCheckState (Rejected error_message) (set_now t w1) = Some (set_now t w1) /\
    resume AwaitMonitorState (Rejected error_message) (set_now t w1)
    = Some (set_now t w1).
Proof.
  intros Ht w1 H.
  assert (lastActiveTimestamp w1 = now w) as E.
  { destruct H as [H | [H | [H | H]]]; cbn [resume on_event] in H;
      [injection H as <- | injection H as <- | injection H as <- | subst w1]; done. }
  split; [exact E |]. apply failure_within_window. by rewrite E.
Qed.

Lemma every_successful_query_restarts_the_window_witness :
  exists w1,
    resume AwaitPingState (FulfilledWith "CONNECTED") (set_now (t0 + 50000) checked)
    = Some w1 /\
    resume AwaitCheckState (Rejected "timeout") (set_now (t0 + 70000) w1)
    = Some (set_now (t0 + 70000) w1).
Proof.
  eexists. split; [reflexivity |].
  eapply (every_successful_query_restarts_the_window
            (set_now (t0 + 50000) checked) "CONNECTED" "" "timeout" (t0 + 70000)).
  - vm_compute. discriminate.
  - left. reflexivity.
Defined.

(** ** Invariants of every run *)

Lemma run_invariant (I : world -> Prop) :
  I initial_world -> (forall w te, I w -> I (step w te)) ->
  forall evs, I (run evs).
Proof.
  intros H0 Hstep evs. unfold run, run_from. revert H0. generalize initial_world.
  induction evs as [|e evs IH]; intros w H; simpl; [done |].
  by apply IH, Hstep.
Qed.

(** *** The attempt counter *)

Section attempts.

Lemma attempts_ok_reset w : attempts_ok (set_reconnectionAttempts 0 w).
Proof. unfold attempts_ok. cbn. lia. Qed.

Ltac count _ :=
  lazymatch goal with
  | |- attempts_ok (set_reconnectionAttempts 0 _) => apply attempts_ok_reset
  | E : (MAX_RECONNECTION_ATTEMPTS <? reconnectionAttempts ?w)%nat = false
    |- attempts_ok ?w => apply Nat.ltb_ge in E; exact E
  end.

Lemma dispatch_attempts r w : attempts_ok w -> attempts_ok (dispatch r w).
Proof. intros H. destruct r; unfold dispatch; simpl; walk_with attempts_ok count. Qed.

Lemma resume_attempts k r w w' :
  attempts_ok w -> resume k r w = Some w' -> attempts_ok w'.
Proof.
  intros H E. destruct k, r; simpl in E; try discriminate; injection E as <-;
    unfold status_response; walk_with attempts_ok count.
Qed.

Lemma step_attempts w te : attempts_ok w -> attempts_ok (step w te).
Proof.
  intros H. unfold step. cbv zeta.
  destruct te as [t [| e | id | id r | r]]; cbn [fst snd].
  - walk_with attempts_ok count.
  - walk_with attempts_ok count.
  - walk_with attempts_ok count.
  - destruct (tasks (set_now t w) !! id) as [k|] eqn:Ek;
      [| walk_with attempts_ok count].
    destruct (resume k r _) as [w'|] eqn:Er; [| walk_with attempts_ok count].
    eapply resume_attempts; [| exact Er]. walk_with attempts_ok count.
  - by apply dispatch_attempts; walk_with attempts_ok count.
Qed.

End attempts.

(** X17.  In every run of the server the reconnection attempt counter
    stays within [MAX_RECONNECTION_ATTEMPTS]: the reconnection callback
    and the monitor reset it to zero as soon as it exceeds 3. *)
Theorem reconnection_attempts_stay_within_maximum (evs : list (Z * event)) :
  reconnectionAttempts (run evs) <= MAX_RECONNECTION_ATTEMPTS.
Proof.
  apply (run_invariant attempts_ok); [unfold attempts_ok; cbn; lia |].
  apply step_attempts.
Qed.

(** *** The two intervals *)

Lemma iok_next tm n m c : intervals_ok tm n m c -> intervals_ok tm (S n) m c.
Proof.
  intros (H1 & H2 & H3). repeat split; try done. intros id Hid. apply H3. lia.
Qed.

Lemma iok_insert tm n m c t :
  is_interval t = false ->
  intervals_ok tm n m c -> intervals_ok (<[n := t]> tm) (S n) m c.
Proof.
  intros Ht (H1 & H2 & H3). repeat split.
  - intros id Hl. apply lookup_insert_Some in Hl as [[_ ->] | [Hne Hl]]; [done | eauto].
  - intros id Hl. apply lookup_insert_Some in Hl as [[_ ->] | [Hne Hl]]; [done | eauto].
  - intros id Hid. rewrite lookup_insert_ne; [| lia]. apply H3. lia.
Qed.

Lemma iok_delete tm n m c id :
  intervals_ok tm n m c -> intervals_ok (delete id tm) n m c.
Proof.
  intros (H1 & H2 & H3). repeat split.
  - intros id' Hl. apply lookup_delete_Some in Hl as [_ Hl]. eauto.
  - intros id' Hl. apply lookup_delete_Some in Hl as [_ Hl]. eauto.
  - intros id' Hid. apply lookup_delete_None. right. by apply H3.
Qed.

Lemma iok_clear_monitor tm n c id :
  intervals_ok tm n (Some id) c -> intervals_ok (delete id tm) n None c.
Proof.
  intros (H1 & H2 & H3). repeat split.
  - intros id' Hl. apply lookup_delete_Some in Hl as [Hne Hl].
    specialize (H1 id' Hl). congruence.
  - intros id' Hl. apply lookup_delete_Some in Hl as [_ Hl]. eauto.
  - intros id' Hid. apply lookup_delete_None. right. by apply H3.
Qed.

Lemma iok_clear_check tm n m id :
  intervals_ok tm n m (Some id) -> intervals_ok (delete id tm) n m None.
Proof.
  intros (H1 & H2 & H3). repeat split.
  - intros id' Hl. apply lookup_delete_Some in Hl as [_ Hl]. eauto.
  - intros id' Hl. apply lookup_delete_Some in Hl as [Hne Hl].
    specialize (H2 id' Hl). congruence.
  - intros id' Hid. apply lookup_delete_None. right. by apply H3.
Qed.

Lemma iok_new_monitor tm n c :
  intervals_ok tm n None c ->
  intervals_ok (<[n := MonitorTick]> tm) (S n) (Some n) c.
Proof.
  intros (H1 & H2 & H3). repeat split.
  - intros id Hl. apply lookup_insert_Some in Hl as [[<- _] | [Hne Hl]]; [done |].
    by specialize (H1 id Hl).
  - intros id Hl. apply lookup_insert_Some in Hl as [[<- ?] | [Hne Hl]]; [done | eauto].
  - intros id Hid. rewrite lookup_insert_ne; [| lia]. apply H3. lia.
Qed.

Lemma iok_new_check tm n m :
  intervals_ok tm n m None ->
  intervals_ok (<[n := ConnectionCheck]> tm) (S n) m (Some n).
Proof.
  intros (H1 & H2 & H3). repeat split.
  - intros id Hl. apply lookup_insert_Some in Hl as [[<- ?] | [Hne Hl]]; [done | eauto].
  - intros id Hl. apply lookup_insert_Some in Hl as [[<- _] | [Hne Hl]]; [done |].
    by specialize (H2 id Hl).
  - intros id Hid. rewrite lookup_insert_ne; [| lia]. apply H3. lia.
Qed.

Section intervals.

Lemma suspend_intervals k : Preserves intervals_inv (suspend k).
Proof. intros []. unfold intervals_inv. fields. apply iok_next. Qed.

#[local] Existing Instance suspend_intervals.

Lemma setTimer_intervals t :
  is_interval t = false -> Preserves intervals_inv (setTimer t).
Proof. intros Ht []. unfold intervals_inv. fields. by apply iok_insert. Qed.

Lemma setTimer_reinitialize_intervals d :
  Preserves intervals_inv (setTimer (Reinitialize d)).
Proof. by apply setTimer_intervals. Qed.

Lemma setTimer_retry_intervals : Preserves intervals_inv (setTimer InitRetryCallback).
Proof. by apply setTimer_intervals. Qed.

#[local] Existing Instance setTimer_reinitialize_intervals.
#[local] Existing Instance setTimer_retry_intervals.

Lemma clearTimer_intervals id : Preserves intervals_inv (clearTimer id).
Proof. intros []. unfold intervals_inv. fields. apply iok_delete. Qed.

#[local] Existing Instance clearTimer_intervals.

Lemma handleDisconnection_intervals : Preserves intervals_inv handleDisconnection.
Proof.
  intros []. unfold intervals_inv, handleDisconnection. case_fields.
  all: intros Hinv; eauto using iok_clear_check, iok_insert.
Qed.

#[local] Existing Instance handleDisconnection_intervals.

Lemma startMonitoring_intervals : Preserves intervals_inv startMonitoring.
Proof.
  intros []. unfold intervals_inv, startMonitoring. case_fields.
  all: intros Hinv; eauto using iok_clear_monitor, iok_new_monitor.
Qed.

#[local] Existing Instance startMonitoring_intervals.

Lemma start_connection_check_intervals :
  Preserves intervals_inv start_connection_check.
Proof.
  intros []. unfold intervals_inv, start_connection_check. case_fields.
  all: intros Hinv; eauto using iok_clear_check, iok_new_check.
Qed.

#[local] Existing Instance start_connection_check_intervals.

Lemma clear_timers_intervals : Preserves intervals_inv clear_timers.
Proof.
  intros []. unfold intervals_inv, clear_timers. case_fields.
  all: intros Hinv; eauto using iok_clear_monitor, iok_clear_check, iok_delete.
Qed.

#[local] Existing Instance clear_timers_intervals.

Lemma dispatch_intervals r w : intervals_inv w -> intervals_inv (dispatch r w).
Proof. intros H. destruct r; unfold dispatch; simpl; walk intervals_inv. Qed.

Lemma resume_intervals k r w w' :
  intervals_inv w -> resume k r w = Some w' -> intervals_inv w'.
Proof.
  intros H E. destruct k, r; simpl in E; try discriminate; injection E as <-;
    walk intervals_inv.
Qed.

Lemma step_intervals w te : intervals_inv w -> intervals_inv (step w te).
Proof.
  intros H.
  assert (intervals_inv (set_now te.1 w)) as H' by exact H.
  clear H. revert H'. unfold step. cbv zeta. generalize (set_now te.1 w). clear w.
  intros w H. destruct te as [t []]; cbn [fst snd] in *.
  - walk intervals_inv.
  - walk intervals_inv.
  - destruct (timers w !! id) as [tm|] eqn:E; [| done].
    assert (intervals_inv (if is_interval tm then w else clearTimer id w)) as H'
      by (destruct (is_interval tm); [done | by apply clearTimer_intervals]).
    revert H'. generalize (if is_interval tm then w else clearTimer id w).
    clear. intros w H. destruct tm; unfold fire; walk intervals_inv.
  - destruct (tasks w !! id) as [k|] eqn:Ek; [| done].
    destruct (resume k r _) as [w'|] eqn:Er; [| done].
    eapply resume_intervals; [| exact Er]. walk intervals_inv.
  - by apply dispatch_intervals.
Qed.

End intervals.



(** *** The handler that [/logout] runs *)

Section logout.
Context (P : string -> Prop).

Lemma flo_state v w :
  bool_decide (v ∈ live_states) = true ->
  first_logout_only P w -> first_logout_only P (set_connectionState v w).
Proof.
  intros Hv (H1 & H2 & H3). split; [| done]. left. by apply bool_decide_eq_true in Hv.
Qed.

Lemma flo_reported s w :
  P s -> first_logout_only P w -> first_logout_only P (set_connectionState s w).
Proof. intros Hs (H1 & H2 & H3). split; [| done]. by right. Qed.

Lemma flo_suspend k w :
  of_first_logout k -> first_logout_only P w -> first_logout_only P (suspend k w).
Proof.
  intros Hk (H1 & H2 & H3). split; [done |]. split; [| done].
  intros id k'. unfold suspend. cbn [tasks set_tasks set_nextId].
  intros Hl. apply lookup_insert_Some in Hl as [[_ <-] | [_ Hl]]; eauto.
Qed.

Lemma flo_delete id w :
  first_logout_only P w ->
  first_logout_only P (set_tasks (delete id (tasks w)) w).
Proof.
  intros (H1 & H2 & H3). split; [done |]. split; [| done].
  intros id' k. cbn [tasks set_tasks].
  intros Hl. apply lookup_delete_Some in Hl as [_ Hl]. eauto.
Qed.

Lemma flo_respond r w :
  (res_path r = "/logout" -> res_message r = reset_text) ->
  first_logout_only P w -> first_logout_only P (respond r w).
Proof.
  intros Hr (H1 & H2 & H3). split; [done |]. split; [done |].
  unfold respond. cbn [responses set_responses].
  apply Forall_app. split; [done | by repeat constructor].
Qed.

Ltac first_logout _ :=
  first
    [ match goal with
      | H : _ = LoggedOut |- _ => discriminate H
      | H : LoggedOut = _ |- _ => discriminate H
      end
    | lazymatch goal with
      | |- first_logout_only P (set_connectionState _ _) =>
          apply flo_state; [reflexivity |]
      | |- first_logout_only P (suspend _ _) =>
          apply flo_suspend; [split; discriminate |]
      | |- first_logout_only P (respond _ _) =>
          apply flo_respond; [cbn [res_path res_message]; intros Hpath;
                              first [reflexivity | discriminate Hpath] |]
      end ].

Lemma dispatch_logout r w :
  first_logout_only P w -> first_logout_only P (dispatch r w).
Proof.
  intros H. destruct r; unfold dispatch; simpl;
    walk_with (first_logout_only P) first_logout.
Qed.

Lemma resume_logout k r w w' :
  (forall s, r = FulfilledWith s -> P s) ->
  of_first_logout k ->
  first_logout_only P w -> resume k r w = Some w' -> first_logout_only P w'.
Proof.
  intros Hr [Hk1 Hk2] H E.
  assert (forall a, k = AwaitDestroy a -> a <> LoggedOut) as Hd by congruence.
  assert (forall a, k = AwaitLogout a -> a <> LoggedOut) as Hl by congruence.
  clear Hk1 Hk2.
  destruct k as [a | | | | | | | | | a];
    try (specialize (Hd a eq_refl); destruct a; [| | | | | done]);
    try (specialize (Hl a eq_refl); destruct a; [| | | | | done]);
    destruct r; simpl in E; try discriminate; injection E as <-;
    unfold status_response;
    try (walk_with (first_logout_only P) first_logout; fail).
  walk_with (first_logout_only P) first_logout.
  apply flo_reported; [by apply Hr |].
  walk_with (first_logout_only P) first_logout.
Qed.

Lemma step_logout w te :
  (forall id s, te.2 = Settle id (FulfilledWith s) -> P s) ->
  first_logout_only P w -> first_logout_only P (step w te).
Proof.
  intros Hr H. unfold step. cbv zeta. destruct te as [t []]; cbn [fst snd] in *.
  - walk_with (first_logout_only P) first_logout.
  - walk_with (first_logout_only P) first_logout.
  - walk_with (first_logout_only P) first_logout.
  - destruct (tasks (set_now t w) !! id) as [k|] eqn:Ek;
      [| walk (first_logout_only P)].
    destruct (resume k r _) as [w'|] eqn:Er; [| walk (first_logout_only P)].
    eapply resume_logout; [| | | exact Er].
    + intros s ->. by eapply Hr.
    + destruct H as (_ & H2 & _). exact (H2 id k Ek).
    + apply flo_delete. walk (first_logout_only P).
  - by apply dispatch_logout; walk (first_logout_only P).
Qed.

Lemma run_from_logout evs : forall w,
  (forall s, s ∈ reported evs -> P s) ->
  first_logout_only P w -> first_logout_only P (run_from w evs).
Proof.
  induction evs as [|te evs IH]; intros w Hr H; [done |].
  simpl. apply IH.
  - intros s Hs. apply Hr. unfold reported. simpl.
    destruct te as [t []]; simpl; try done. destruct r; simpl; try done. by right.
  - apply step_logout; [| done].
    intros id s E. apply Hr. unfold reported. simpl. rewrite E. by left.
Qed.

End logout.



(** ** Restarting after a reset *)

(** What [/reset] and the first [/logout] handler leave behind once the
    teardown is over. *)
Lemma after_reset_state (w : world) (k : after_destroy) :
  k = Reset \/ k = Logout ->
  client w = None -> isClientDestroying w = false -> reconnectionTimer w = None ->
  exists n,
    monitoringTimer (after k w) = Some n /\
    timers (after k w) !! n = Some MonitorTick /\
    timers (after k w) !! S n = Some (Reinitialize 3000) /\
    connectionState (after k w) = "RESETTING" /\
    client (after k w) = None /\ isClientDestroying (after k w) = false /\
    reconnectionTimer (after k w) = None /\ isLoggedIn (after k w) = false /\
    qrCodeData (after k w) = EmptyString /\
    lastConnectionAttempt (after k w) = lastConnectionAttempt w /\
    clientsCreated (after k w) = clientsCreated w.
Proof.
  intros Hk Hc Hd Hr.
  destruct w as [q l ln lnm pp cs cl dcl rt mt ct lca ra lks lat qgt qa qar
                 nw tm tk nid cc rs].
  cbn [client isClientDestroying reconnectionTimer] in *. subst cl dcl rt.
  exists nid.
  destruct Hk as [-> | ->]; destruct mt as [m|];
    unfold after, startMonitoring; fields;
    rewrite lookup_insert_eq, lookup_insert_ne, lookup_insert_eq by lia;
    by repeat split.
Qed.

(** A re-initialisation timer that fires within the minimum interval
    does nothing but go away. *)
Lemma fire_reinitialize_refused (w : world) (t d : Z) (id : nat) :
  timers w !! id = Some (Reinitialize d) ->
  (t - lastConnectionAttempt w < MIN_RECONNECT_INTERVAL)%Z ->
  step w (t, Fire id) = clearTimer id (set_now t w).
Proof.
  intros Hl Ht. unfold step. cbv zeta. cbn [fst snd].
  assert (timers (set_now t w) !! id = Some (Reinitialize d)) as -> by exact Hl.
  cbn [is_interval fire]. unfold initializeWhatsAppClient.
  destruct (is_some (client (clearTimer id (set_now t w))) || _); [done |].
  assert (now (clearTimer id (set_now t w)) = t) as -> by done.
  assert (lastConnectionAttempt (clearTimer id (set_now t w)) = lastConnectionAttempt w)
    as -> by done.
  apply Z.ltb_lt in Ht. by rewrite Ht.
Qed.

(** A monitor tick restarts the session when nothing else will. *)
Lemma monitor_tick_restarts (w : world) (t : Z) (id : nat) :
  timers w !! id = Some MonitorTick ->
  isLoggedIn w = false -> qrCodeData w = EmptyString ->
  client w = None -> isClientDestroying w = false -> reconnectionTimer w = None ->
  (MIN_RECONNECT_INTERVAL <= t - lastConnectionAttempt w)%Z ->
  client (step w (t, Fire id)) = Some (clientsCreated w) /\
  connectionState (step w (t, Fire id)) = "INITIALIZING" /\
  clientsCreated (step w (t, Fire id)) = S (clientsCreated w).
Proof.
  intros Hl Hlog Hq Hc Hd Hr Ht. unfold step. cbv zeta. cbn [fst snd].
  assert (timers (set_now t w) !! id = Some MonitorTick) as -> by exact Hl.
  cbn [is_interval fire].
  destruct w as [q l ln lnm pp cs cl dcl rt mt ct lca ra lks lat qgt qa qar
                 nw tm tk nid cc rs].
  cbn [isLoggedIn qrCodeData client isClientDestroying reconnectionTimer
       lastConnectionAttempt clientsCreated] in *.
  subst l q cl dcl rt. apply Z.ltb_ge in Ht.
  unfold monitor. fields. cbn [String.eqb negb andb is_some].
  destruct (MAX_RECONNECTION_ATTEMPTS <? S ra)%nat;
    unfold initializeWhatsAppClient; fields; cbn [is_some orb]; rewrite Ht;
    by fields.
Qed.



(** *** The flag [qrAutoRefresh] *)

Section refresh.
Context (b : bool).

Lemma dispatch_refresh r w :
  r <> POST_toggle_qr_auto_refresh -> refresh_is b w -> refresh_is b (dispatch r w).
Proof.
  intros Hr H. destruct r; try done; unfold dispatch; simpl; walk (refresh_is b).
Qed.

Lemma resume_refresh k r w w' :
  refresh_is b w -> resume k r w = Some w' -> refresh_is b w'.
Proof.
  intros H E. destruct k, r; simpl in E; try discriminate; injection E as <-;
    unfold status_response; walk (refresh_is b).
Qed.

Lemma step_refresh w te :
  is_toggle te = false -> refresh_is b w -> refresh_is b (step w te).
Proof.
  intros Hte H. unfold step. cbv zeta.
  destruct te as [t [| e | id | id r | r]]; cbn [fst snd].
  - walk (refresh_is b).
  - walk (refresh_is b).
  - walk (refresh_is b).
  - destruct (tasks (set_now t w) !! id) as [k|] eqn:Ek; [| walk (refresh_is b)].
    destruct (resume k r _) as [w'|] eqn:Er; [| walk (refresh_is b)].
    eapply resume_refresh; [| exact Er]. walk (refresh_is b).
  - apply dispatch_refresh; [by intros -> | walk (refresh_is b)].
Qed.

End refresh.

Lemma step_toggle w t :
  qrAutoRefresh (step w (t, Request POST_toggle_qr_auto_refresh))
  = negb (qrAutoRefresh w).
Proof. by destruct w. Qed.

Lemma run_from_refresh evs : forall w,
  qrAutoRefresh (run_from w evs) = xorb (qrAutoRefresh w) (Nat.odd (toggles evs)).
Proof.
  unfold run_from, toggles.
  induction evs as [|te evs IH]; intros w; simpl; [by rewrite xorb_false_r |].
  rewrite IH, filter_cons. destruct (is_toggle te) eqn:E.
  - rewrite decide_True by done. simpl length. rewrite Nat.odd_succ, <- Nat.negb_odd.
    destruct te as [t [| | | | []]]; try discriminate.
    rewrite step_toggle. by destruct (qrAutoRefresh w), (Nat.odd _).
  - rewrite decide_False by done.
    by rewrite (step_refresh (qrAutoRefresh w) w te E).
Qed.

(** X21.  The flag [qrAutoRefresh] is changed by requests to
    [/toggle-qr-auto-refresh] and by nothing else: in every run it is
    set exactly when the number of such requests so far is odd, so two
    requests in a row restore it, and a reset or a logout does not clear
    it. *)
Theorem qrAutoRefresh_counts_toggle_requests (evs : list (Z * event)) (w : world) :
  qrAutoRefresh (run evs) = Nat.odd (toggles evs) /\
  qrAutoRefresh (post_toggle_qr_auto_refresh (post_toggle_qr_auto_refresh w))
  = qrAutoRefresh w /\
  qrAutoRefresh (dispatch POST_reset w) = qrAutoRefresh w /\
  qrAutoRefresh (dispatch POST_logout w) = qrAutoRefresh w.
Proof.
  split; [unfold run; by rewrite run_from_refresh |].
  split; [destruct w; unfold post_toggle_qr_auto_refresh; fields;
          apply negb_involutive |].
  split; by apply (dispatch_refresh (qrAutoRefresh w)).
Qed.

(** *** The clock of the log *)

(** X22.  The time stamp of [log] uses a 12-hour clock that stays
    unambiguous: the hour printed is between 1 and 12 (midnight and noon
    both print as 12), and together with the AM/PM marker it determines
    the hour of the day; minutes, seconds, month and day are always two
    characters wide, while the hour is not padded. *)
Theorem log_clock_is_unambiguous :
  (forall h, h < 24 -> 1 <= hours12 h <= 12) /\
  (forall h h', h < 24 -> h' < 24 ->
     hours12 h = hours12 h' -> ampm h = ampm h' -> h = h') /\
  (forall n, n < 100 -> String.length (padStart2 (toString n)) = 2) /\
  log 2025 0 5 0 7 9 "Server running" = "[2025-01-05 12:07:09 AM] Server running" /\
  log 2025 11 31 13 0 0 "Goodbye!" = "[2025-12-31 1:00:00 PM] Goodbye!".
Proof.
  split; [| split; [| split; [| split; reflexivity]]].
  - intros h Hh.
    assert (forallb (fun h => (1 <=? hours12 h)%nat && (hours12 h <=? 12)%nat)
              (seq 0 24) = true) as H by (vm_compute; reflexivity).
    rewrite forallb_forall in H. specialize (H h ltac:(apply in_seq; lia)).
    apply andb_true_iff in H as [H1 H2].
    apply Nat.leb_le in H1, H2. lia.
  - intros h h' Hh Hh' E1 E2.
    assert (forallb (fun h => forallb (fun h' =>
                implb ((hours12 h =? hours12 h')%nat && String.eqb (ampm h) (ampm h'))
                      (h =? h')%nat) (seq 0 24)) (seq 0 24) = true) as H
      by (vm_compute; reflexivity).
    rewrite forallb_forall in H. specialize (H h ltac:(apply in_seq; lia)).
    rewrite forallb_forall in H. specialize (H h' ltac:(apply in_seq; lia)).
    rewrite E1, E2, Nat.eqb_refl, String.eqb_refl in H. simpl in H.
    by apply Nat.eqb_eq in H.
  - intros n Hn.
    assert (forallb (fun n => (String.length (padStart2 (toString n)) =? 2)%nat)
              (seq 0 100) = true) as H by (vm_compute; reflexivity).
    rewrite forallb_forall in H. specialize (H n ltac:(apply in_seq; lia)).
    by apply Nat.eqb_eq in H.
Qed.

Lemma log_clock_is_unambiguous_witness :
  1 <= hours12 0 <= 12 /\ (hours12 0 = hours12 12 /\ ampm 0 <> ampm 12) /\
  String.length (padStart2 (toString 7)) = 2.
Proof.
  destruct log_clock_is_unambiguous as (H1 & H2 & H3 & _).
  split; [apply H1; lia |]. split; [| apply H3; lia].
  split; [reflexivity |]. intros E.
  specialize (H2 0 12 ltac:(lia) ltac:(lia) eq_refl E). discriminate H2.
Defined.

(** ** The status route *)

(** X23.  [/status] reads the stored state before it asks the provider
    and answers with that copy when the query fails, while it reads the
    login flag when it answers.  So a session that drops between the
    request and the failed query is reported as not connected together
    with the state of the request; and whatever the provider answers,
    even DISCONNECTED, [/status] changes neither the connection state
    nor the login flag, and arms or clears no timer. *)
Theorem status_reports_the_state_of_the_request (w : world) (t1 t2 : Z)
    (state error_message : string) :
  connected w = true ->
  let w1 := get_status w in
  let dropped := step w1 (t1, Emit Disconnected) in
  let failed := step dropped (t2, Settle (nextId w) (Rejected error_message)) in
  let answered := step w1 (t2, Settle (nextId w) (FulfilledWith state)) in
  (responses w1 = responses w /\
   responses failed
   = responses w ++ [Response "/status" 200 false (connectionState w) ""] /\
   connectionState failed = "DISCONNECTED") /\
  (responses answered
   = responses w ++ [Response "/status" 200 true state ""] /\
   connectionState answered = connectionState w /\
   isLoggedIn answered = true /\ client answered = client w /\
   timers answered = timers w /\ lastActiveTimestamp answered = t2).
Proof.
  intros Hc. unfold connected in Hc. apply andb_true_iff in Hc as [Hl Hc].
  unfold get_status. rewrite Hl, Hc. cbv zeta.
  destruct w as [q l ln lnm pp cs cl dcl rt mt ct lca ra lks lat qgt qa qar
                 nw tm tk nid cc rs].
  cbn [isLoggedIn client] in Hl, Hc. subst l.
  unfold step. cbn [fst snd on_event andb]. split.
  - unfold handleDisconnection. fields.
    destruct ct as [c|], rt as [r|]; fields;
      rewrite lookup_insert_eq; cbn [resume]; unfold status_response; by fields.
  - fields. rewrite lookup_insert_eq. cbn [resume]. unfold status_response.
    by fields.
Qed.

Lemma status_reports_the_state_of_the_request_witness :
  let w1 := get_status in_session in
  let dropped := step w1 (t0 + 21000, Emit Disconnected)%Z in
  let failed := step dropped (t0 + 22000, Settle (nextId in_session) (Rejected "timeout"))%Z in
  responses failed = [Response "/status" 200 false "CONNECTED" ""] /\
  connectionState failed = "DISCONNECTED".
Proof.
  destruct (status_reports_the_state_of_the_request in_session
              (t0 + 21000) (t0 + 22000) "OPENING" "timeout") as [(_ & H1 & H2) _].
  - vm_compute. reflexivity.
  - split; [| exact H2]. etransitivity; [exact H1 |]. vm_compute. reflexivity.
Defined.

(** ** Asking for a new QR code *)

(** What [/generate-qr] leaves behind once the teardown is over. *)
Lemma generate_qr_torn_down (w : world) (t1 : Z) (r : reply) :
  r = Fulfilled \/ (exists e, r = Rejected e) ->
  isLoggedIn w = false -> destroyClient_guard w = true ->
  let w1 := post_generate_qr w in
  let w2 := step w1 (t1, Settle (nextId w) r) in
  responses w1 = responses w /\
  responses w2
  = responses w ++ [Response "/generate-qr" 200 true "" "Generating new QR code"] /\
  timers w2 !! S (nextId w) = Some (Reinitialize 2000) /\
  connectionState w2 = "GENERATING_QR" /\
  client w2 = None /\ isClientDestroying w2 = false /\
  lastConnectionAttempt w2 = lastConnectionAttempt w /\
  clientsCreated w2 = clientsCreated w.
Proof.
  intros Hr Hl Hg. cbv zeta. unfold post_generate_qr, await_destroyClient.
  rewrite Hl, Hg. clear Hl Hg.
  destruct w as [q l ln lnm pp cs cl dcl rt mt ct lca ra lks lat qgt qa qar
                 nw tm tk nid cc rs].
  unfold step, destroyClient_begin. cbn [fst snd]. fields.
  rewrite lookup_insert_eq.
  destruct Hr as [-> | [e ->]]; cbn [resume];
    unfold after, destroyClient_finally; fields;
    rewrite lookup_insert_eq; by repeat split.
Qed.

(** X24.  [/generate-qr] refuses while somebody is logged in, and does
    nothing else then.  Otherwise it tears the client down, answers that
    a new code is being generated and arms a restart 2 seconds later;
    when that timer fires less than 30 seconds after the last connection
    attempt, [initializeWhatsAppClient] refuses, so no client is created
    and the server stays in state GENERATING_QR without one. *)
Theorem manual_qr_request_can_be_lost (w : world) (t1 t2 : Z) (r : reply) :
  r = Fulfilled \/ (exists e, r = Rejected e) ->
  (t2 - lastConnectionAttempt w < MIN_RECONNECT_INTERVAL)%Z ->
  let w1 := post_generate_qr w in
  let w2 := step w1 (t1, Settle (nextId w) r) in
  let w3 := step w2 (t2, Fire (S (nextId w))) in
  (isLoggedIn w = true ->
   w1 = respond (Response "/generate-qr" 200 false ""
                          "Cannot generate QR code while logged in") w) /\
  (isLoggedIn w = false -> destroyClient_guard w = true ->
   responses w1 = responses w /\
   responses w2
   = responses w ++ [Response "/generate-qr" 200 true "" "Generating new QR code"] /\
   timers w2 !! S (nextId w) = Some (Reinitialize 2000) /\
   connectionState w2 = "GENERATING_QR" /\
   client w3 = None /\ connectionState w3 = "GENERATING_QR" /\
   clientsCreated w3 = clientsCreated w /\ timers w3 !! S (nextId w) = None).
Proof.
  intros Hr Ht. cbv zeta. split.
  - intros H. unfold post_generate_qr. by rewrite H.
  - intros Hl Hg.
    destruct (generate_qr_torn_down w t1 r Hr Hl Hg)
      as (H1 & H2 & H3 & H4 & H5 & H6 & H7 & H8).
    revert H1 H2 H3 H4 H5 H6 H7 H8.
    generalize (step (post_generate_qr w) (t1, Settle (nextId w) r)).
    intros w2 H1 H2 H3 H4 H5 H6 H7 H8.
    rewrite (fire_reinitialize_refused w2 t2 2000 (S (nextId w))) by (done || lia).
    repeat split; try done.
    unfold clearTimer. cbn [timers set_timers set_now].
    apply lookup_delete_eq.
Qed.

Lemma manual_qr_request_can_be_lost_witness :
  let w := set_now (t0 + 10000) booted in
  let w1 := post_generate_qr w in
  let w2 := step w1 (t0 + 10500, Settle (nextId w) Fulfilled)%Z in
  let w3 := step w2 (t0 + 12500, Fire (S (nextId w)))%Z in
  responses w2
  = responses w ++ [Response "/generate-qr" 200 true "" "Generating new QR code"] /\
  client w3 = None /\ connectionState w3 = "GENERATING_QR" /\
  clientsCreated w3 = clientsCreated w.
Proof.
  destruct (manual_qr_request_can_be_lost (set_now (t0 + 10000) booted)
              (t0 + 10500) (t0 + 12500) Fulfilled) as [_ H].
  - by left.
  - vm_compute. reflexivity.
  - destruct H as (_ & H2 & _ & _ & H5 & H6 & H7 & _);
      [vm_compute; reflexivity | vm_compute; reflexivity |].
    exact (conj H2 (conj H5 (conj H6 H7))).
Defined.
